(** * Family-office workflow: banking normaliser, snapshot differ,
      token discovery, price cache and ledger writer.

    Shallow embedding of [src/openbanking-fetcher.ts] (class
    [OpenBankingFetcher]) and of the [SmartCryptoFetcher] class, followed by
    the properties of the reconciliation core.

    Conventions of the embedding.
    - A JavaScript number is an exact rational ([Q]); rounding, NaN and the
      infinities are outside the model.  [x || 0] on a number is the number
      itself, so it is written as the field.
    - A plain JavaScript object used as a dictionary, and a [Map], are
      insertion-ordered association lists ([Obj]); keys are data keys, the
      members inherited from [Object.prototype] are outside the model, and so
      is the engine's special enumeration order of integer-like keys.
    - I/O (HTTP replies, the clock, files) is passed in as explicit
      arguments and the new state is returned. *)

From Stdlib Require Import List String Ascii Bool ZArith QArith Qabs Lia Lqa.
From Stdlib Require Import DecimalString Permutation.
Import ListNotations.

Local Open Scope string_scope.
Local Open Scope Q_scope.

(* ===================================================================== *)
(** ** JavaScript primitives                                              *)
(* ===================================================================== *)

Module JS.

(** Truthiness of a string: every string but the empty one. *)
Definition truthy_str (s : string) : bool :=
  match s with EmptyString => false | String _ _ => true end.

(** Truthiness of a number: every number but zero. *)
Definition truthy_num (q : Q) : bool := negb (Qeq_bool q 0).

(** Truthiness of an optional ([?:]) number field: present and non-zero. *)
Definition truthy_onum (o : option Q) : bool :=
  match o with Some q => truthy_num q | None => false end.

(** Truthiness of an optional string field. *)
Definition truthy_ostr (o : option string) : bool :=
  match o with Some s => truthy_str s | None => false end.

(** [a || b] on optional strings. *)
Definition or_ostr (a b : option string) : option string :=
  if truthy_ostr a then a else b.

(** A value inside a template literal: [`${undefined}`] is "undefined". *)
Definition tmpl (o : option string) : string :=
  match o with Some s => s | None => "undefined" end.

(** Numeric comparisons. *)
Definition gtb (x y : Q) : bool := negb (Qle_bool x y).
Definition geb (x y : Q) : bool := Qle_bool y x.
Definition ltb (x y : Q) : bool := negb (Qle_bool y x).
(** [x !== y] on numbers. *)
Definition neqb (x y : Q) : bool := negb (Qeq_bool x y).

(** [String.prototype.toLowerCase] / [toUpperCase], on the ASCII letters. *)
Definition lower_ascii (c : ascii) : ascii :=
  let n := nat_of_ascii c in
  if (Nat.leb 65 n && Nat.leb n 90)%bool then ascii_of_nat (n + 32) else c.

Definition upper_ascii (c : ascii) : ascii :=
  let n := nat_of_ascii c in
  if (Nat.leb 97 n && Nat.leb n 122)%bool then ascii_of_nat (n - 32) else c.

Fixpoint toLowerCase (s : string) : string :=
  match s with
  | EmptyString => EmptyString
  | String c r => String (lower_ascii c) (toLowerCase r)
  end.

Fixpoint toUpperCase (s : string) : string :=
  match s with
  | EmptyString => EmptyString
  | String c r => String (upper_ascii c) (toUpperCase r)
  end.

(** [s.startsWith(t)]. *)
Definition startsWith (s t : string) : bool := String.prefix t s.

(** [s.includes(t)]: [t] occurs in [s] at some offset. *)
Fixpoint includes (s t : string) : bool :=
  if String.prefix t s then true
  else match s with
       | EmptyString => false
       | String _ r => includes r t
       end.

(** [String(n)] for an integer. *)
Definition string_of_Z (z : Z) : string := NilZero.string_of_int (Z.to_int z).

(** *** Dictionaries

    [o[k] = v] replaces the value of an existing key in place and appends
    a new key at the end; [Object.keys], [Object.values] and
    [Map.prototype.values] enumerate in that order. *)
Definition Obj (V : Type) : Type := list (string * V).

Fixpoint obj_get {V} (k : string) (o : Obj V) : option V :=
  match o with
  | [] => None
  | (k', v) :: r => if String.eqb k k' then Some v else obj_get k r
  end.

Fixpoint obj_set {V} (k : string) (v : V) (o : Obj V) : Obj V :=
  match o with
  | [] => [(k, v)]
  | (k', v') :: r =>
      if String.eqb k k' then (k, v) :: r else (k', v') :: obj_set k v r
  end.

Definition obj_has {V} (k : string) (o : Obj V) : bool :=
  match obj_get k o with Some _ => true | None => false end.

Definition obj_keys {V} (o : Obj V) : list string := map fst o.
Definition obj_values {V} (o : Obj V) : list V := map snd o.

(** [arr.some(p)]. *)
Definition some {A} (p : A -> bool) (l : list A) : bool := existsb p l.

(** Sum of a list of numbers, as [reduce((s, x) => s + x, 0)] computes it. *)
Definition sum (l : list Q) : Q := fold_left Qplus l 0.

End JS.

(* ===================================================================== *)
(** ** Shared data types ([types.ts])                                     *)
(* ===================================================================== *)

Inductive ChangeType : Type := new | closed | value_change | share_change.

Record PositionChange : Type := mkChange {
  type : ChangeType;
  symbol : string;
  oldValue : option Q;
  newValue : option Q;
  oldShares : option Q;
  newShares : option Q;
  percentChange : option Q
}.

Record Position : Type := mkPosition {
  p_symbol : string;
  p_name : string;
  shares : Q;
  currentPrice : Q;
  marketValue : Q;
  costBasis : Q;
  unrealizedGainLoss : Q;
  account : string;
  sector : string;
  currency : string;
  isin : option string;
  lastUpdated : option string
}.

Record PortfolioPositions : Type := mkPositions {
  equities : list Position;
  funds : list Position;
  bonds : list Position;
  cash : list Position;
  private_equity : list Position;
  private_debt : list Position;
  real_estate : list Position;
  crowdfunding : list Position;
  crypto : list Position
}.

(** A raw account of the banking provider ([any] in the source): the fields
    the normaliser reads.  An identifier field that is [undefined] is
    [None]; the others are carried as the strings they hold. *)
Record Account : Type := mkAccount {
  id : Z;
  iban : option string;
  number : option string;
  webid : option string;
  original_name : option string;
  id_type : option string;
  a_type : option string;
  balance : Q
}.

Record PortfolioData : Type := mkPortfolio {
  pd_lastUpdated : string;
  totalNetWorth : Q;
  accounts : list Account;
  positions : PortfolioPositions
}.

(** The significance thresholds, as [parseFloat] reads them from
    [SIGNIFICANCE_PERCENT_THRESHOLD] and [SIGNIFICANCE_VALUE_EUR_THRESHOLD]. *)
Record Thresholds : Type := mkThresholds {
  percentThreshold : Q;
  valueThreshold : Q
}.

(** The defaults: ['5.0'] and ['1000.0']. *)
Definition defaultThresholds : Thresholds := mkThresholds 5 1000.

(* ===================================================================== *)
(** ** Snapshot differ ([OpenBankingFetcher.detectChanges])               *)
(* ===================================================================== *)

Module Differ.
Import JS.

(** [isSignificantChange]. *)
Definition isSignificantChange (env : Thresholds) (change : PositionChange) : bool :=
  match type change with
  | new | closed => true
  | _ =>
      if (match percentChange change with
          | Some pc => truthy_num pc && geb (Qabs pc) (percentThreshold env)
          | None => false
          end)%bool
      then true
      else
        if (truthy_onum (oldValue change) && truthy_onum (newValue change))%bool
        then
          match oldValue change, newValue change with
          | Some ov, Some nv => geb (Qabs (nv - ov)) (valueThreshold env)
          | _, _ => false
          end
        else false
  end.

(** [pos.symbol || pos.isin || '']. *)
Definition symbol_of (pos : Position) : string :=
  if truthy_str (p_symbol pos) then p_symbol pos
  else if truthy_ostr (isin pos) then tmpl (isin pos)
  else "".

(** The seven categories the differ walks, in its order ([bonds] and
    [cash] are not among them). *)
Definition categories (p : PortfolioPositions) : list (list Position) :=
  [ equities p; funds p; private_equity p; private_debt p;
    real_estate p; crowdfunding p; crypto p ].

(** One [for (const pos of ...)] body of the flattening loop. *)
Definition index_position (m : Obj Position) (pos : Position) : Obj Position :=
  let symbol := symbol_of pos in
  if truthy_str symbol then obj_set symbol pos m else m.

(** The symbol-keyed map of one snapshot. *)
Definition flatten (p : PortfolioPositions) : Obj Position :=
  fold_left (fun m cat => fold_left index_position cat m) (categories p) [].

(** "Find new positions". *)
Definition new_changes (oldPositions newPositions : Obj Position) : list PositionChange :=
  flat_map (fun kv : string * Position =>
    let (symbol, pos) := kv in
    if negb (obj_has symbol oldPositions)
    then [mkChange new symbol None (Some (marketValue pos)) None (Some (shares pos)) None]
    else []) newPositions.

(** "Find closed positions". *)
Definition closed_changes (oldPositions newPositions : Obj Position) : list PositionChange :=
  flat_map (fun kv : string * Position =>
    let (symbol, pos) := kv in
    if negb (obj_has symbol newPositions)
    then [mkChange closed symbol (Some (marketValue pos)) None (Some (shares pos)) None None]
    else []) oldPositions.

(** The value-change candidate of a symbol held in both snapshots. *)
Definition value_candidate (symbol : string) (oldV newV : Q) : PositionChange :=
  mkChange value_change symbol (Some oldV) (Some newV) None None
           (Some (((newV - oldV) / oldV) * 100)).

Definition share_candidate (symbol : string) (oldS newS oldV newV : Q) : PositionChange :=
  mkChange share_change symbol (Some oldV) (Some newV) (Some oldS) (Some newS) None.

(** The body of the "changed positions" loop for one old key. *)
Definition changed_for (env : Thresholds) (newPositions : Obj Position)
           (symbol : string) (oldPos : Position) : list PositionChange :=
  match obj_get symbol newPositions with
  | None => []
  | Some newPos =>
      let oldV := marketValue oldPos in
      let newV := marketValue newPos in
      let oldS := shares oldPos in
      let newS := shares newPos in
      (if (neqb oldV newV && gtb oldV 0)%bool
       then (if isSignificantChange env (value_candidate symbol oldV newV)
             then [value_candidate symbol oldV newV] else [])
       else [])
      ++
      (if neqb oldS newS
       then [share_candidate symbol oldS newS oldV newV]
       else [])
  end.

Definition changed_changes (env : Thresholds) (oldPositions newPositions : Obj Position)
  : list PositionChange :=
  flat_map (fun kv : string * Position => changed_for env newPositions (fst kv) (snd kv))
           oldPositions.

(** [detectChanges]. *)
Definition detectChanges (env : Thresholds) (oldData newData : PortfolioData)
  : list PositionChange :=
  let oldPositions := flatten (positions oldData) in
  let newPositions := flatten (positions newData) in
  new_changes oldPositions newPositions
  ++ closed_changes oldPositions newPositions
  ++ changed_changes env oldPositions newPositions.

Definition ChangeType_eqb (a b : ChangeType) : bool :=
  match a, b with
  | new, new | closed, closed | value_change, value_change
  | share_change, share_change => true
  | _, _ => false
  end.

(** How many changes of one type a diff holds for one symbol. *)
Definition count_of (t : ChangeType) (s : string) (changes : list PositionChange) : nat :=
  List.length (filter (fun c => (ChangeType_eqb (type c) t && String.eqb (symbol c) s)%bool)
                 changes).

(** [changes.filter(c => this.isSignificantChange(c))] of [fetchAndUpdate]. *)
Definition significantChanges (env : Thresholds) (changes : list PositionChange)
  : list PositionChange :=
  filter (isSignificantChange env) changes.

End Differ.

(* ===================================================================== *)
(** ** Normaliser ([OpenBankingFetcher.transformToInternalFormat])        *)
(* ===================================================================== *)

Record PowensInvestment : Type := mkInvestment {
  code_type : string;
  code : string;
  stock_symbol : option string;
  label : string;
  quantity : Q;
  unitvalue : Q;
  valuation : Q;
  unitprice : Q;
  diff : Q;
  id_account : Z;
  vdate : string
}.

Record PowensInvestmentData : Type := mkInvestmentData {
  investments : list PowensInvestment;
  total_valuation : Q
}.

(** [config/asset-patterns.json], section [categorization]. *)
Record CategorizationPatterns : Type := mkPatterns {
  pat_real_estate : list string;
  pat_funds : list string;
  pat_private_equity : list string;
  pat_private_debt : list string;
  pat_crowdfunding : list string
}.

Module Normalizer.
Import JS.

(** *** Account deduplication *)

(** The key of an account: IBAN, else number or webid, else name and type. *)
Definition accountKey (account : Account) : string :=
  let k1 := iban account in
  let k2 :=
    if (negb (truthy_ostr k1)
        && (truthy_ostr (number account) || truthy_ostr (webid account)))%bool
    then or_ostr (number account) (webid account)
    else k1 in
  if negb (truthy_ostr k2)
  then tmpl (original_name account) ++ "-"
       ++ tmpl (or_ostr (id_type account) (a_type account))
  else tmpl k2.

(** The state of the deduplication loop: [uniqueAccounts],
    [seenAccounts] (a [Map]) and [uniqueAccountIds] (a [Set]). *)
Record DedupState : Type := mkDedup {
  uniqueAccounts : list Account;
  seenAccounts : Obj Account;
  uniqueAccountIds : list Z
}.

(** [Set.prototype.has] / [add] on account ids. *)
Definition set_has (x : Z) (s : list Z) : bool := existsb (Z.eqb x) s.
Definition set_add (x : Z) (s : list Z) : list Z :=
  if set_has x s then s else s ++ [x].

Definition dedup_step (st : DedupState) (account : Account) : DedupState :=
  let key := accountKey account in
  if negb (obj_has key (seenAccounts st))
  then mkDedup (uniqueAccounts st ++ [account])
               (obj_set key account (seenAccounts st))
               (set_add (id account) (uniqueAccountIds st))
  else st.

Definition dedupAccounts (accountsData : list Account) : DedupState :=
  fold_left dedup_step accountsData (mkDedup [] [] []).

(** *** Instrument rows *)

(** The row filter: ISIN code type, not the liquidity line, positive value. *)
Definition eligible (inv : PowensInvestment) : bool :=
  (String.eqb (code_type inv) "ISIN"
   && negb (String.eqb (code inv) "XX-liquidity")
   && gtb (valuation inv) 0)%bool.

(** The [Position] pushed for a row. *)
Definition toPosition (inv : PowensInvestment) : Position :=
  mkPosition
    (if truthy_ostr (stock_symbol inv) then tmpl (stock_symbol inv) else code inv)
    (label inv)
    (quantity inv)
    (unitvalue inv)
    (valuation inv)
    (quantity inv * unitprice inv)
    (diff inv)
    (if Z.eqb (id_account inv) 0 then "" else string_of_Z (id_account inv))
    "Unknown"
    "EUR"
    (Some (code inv))
    (Some (vdate inv)).

(** [allInvestments]: rows of unique accounts that pass the filter. *)
Definition allInvestments (ids : list Z) (invs : list PowensInvestment) : list Position :=
  flat_map (fun inv =>
    if negb (set_has (id_account inv) ids) then []
    else if eligible inv then [toPosition inv] else []) invs.

(** The signature [`${symbol}-${shares}-${marketValue}-${currentPrice}`]
    of a row.  Two numbers print alike exactly when they are equal, so the
    signature is kept as its four components. *)
Definition Signature : Type := (string * Q * Q * Q)%type.

Definition signature (inv : Position) : Signature :=
  (p_symbol inv, shares inv, marketValue inv, currentPrice inv).

Definition sig_eqb (a b : Signature) : bool :=
  match a, b with
  | (s1, q1, v1, c1), (s2, q2, v2, c2) =>
      (String.eqb s1 s2 && Qeq_bool q1 q2 && Qeq_bool v1 v2 && Qeq_bool c1 c2)%bool
  end.

Definition seen_has (sg : Signature) (seen : list Signature) : bool :=
  existsb (sig_eqb sg) seen.

(** "Remove exact duplicates first". *)
Definition unique_step (st : list Position * list Signature) (inv : Position)
  : list Position * list Signature :=
  let (uniqueInvestments, seenCombinations) := st in
  if negb (seen_has (signature inv) seenCombinations)
  then ((uniqueInvestments ++ [inv])%list, (seenCombinations ++ [signature inv])%list)
  else st.

Definition uniqueInvestments (all : list Position) : list Position :=
  fst (fold_left unique_step all ([], [])).

(** *** Consolidation by symbol *)

(** The object written when the symbol is already consolidated. *)
Definition merge (existing inv : Position) : Position :=
  let totalShares := shares existing + shares inv in
  let totalMarketValue := marketValue existing + marketValue inv in
  let totalCostBasis := costBasis existing + costBasis inv in
  mkPosition
    (p_symbol existing)
    (p_name existing)
    totalShares
    (if gtb totalShares 0 then totalMarketValue / totalShares else 0)
    totalMarketValue
    totalCostBasis
    (totalMarketValue - totalCostBasis)
    (account existing ++ "," ++ account inv)
    (sector existing)
    (currency existing)
    (isin existing)
    (lastUpdated existing).

Definition consolidate_step (m : Obj Position) (inv : Position) : Obj Position :=
  let symbol := p_symbol inv in
  match obj_get symbol m with
  | Some existing => obj_set symbol (merge existing inv) m
  | None => obj_set symbol inv m
  end.

Definition consolidatedPositions (unique : list Position) : Obj Position :=
  fold_left consolidate_step unique [].

(** The surviving rows of one symbol, in their order, and a total over
    rows. *)
Definition rows_of (s : string) (rows : list Position) : list Position :=
  filter (fun r => String.eqb (p_symbol r) s) rows.

Definition total (f : Position -> Q) (rows : list Position) : Q :=
  sum (map f rows).


(** *** Categorisation *)

(** The fallback patterns of [loadCategorizationPatterns]. *)
Definition fallbackPatterns : CategorizationPatterns :=
  mkPatterns ["reit"; "real estate"; "property"]
             ["etf"; "index"; "fund"]
             ["private"; "pe fund"]
             ["bond"; "debt"; "credit"]
             ["crowdfunding"; "crowd"].

Inductive Category : Type :=
| cat_real_estate | cat_funds | cat_private_equity | cat_private_debt
| cat_crowdfunding | cat_equities.

Definition Category_eqb (a b : Category) : bool :=
  match a, b with
  | cat_real_estate, cat_real_estate | cat_funds, cat_funds
  | cat_private_equity, cat_private_equity | cat_private_debt, cat_private_debt
  | cat_crowdfunding, cat_crowdfunding | cat_equities, cat_equities => true
  | _, _ => false
  end.

(** The [if / else if] chain; both last branches push to [equities]. *)
Definition classify (patterns : CategorizationPatterns) (inv : Position) : Category :=
  let nameLower := toLowerCase (p_name inv) in
  let isin_ := toUpperCase (match isin inv with Some i => i | None => "" end) in
  if some (fun term => includes nameLower term) (pat_real_estate patterns) then cat_real_estate
  else if some (fun term => includes nameLower term) (pat_funds patterns) then cat_funds
  else if some (fun term => includes nameLower term) (pat_private_equity patterns) then cat_private_equity
  else if some (fun term => includes nameLower term) (pat_private_debt patterns) then cat_private_debt
  else if some (fun term => includes nameLower term) (pat_crowdfunding patterns) then cat_crowdfunding
  else if startsWith isin_ "FR0000" then cat_equities
  else cat_equities.

Definition emptyPositions : PortfolioPositions :=
  mkPositions [] [] [] [] [] [] [] [] [].

(** [categories.<c>.push(inv)]. *)
Definition push (c : Category) (inv : Position) (p : PortfolioPositions)
  : PortfolioPositions :=
  match c with
  | cat_real_estate =>
      mkPositions (equities p) (funds p) (bonds p) (cash p) (private_equity p)
                  (private_debt p) (real_estate p ++ [inv]) (crowdfunding p) (crypto p)
  | cat_funds =>
      mkPositions (equities p) (funds p ++ [inv]) (bonds p) (cash p) (private_equity p)
                  (private_debt p) (real_estate p) (crowdfunding p) (crypto p)
  | cat_private_equity =>
      mkPositions (equities p) (funds p) (bonds p) (cash p) (private_equity p ++ [inv])
                  (private_debt p) (real_estate p) (crowdfunding p) (crypto p)
  | cat_private_debt =>
      mkPositions (equities p) (funds p) (bonds p) (cash p) (private_equity p)
                  (private_debt p ++ [inv]) (real_estate p) (crowdfunding p) (crypto p)
  | cat_crowdfunding =>
      mkPositions (equities p) (funds p) (bonds p) (cash p) (private_equity p)
                  (private_debt p) (real_estate p) (crowdfunding p ++ [inv]) (crypto p)
  | cat_equities =>
      mkPositions (equities p ++ [inv]) (funds p) (bonds p) (cash p) (private_equity p)
                  (private_debt p) (real_estate p) (crowdfunding p) (crypto p)
  end.

Definition categorize (patterns : CategorizationPatterns) (consolidated : Obj Position)
  : PortfolioPositions :=
  fold_left (fun cats inv => push (classify patterns inv) inv cats)
            (obj_values consolidated) emptyPositions.

(** Every position of a snapshot, over its nine categories. *)
Definition all_positions (p : PortfolioPositions) : list Position :=
  equities p ++ funds p ++ bonds p ++ cash p ++ private_equity p
  ++ private_debt p ++ real_estate p ++ crowdfunding p ++ crypto p.

(** The surviving rows of a call: rows of unique accounts that pass the
    row filter, exact duplicates removed. *)
Definition surviving (accountsData : list Account) (investmentsData : PowensInvestmentData)
  : list Position :=
  uniqueInvestments
    (allInvestments (uniqueAccountIds (dedupAccounts accountsData))
                    (investments investmentsData)).

(** The consolidated map of a call, before categorisation. *)
Definition consolidatedOf (accountsData : list Account) (investmentsData : PowensInvestmentData)
  : Obj Position :=
  consolidatedPositions (surviving accountsData investmentsData).

(** [transformToInternalFormat]; [timestamp] is [new Date().toISOString()]
    and [patterns] what [loadCategorizationPatterns] returns. *)
Definition transformToInternalFormat (timestamp : string) (patterns : CategorizationPatterns)
           (accountsData : list Account) (investmentsData : PowensInvestmentData)
  : PortfolioData :=
  let st := dedupAccounts accountsData in
  let accountsTotal := fold_left (fun sum a => sum + balance a) (uniqueAccounts st) 0 in
  mkPortfolio timestamp accountsTotal (uniqueAccounts st)
              (categorize patterns (consolidatedOf accountsData investmentsData)).

End Normalizer.

(* ===================================================================== *)
(** ** Token discovery and price cache ([SmartCryptoFetcher])             *)
(* ===================================================================== *)

Module Crypto.
Import JS.

Record DiscoveryConfig : Type := mkDiscovery {
  enabled : bool;
  scanDepth : Z;
  minValueUsd : Q;
  maxTransactionsToScan : Z;
  cacheExpiryHours : Q
}.

Record ChainConfigV2 : Type := mkChain {
  chain_name : string;
  chainId : Z;
  rpcUrl : string;
  explorerUrl : string;
  explorerApiUrl : string
}.

(** What [getTokenBalance] reads of a [TokenInfo | TokenMetadata]. *)
Record TokenInfo : Type := mkTokenInfo {
  ti_address : string;
  ti_symbol : string;
  ti_name : string;
  ti_decimals : Z;
  ti_coingeckoId : option string
}.

Record TokenMetadata : Type := mkMetadata {
  tm_info : TokenInfo;
  tm_chain : string;
  tm_type : option string;
  discoveredAt : string;
  verified : bool
}.

(** A cached price; the ISO [timestamp] is carried as the epoch
    milliseconds it denotes. *)
Record CachedPrice : Type := mkCached {
  price : Q;
  timestamp : Z;
  source : string
}.

Record DiscoveredToken : Type := mkDiscovered {
  dt_address : string;
  firstSeen : string;
  lastSeen : string;
  transactionCount : Z
}.

Record CryptoConfigV2 : Type := mkConfig {
  discovery : DiscoveryConfig;
  chains : Obj ChainConfigV2;
  tokenDatabase : Obj TokenMetadata;
  priceCache : Obj CachedPrice;
  knownTokens : Obj (list TokenInfo)
}.

Definition with_tokenDatabase (c : CryptoConfigV2) (db : Obj TokenMetadata) : CryptoConfigV2 :=
  mkConfig (discovery c) (chains c) db (priceCache c) (knownTokens c).

Definition with_priceCache (c : CryptoConfigV2) (pc : Obj CachedPrice) : CryptoConfigV2 :=
  mkConfig (discovery c) (chains c) (tokenDatabase c) pc (knownTokens c).

(** *** [discoverTokens] *)

(** One transfer of the explorer's [tokentx] listing. *)
Record TokenTx : Type := mkTx {
  contractAddress : option string;
  timeStamp : string
}.

(** The outcome of the explorer request: it throws, or it answers with a
    [status] and an optional [result]. *)
Inductive ExplorerReply : Type :=
| ExplorerError
| ExplorerData (status : string) (result : option (list TokenTx)).

(** The loop body over the transfers; [tokenMap] is the [Map] keyed by
    lowercased contract address, whose entries are updated in place. *)
Definition discover_step (tokenMap : Obj DiscoveredToken) (tx : TokenTx)
  : Obj DiscoveredToken :=
  match contractAddress tx with
  | None => tokenMap
  | Some a =>
      let tokenAddress := toLowerCase a in
      if negb (truthy_str tokenAddress) then tokenMap
      else match obj_get tokenAddress tokenMap with
           | Some token =>
               obj_set tokenAddress
                 (mkDiscovered (dt_address token) (firstSeen token) (timeStamp tx)
                               (transactionCount token + 1)%Z)
                 tokenMap
           | None =>
               obj_set tokenAddress
                 (mkDiscovered tokenAddress (timeStamp tx) (timeStamp tx) 1%Z)
                 tokenMap
           end
  end.

(** The lowercased address a transfer contributes, if any. *)
Definition tx_address (tx : TokenTx) : option string :=
  match contractAddress tx with
  | Some a => if truthy_str (toLowerCase a) then Some (toLowerCase a) else None
  | None => None
  end.

(** Every entry of the map records its own key as address. *)
Definition keyed (m : Obj DiscoveredToken) : Prop :=
  forall k v, In (k, v) m -> dt_address v = k.

Definition scan (txs : list TokenTx) : list DiscoveredToken :=
  obj_values (fold_left discover_step txs []).

(** [discoverTokens] for a configured chain. *)
Definition discoverTokens (config : CryptoConfigV2) (chainConfig : ChainConfigV2)
           (reply : ExplorerReply) : list DiscoveredToken :=
  if negb (enabled (discovery config)) then []
  else if negb (truthy_str (explorerApiUrl chainConfig)) then []
  else match reply with
       | ExplorerError => []
       | ExplorerData status result =>
           if negb (String.eqb status "1") then []
           else scan (match result with Some r => r | None => [] end)
       end.

(** *** [classifyToken] *)
Definition classifyToken (symbol name : string) : string :=
  let symbolUpper := toUpperCase symbol in
  let nameUpper := toUpperCase name in
  if existsb (String.eqb symbolUpper) ["USDC"; "USDT"; "DAI"; "BUSD"] then "stablecoin"
  else if (includes nameUpper "WRAPPED" || startsWith symbolUpper "W")%bool then "wrapped"
  else if (includes nameUpper "LIQUIDITY" || includes nameUpper "LP"
           || includes symbolUpper "LP")%bool then "liquidity_pool"
  else if (includes nameUpper "STAKED" || includes symbolUpper "ST")%bool then "staking"
  else if (includes nameUpper "GOVERNANCE" || includes nameUpper "VOTE")%bool then "governance"
  else "utility".

(** *** [getTokenPrice] *)

(** The outcome of the pricing request: it throws, or it answers and
    [response.data[coinId]?.usd] is read. *)
Inductive PriceReply : Type :=
| PriceError
| PriceData (usd : option Q).

Definition priceKey (symbol : string) (coingeckoId : option string) : string :=
  if truthy_ostr coingeckoId then tmpl coingeckoId else toLowerCase symbol.

(** The cache check: the entry of the key when [cacheAge < maxAge]. *)
Definition cacheLookup (config : CryptoConfigV2) (now : Z) (cacheKey : string)
  : option Q :=
  match obj_get cacheKey (priceCache config) with
  | Some cached =>
      let cacheAge := inject_Z (now - timestamp cached) in
      let maxAge := cacheExpiryHours (discovery config) * 60 * 60 * 1000 in
      if ltb cacheAge maxAge then Some (price cached) else None
  | None => None
  end.

(** [getTokenPrice]: [now] is [Date.now()] at the cache check, [reply] the
    outcome of the request made on a miss, [stored] the time of
    [new Date()] when the fresh price is cached.  Returns the price and
    the configuration after the call. *)
Definition getTokenPrice (config : CryptoConfigV2) (now : Z) (reply : PriceReply)
           (stored : Z) (symbol : string) (coingeckoId : option string)
  : Q * CryptoConfigV2 :=
  let cacheKey := priceKey symbol coingeckoId in
  match cacheLookup config now cacheKey with
  | Some p => (p, config)
  | None =>
      match reply with
      | PriceData usd =>
          let price := match usd with Some p => p | None => 0 end in
          (price,
           with_priceCache config
             (obj_set cacheKey (mkCached price stored "coingecko") (priceCache config)))
      | PriceError => (0, config)
      end
  end.

(** *** The wallet scan ([getAllTokensForWallet]) *)

Record TokenBalance : Type := mkBalance {
  tb_symbol : string;
  tb_name : string;
  tb_balance : Q;
  tb_decimals : Z;
  tb_contractAddress : option string;
  priceUsd : Q;
  valueUsd : Q
}.

(** What the outside world answers during one scan: the on-chain reads,
    the symbol search, the pricing service, the explorer and the clock
    (taken as constant over the scan). *)
Record World : Type := mkWorld {
  balanceOf : string -> option Q;
  read_symbol : string -> option string;
  read_name : string -> option string;
  read_decimals : string -> option Z;
  searchId : string -> option string;
  priceReply : string -> PriceReply;
  explorer : ExplorerReply;
  clock : Z;
  clockIso : string
}.

(** [getTokenBalance]: [null] when the read throws or the balance is zero. *)
Definition getTokenBalance (w : World) (config : CryptoConfigV2) (tokenInfo : TokenInfo)
  : option TokenBalance * CryptoConfigV2 :=
  match balanceOf w (ti_address tokenInfo) with
  | None => (None, config)
  | Some balanceFormatted =>
      if Qeq_bool balanceFormatted 0 then (None, config)
      else
        let '(price, config') :=
          getTokenPrice config (clock w)
            (priceReply w (priceKey (ti_symbol tokenInfo) (ti_coingeckoId tokenInfo)))
            (clock w) (ti_symbol tokenInfo) (ti_coingeckoId tokenInfo) in
        (Some (mkBalance (ti_symbol tokenInfo) (ti_name tokenInfo) balanceFormatted
                         (ti_decimals tokenInfo) (Some (ti_address tokenInfo))
                         price (balanceFormatted * price)),
         config')
  end.

(** [researchToken] with a provider at hand: the three reads fall back to
    their defaults, the metadata is stored under [chain:address]. *)
Definition researchToken (w : World) (config : CryptoConfigV2)
           (tokenAddress chainName : string) : TokenMetadata * CryptoConfigV2 :=
  let symbol := match read_symbol w tokenAddress with Some s => s | None => "UNKNOWN" end in
  let name := match read_name w tokenAddress with Some s => s | None => "Unknown Token" end in
  let decimals := match read_decimals w tokenAddress with Some d => d | None => 18%Z end in
  let coingeckoId := searchId w symbol in
  let metadata :=
    mkMetadata (mkTokenInfo tokenAddress symbol name decimals coingeckoId)
               chainName (Some (classifyToken symbol name)) (clockIso w)
               (truthy_ostr coingeckoId) in
  let cacheKey := chainName ++ ":" ++ tokenAddress in
  (metadata, with_tokenDatabase config (obj_set cacheKey metadata (tokenDatabase config))).

(** [knownTokens.some(kt => kt.address.toLowerCase() === discovered.address.toLowerCase())]. *)
Definition alreadyKnown (knownTokens : list TokenInfo) (discovered : DiscoveredToken) : bool :=
  some (fun kt => String.eqb (toLowerCase (ti_address kt))
                             (toLowerCase (dt_address discovered))) knownTokens.

(** The state the scan threads: the balances kept, the configuration, and
    the addresses handed to [researchToken] so far. *)
Record ScanState : Type := mkScan {
  tokens : list TokenBalance;
  cfg : CryptoConfigV2;
  researched : list string
}.

Definition keep_balance (st : ScanState) (r : option TokenBalance * CryptoConfigV2)
  : ScanState :=
  match r with
  | (Some balance, config') =>
      if geb (valueUsd balance) (minValueUsd (discovery config'))
      then mkScan (tokens st ++ [balance]) config' (researched st)
      else mkScan (tokens st) config' (researched st)
  | (None, config') => mkScan (tokens st) config' (researched st)
  end.

(** Loop 1: the known tokens. *)
Definition known_step (w : World) (st : ScanState) (tokenInfo : TokenInfo) : ScanState :=
  keep_balance st (getTokenBalance w (cfg st) tokenInfo).

(** Loop 2: one discovered token. *)
Definition discovered_step (w : World) (chainName : string) (knownTokens : list TokenInfo)
           (st : ScanState) (discovered : DiscoveredToken) : ScanState :=
  if alreadyKnown knownTokens discovered then st
  else
    let cacheKey := chainName ++ ":" ++ dt_address discovered in
    match obj_get cacheKey (tokenDatabase (cfg st)) with
    | Some metadata =>
        keep_balance st (getTokenBalance w (cfg st) (tm_info metadata))
    | None =>
        let '(metadata, config') := researchToken w (cfg st) (dt_address discovered) chainName in
        let st' := mkScan (tokens st) config' (researched st ++ [dt_address discovered]) in
        keep_balance st' (getTokenBalance w config' (tm_info metadata))
    end.

(** [getAllTokensForWallet] for a chain whose provider exists. *)
Definition getAllTokensForWallet (w : World) (config : CryptoConfigV2) (chainName : string)
  : ScanState :=
  match obj_get chainName (chains config) with
  | None => mkScan [] config []
  | Some chainConfig =>
      let knownTokens :=
        match obj_get chainName (knownTokens config) with Some l => l | None => [] end in
      let st1 := fold_left (known_step w) knownTokens (mkScan [] config []) in
      if enabled (discovery config)
      then fold_left (discovered_step w chainName knownTokens)
                     (discoverTokens config chainConfig (explorer w)) st1
      else st1
  end.

(** An address is in the Token Registry of a chain when the registry holds
    an entry whose key is [chain:address], compared without case. *)
Definition inRegistry (config : CryptoConfigV2) (chainName address : string) : bool :=
  existsb (fun k => String.eqb (toLowerCase k) (toLowerCase (chainName ++ ":" ++ address)))
          (obj_keys (tokenDatabase config)).

End Crypto.

(* ===================================================================== *)
(** ** Ledger writer ([OpenBankingFetcher.logToLedger])                   *)
(* ===================================================================== *)

Module LedgerWriter.
Import JS.

Record Summary : Type := mkSummary {
  positionsAnalyzed : option Q;
  recommendationsGenerated : option Q;
  totalPortfolioValue : option Q;
  changeFromLastRun : option Q;
  newPositions : option Q;
  closedPositions : option Q;
  significantMovements : option Q
}.

Definition emptySummary : Summary := mkSummary None None None None None None None.

Record LedgerEntry : Type := mkEntry {
  le_id : string;
  le_timestamp : string;
  duration : Q;
  phase : string;
  status : string;
  errors : list string;
  summary : Summary;
  notes : string;
  le_symbol : option string;
  change_type : option string;
  value : option Q;
  le_shares : option Q
}.

Record Ledger : Type := mkLedger {
  entries : list LedgerEntry;
  schema : Obj string
}.

(** The [details] argument ([any] in the source). *)
Record Details : Type := mkDetails {
  d_summary : option Summary;
  d_notes : option string;
  d_symbol : option string;
  d_change_type : option string;
  d_value : option Q;
  d_shares : option Q
}.

(** [x || 0] on an optional number. *)
Definition or0 (x : option Q) : option Q :=
  if truthy_onum x then x else Some 0.

(** The entry [logToLedger] builds; [stamp] is [format(new Date(), ...)]
    and [iso] is [new Date().toISOString()]. *)
Definition newEntry (stamp iso entryType status : string) (details : Details)
           (runId : option string) : LedgerEntry :=
  let runId' := if truthy_ostr runId then tmpl runId else "workflow-" ++ stamp in
  let summary0 := match d_summary details with Some s => s | None => emptySummary end in
  let notes0 := if truthy_ostr (d_notes details) then tmpl (d_notes details) else "" in
  if String.eqb entryType "position_change" then
    mkEntry runId' iso 0 entryType status [] summary0 notes0
            (d_symbol details) (d_change_type details) (d_value details) (d_shares details)
  else if String.eqb entryType "data_collection" then
    mkEntry runId' iso 0 entryType status []
            (mkSummary (or0 (positionsAnalyzed summary0))
                       (Some 0)
                       (or0 (totalPortfolioValue summary0))
                       (or0 (changeFromLastRun summary0))
                       (or0 (newPositions summary0))
                       (or0 (closedPositions summary0))
                       (or0 (significantMovements summary0)))
            notes0 None None None None
  else
    mkEntry runId' iso 0 entryType status [] summary0 notes0 None None None None.

(** What [ledgerFile] holds before the call: no file, a file that
    [readJSON] cannot turn into a ledger, or a ledger. *)
Inductive LedgerFile : Type :=
| NoFile
| Unreadable
| Stored (l : Ledger).

(** The entries a ledger file holds; none when there is no file. *)
Definition stored_entries (file : LedgerFile) : list LedgerEntry :=
  match file with Stored l => entries l | _ => [] end.

(** [logToLedger]: the ledger written by [writeJSON], or [None] when the
    read or the write threw and the error was only logged.  [write_ok]
    tells whether [writeJSON] succeeds. *)
Definition logToLedger (file : LedgerFile) (write_ok : bool)
           (stamp iso entryType status : string) (details : Details)
           (runId : option string) : option Ledger :=
  let entry := newEntry stamp iso entryType status details runId in
  match file with
  | Unreadable => None
  | NoFile =>
      if write_ok then Some (mkLedger ([] ++ [entry]) []) else None
  | Stored ledger =>
      if write_ok then Some (mkLedger (entries ledger ++ [entry]) (schema ledger)) else None
  end.

(** One call of [logToLedger]: its arguments and its clock readings. *)
Record LogCall : Type := mkCall {
  c_stamp : string;
  c_iso : string;
  c_entryType : string;
  c_status : string;
  c_details : Details;
  c_runId : option string
}.

Definition entryOf (c : LogCall) : LedgerEntry :=
  newEntry (c_stamp c) (c_iso c) (c_entryType c) (c_status c) (c_details c) (c_runId c).

(** The file after a call whose [writeJSON] succeeds: the ledger written,
    or the file as it was when reading it threw and nothing was written. *)
Definition fileAfter (file : LedgerFile) (c : LogCall) : LedgerFile :=
  match logToLedger file true (c_stamp c) (c_iso c) (c_entryType c) (c_status c)
                    (c_details c) (c_runId c) with
  | Some l => Stored l
  | None => file
  end.

(** The file after a run of such calls. *)
Definition fileAfterAll (file : LedgerFile) (calls : list LogCall) : LedgerFile :=
  fold_left fileAfter calls file.

End LedgerWriter.

(* ===================================================================== *)
(** ** Sample data                                                        *)
(* ===================================================================== *)

Module Samples.

(** A holding with the given symbol, quantity and market value. *)
Definition holding (sym : string) (qty value : Q) : Position :=
  mkPosition sym sym qty 0 value 0 0 "1" "Unknown" "EUR" None None.

(** An ISIN row of an account: symbol, quantity, market value, unit value. *)
Definition row (sym : string) (qty value unit : Q) (acct : Z) : PowensInvestment :=
  mkInvestment "ISIN" sym (Some sym) sym qty unit value unit 0 acct "2024-01-01".

(** An account known by its IBAN. *)
Definition bank_account (i : Z) (ib : string) : Account :=
  mkAccount i (Some ib) None None (Some "Main") None (Some "checking") 100.

(** A snapshot whose holdings are all equities. *)
Definition snapshot (held : list Position) : PortfolioData :=
  mkPortfolio "2024-01-01T00:00:00.000Z" 0 []
              (mkPositions held [] [] [] [] [] [] [] []).

End Samples.

Module CryptoSamples.
Import Crypto.

Definition ethereum : ChainConfigV2 :=
  mkChain "Ethereum" 1 "https://rpc.example" "https://explorer.example"
          "https://api.explorer.example/api".

(** Registry metadata of a token at an address. *)
Definition registered (a : string) : TokenMetadata :=
  mkMetadata (mkTokenInfo a "USDC" "USD Coin" 6 (Some "usd-coin"))
             "ethereum" (Some "stablecoin") "2024-01-01T00:00:00.000Z" true.

(** Discovery enabled, one chain, 0xabc in the Token Registry, a price
    cache that expires after one hour. *)
Definition config : CryptoConfigV2 :=
  mkConfig (mkDiscovery true 100 1 100 1)
           [("ethereum", ethereum)]
           [("ethereum:0xabc", registered "0xabc")]
           [("usd-coin", mkCached 1 1000 "coingecko")]
           [].

(** Scenario E: three transfers of 0xABC and one of 0xDEF. *)
Definition history : list TokenTx :=
  [ mkTx (Some "0xABC") "100"; mkTx (Some "0xABC") "101";
    mkTx (Some "0xABC") "102"; mkTx (Some "0xDEF") "103" ].

(** A world in which the explorer answers with [history] and every other
    request fails. *)
Definition world : World :=
  mkWorld (fun _ => None) (fun _ => None) (fun _ => None) (fun _ => None)
          (fun _ => None) (fun _ => PriceError)
          (ExplorerData "1" (Some history)) 5000 "2024-01-02T00:00:00.000Z".

End CryptoSamples.

(* ===================================================================== *)
(** ** The rest of [OpenBankingFetcher]: configuration and previous data  *)
(* ===================================================================== *)

Module Fetcher.
Import JS.

(** The four environment variables [loadConfig] reads; an unset variable
    is [None]. *)
Record Env : Type := mkEnv {
  POWENS_DOMAIN : option string;
  POWENS_CLIENT_ID : option string;
  POWENS_CLIENT_SECRET : option string;
  POWENS_USER_ID : option string
}.

Record PowensConfig : Type := mkPowens {
  domain : string;
  client_id : string;
  client_secret : string;
  user_id : string
}.

(** [process.env.X || '']. *)
Definition envOr (v : option string) : string :=
  if truthy_ostr v then tmpl v else "".

(** [Object.entries(config)], in the order the literal lists the keys. *)
Definition configEntries (config : PowensConfig) : list (string * string) :=
  [ ("domain", domain config); ("client_id", client_id config);
    ("client_secret", client_secret config); ("user_id", user_id config) ].

(** The keys whose value is falsy. *)
Definition missingKeys (config : PowensConfig) : list string :=
  map fst (filter (fun kv => negb (truthy_str (snd kv))) (configEntries config)).

(** [loadConfig]: the configuration, or the message of the error thrown. *)
Definition loadConfig (env : Env) : string + PowensConfig :=
  let config := mkPowens (envOr (POWENS_DOMAIN env)) (envOr (POWENS_CLIENT_ID env))
                         (envOr (POWENS_CLIENT_SECRET env)) (envOr (POWENS_USER_ID env)) in
  let missing := missingKeys config in
  if Nat.ltb 0 (List.length missing)
  then inl ("Missing required config: " ++ String.concat ", " missing)
  else inr config.

(** What the positions file holds: nothing, something [readJSON] throws
    on, or a snapshot. *)
Inductive PositionsFile : Type :=
| NoPositions
| BadPositions
| HeldPositions (data : PortfolioData).

(** The snapshot returned when there is nothing to load. *)
Definition emptyPortfolio : PortfolioData :=
  mkPortfolio "" 0 [] (mkPositions [] [] [] [] [] [] [] [] []).

(** [loadPreviousPositions]. *)
Definition loadPreviousPositions (file : PositionsFile) : PortfolioData :=
  match file with
  | HeldPositions data => data
  | NoPositions | BadPositions => emptyPortfolio
  end.

End Fetcher.

(* ===================================================================== *)
(** ** The fetch cycle ([OpenBankingFetcher.fetchAndUpdate])              *)
(* ===================================================================== *)

(** [CryptoPosition] of [types.ts]. *)
Record CryptoPosition : Type := mkCryptoPosition {
  cp_symbol : string;
  cp_name : string;
  cp_balance : Q;
  cp_currentPrice : Q;
  cp_marketValue : Q;
  cp_contractAddress : option string;
  cp_chain : string;
  cp_wallet : string;
  cp_protocol : option string;
  cp_type : string;
  cp_apy : option Q;
  cp_lastUpdated : string
}.

Module Cycle.
Import JS Differ Normalizer Fetcher LedgerWriter.

(** [w.slice(0, 6)] and [w.slice(-4)]. *)
Definition slice_0_6 (w : string) : string := String.substring 0 6 w.
Definition slice_last4 (w : string) : string :=
  String.substring (String.length w - 4) 4 w.

(** The [Position] built for a crypto position; the crypto-specific
    fields kept beside it are not read by the differ. *)
Definition convertCrypto (crypto : CryptoPosition) : Position :=
  mkPosition
    (cp_symbol crypto)
    (cp_name crypto)
    (cp_balance crypto)
    (cp_currentPrice crypto)
    (cp_marketValue crypto)
    (cp_marketValue crypto)
    0
    (cp_chain crypto ++ "-" ++ slice_0_6 (cp_wallet crypto) ++ "..."
     ++ slice_last4 (cp_wallet crypto))
    (if truthy_ostr (cp_protocol crypto) then tmpl (cp_protocol crypto) else "Cryptocurrency")
    "USD"
    None
    (Some (cp_lastUpdated crypto)).

(** What the crypto side of the cycle comes to: no wallet configured, a
    fetch that threw, or positions. *)
Inductive CryptoOutcome : Type :=
| NotConfigured
| CryptoFailed
| CryptoFetched (cryptoPositions : list CryptoPosition).

Definition with_crypto (p : PortfolioPositions) (c : list Position) : PortfolioPositions :=
  mkPositions (equities p) (funds p) (bonds p) (cash p) (private_equity p)
              (private_debt p) (real_estate p) (crowdfunding p) c.

(** [newData] after the crypto step. *)
Definition addCrypto (newData : PortfolioData) (crypto : CryptoOutcome) : PortfolioData :=
  match crypto with
  | CryptoFetched cryptoPositions =>
      mkPortfolio (pd_lastUpdated newData)
                  (totalNetWorth newData
                   + fold_left (fun sum pos => sum + cp_marketValue pos) cryptoPositions 0)
                  (accounts newData)
                  (with_crypto (positions newData) (map convertCrypto cryptoPositions))
  | NotConfigured | CryptoFailed => newData
  end.

(** The number formats of the notes: [toFixed(1)] and
    [toLocaleString('en-US', { minimumFractionDigits: 2 })]. *)
Record Formats : Type := mkFormats {
  toFixed1 : Q -> string;
  toLocale2 : Q -> string
}.

(** The clock of one cycle: the stamp of the run id, and the stamp and
    ISO time read by the ledger call made for the n-th entry of a list
    (the last reading serves the closing call). *)
Record Clock : Type := mkClock {
  runStamp : string;
  callStamp : nat -> string;
  callIso : nat -> string
}.

(** The ledger call made for one significant change, if any. *)
Definition changeCall (fmt : Formats) (clock : Clock) (runId : string)
           (n : nat) (change : PositionChange) : list LogCall :=
  match type change with
  | new =>
      [mkCall (callStamp clock n) (callIso clock n) "position_change" "opened"
              (mkDetails None (Some ("New position opened: " ++ symbol change))
                         (Some (symbol change)) (Some "new_position")
                         (newValue change) (newShares change))
              (Some (runId ++ "-" ++ symbol change))]
  | closed =>
      [mkCall (callStamp clock n) (callIso clock n) "position_change" "closed"
              (mkDetails None (Some ("Position closed: " ++ symbol change))
                         (Some (symbol change)) (Some "closed_position")
                         (oldValue change) (oldShares change))
              (Some (runId ++ "-" ++ symbol change))]
  | value_change =>
      [mkCall (callStamp clock n) (callIso clock n) "price_update" "significant"
              (mkDetails None
                         (Some (symbol change ++ ": "
                                ++ (match percentChange change with
                                    | Some pc => if truthy_num pc then toFixed1 fmt pc else "0"
                                    | None => "0"
                                    end)
                                ++ "% change"))
                         (Some (symbol change)) (Some "value_change")
                         (newValue change) None)
              (Some (runId ++ "-" ++ symbol change))]
  | share_change => []
  end.

(** The calls of the loop over the significant changes, from index [n]. *)
Fixpoint changeCalls (fmt : Formats) (clock : Clock) (runId : string)
         (n : nat) (significant : list PositionChange) : list LogCall :=
  match significant with
  | [] => []
  | change :: rest =>
      (changeCall fmt clock runId n change
       ++ changeCalls fmt clock runId (S n) rest)%list
  end.

(** [changes.filter(c => c.type === t).length]. *)
Definition countType (t : ChangeType) (changes : list PositionChange) : nat :=
  List.length (filter (fun c => ChangeType_eqb (type c) t) changes).

(** [Object.values(newData.positions).reduce((sum, positions) => sum + positions.length, 0)]. *)
Definition totalPositions (p : PortfolioPositions) : nat :=
  List.length (equities p) + List.length (funds p) + List.length (bonds p)
  + List.length (cash p) + List.length (private_equity p)
  + List.length (private_debt p) + List.length (real_estate p)
  + List.length (crowdfunding p) + List.length (crypto p).

Definition ofNat (n : nat) : Q := inject_Z (Z.of_nat n).

(** The closing call, with the figures of the run. *)
Definition summaryCall (fmt : Formats) (clock : Clock) (runId : string) (n : nat)
           (previousTotal : Q) (newData : PortfolioData)
           (changes significant : list PositionChange) : LogCall :=
  let newTotal := totalNetWorth newData in
  let total := totalPositions (positions newData) in
  mkCall (callStamp clock n) (callIso clock n) "data_collection" "completed"
         (mkDetails
            (Some (mkSummary (Some (ofNat total)) None (Some newTotal)
                             (Some (newTotal - previousTotal))
                             (Some (ofNat (countType new changes)))
                             (Some (ofNat (countType closed changes)))
                             (Some (ofNat (List.length significant)))))
            (Some ("Fetched " ++ string_of_Z (Z.of_nat total)
                   ++ " positions, portfolio value: €" ++ toLocale2 fmt newTotal))
            None None None None)
         (Some runId).

(** The call that records a failed collection; it passes no run id. *)
Definition failedCall (clock : Clock) (notes : string) : LogCall :=
  mkCall (callStamp clock 0) (callIso clock 0) "data_collection" "failed"
         (mkDetails None (Some notes) None None None None) None.

(** What one cycle does: its return value, its ledger calls in order, and
    the snapshot it writes to the positions file, if it gets there. *)
Record Outcome : Type := mkOutcome {
  result : bool;
  ledgerCalls : list LogCall;
  written : option PortfolioData
}.

(** [fetchAndUpdate].  [authenticated] is the result of [authenticate],
    [accountsData] and [investmentsData] what [fetchAccounts] and
    [fetchInvestments] return (a missing investment list is the empty
    list), [crypto] the crypto side. *)
Definition fetchAndUpdate (env : Thresholds) (patterns : CategorizationPatterns)
           (fmt : Formats) (clock : Clock) (timestamp : string)
           (file : PositionsFile) (authenticated : bool)
           (accountsData : list Account) (investmentsData : PowensInvestmentData)
           (crypto : CryptoOutcome) : Outcome :=
  let previousData := loadPreviousPositions file in
  let previousTotal := totalNetWorth previousData in
  if negb authenticated
  then mkOutcome false [failedCall clock "Authentication failed with banking provider"] None
  else
    match investments investmentsData with
    | [] => mkOutcome false [failedCall clock "No investment data received from API"] None
    | _ :: _ =>
        let newData :=
          addCrypto (transformToInternalFormat timestamp patterns accountsData investmentsData)
                    crypto in
        let changes := detectChanges env previousData newData in
        let significant := significantChanges env changes in
        let runId := "fetch-" ++ runStamp clock in
        mkOutcome true
                  (changeCalls fmt clock runId 0 significant
                   ++ [summaryCall fmt clock runId (List.length significant)
                                   previousTotal newData changes significant])
                  (Some newData)
    end.

(** The changes for which the loop makes a ledger call. *)
Definition logged (change : PositionChange) : bool :=
  negb (ChangeType_eqb (type change) share_change).

(** How many logged changes a list holds for one symbol. *)
Definition loggedCount (s : string) (l : list PositionChange) : nat :=
  (count_of new s l + count_of closed s l + count_of value_change s l)%nat.

(** The id of the entry a call appends. *)
Definition entryId (c : LogCall) : string := le_id (entryOf c).


(** A position without symbol that the differ does not index either. *)
Definition plain (q : Position) : Prop :=
  truthy_str (p_symbol q) = false -> symbol_of q = "".

End Cycle.

(* ===================================================================== *)
(** ** The rest of [SmartCryptoFetcher]: wallets and positions            *)
(* ===================================================================== *)

Module Wallets.
Import JS Crypto.

(** What the map of [discoverTokens] holds for an address after the
    transfers [mine] of that address, in order: nothing when there is
    none, else first and last time stamp and their number. *)
Definition entry_of (a : string) (mine : list TokenTx) : option DiscoveredToken :=
  match mine with
  | [] => None
  | first :: rest =>
      Some (mkDiscovered a (timeStamp first) (timeStamp (last rest first))
                         (Z.of_nat (List.length mine)))
  end.

(** The transfers of one lowercased address. *)
Definition transfers_of (a : string) (txs : list TokenTx) : list TokenTx :=
  filter (fun tx => match tx_address tx with
                    | Some b => String.eqb b a
                    | None => false
                    end) txs.

(** Two configurations with the same discovery settings, chains and known
    tokens: they may differ in the registry and in the price cache. *)
Definition same_settings (c c' : CryptoConfigV2) : Prop :=
  discovery c' = discovery c /\ chains c' = chains c /\ knownTokens c' = knownTokens c.

(** What holds of a balance the scan keeps, for a value floor. *)
Definition kept_balance (floor : Q) (b : TokenBalance) : Prop :=
  ~ tb_balance b == 0 /\ valueUsd b = tb_balance b * priceUsd b /\ floor <= valueUsd b.

(** The invariant of the scan, relative to the configuration it started
    from. *)
Definition scan_ok (config : CryptoConfigV2) (st : ScanState) : Prop :=
  same_settings config (cfg st)
  /\ Forall (kept_balance (minValueUsd (discovery config))) (tokens st).

(** [chainConfig.nativeCurrency]. *)
Record NativeCurrency : Type := mkNative {
  nc_name : string;
  nc_symbol : string;
  nc_decimals : Z
}.

Record DeFiPosition : Type := mkDeFi {
  dp_protocol : string;
  dp_type : string;
  dp_tokens : list TokenBalance;
  dp_totalValue : Q;
  dp_apy : option Q
}.

Record WalletData : Type := mkWallet {
  wd_address : string;
  wd_chain : string;
  wd_tokens : list TokenBalance;
  defiPositions : list DeFiPosition;
  totalValue : Q
}.

(** [convertToPositions]; [now] is [new Date().toISOString()]. *)
Definition convertToPositions (now : string) (walletData : WalletData)
  : list CryptoPosition :=
  (flat_map (fun token =>
     if gtb (valueUsd token) 0
     then [mkCryptoPosition (tb_symbol token) (tb_name token) (tb_balance token)
                            (priceUsd token) (valueUsd token)
                            (tb_contractAddress token)
                            (wd_chain walletData) (wd_address walletData)
                            None "token" None now]
     else []) (wd_tokens walletData)
   ++
   flat_map (fun defiPos =>
     if gtb (dp_totalValue defiPos) 0
     then [mkCryptoPosition (dp_protocol defiPos ++ "-" ++ dp_type defiPos)
                            (dp_protocol defiPos ++ " " ++ dp_type defiPos)
                            1 (dp_totalValue defiPos) (dp_totalValue defiPos)
                            None
                            (wd_chain walletData) (wd_address walletData)
                            (Some (dp_protocol defiPos)) (dp_type defiPos)
                            (dp_apy defiPos) now]
     else []) (defiPositions walletData))%list.

(** [fetchWalletData]: [nativeBalance] is the formatted result of
    [provider.getBalance], [None] when there is no provider or the call
    throws; the result is [None] when the function throws. *)
Definition fetchWalletData (w : World) (nativeBalance : option Q) (native : NativeCurrency)
           (config : CryptoConfigV2) (address chainName : string)
  : option WalletData * CryptoConfigV2 :=
  match obj_get chainName (chains config), nativeBalance with
  | Some _, Some balance =>
      let '(nativePrice, config1) :=
        getTokenPrice config (clock w) (priceReply w (priceKey (nc_symbol native) None))
                      (clock w) (nc_symbol native) None in
      let nativeValue := balance * nativePrice in
      let st := getAllTokensForWallet w config1 chainName in
      let tokens :=
        (mkBalance (nc_symbol native) (nc_name native) balance (nc_decimals native)
                   None nativePrice nativeValue :: tokens st) in
      (Some (mkWallet address chainName tokens []
                      (fold_left (fun sum token => sum + valueUsd token) tokens 0
                       + fold_left (fun sum pos => sum + dp_totalValue pos)
                                   (@nil DeFiPosition) 0)),
       cfg st)
  | _, _ => (None, config)
  end.

(** *** [CRYPTO_WALLETS] *)

(** [s.split(sep)] for a one-character separator. *)
Fixpoint split (sep : ascii) (s : string) : list string :=
  match s with
  | EmptyString => [EmptyString]
  | String c r =>
      if Ascii.eqb c sep then EmptyString :: split sep r
      else match split sep r with
           | h :: t => String c h :: t
           | [] => [String c EmptyString]
           end
  end.

(** White space, among the ASCII characters: tab, line feed, vertical
    tab, form feed, carriage return, space. *)
Definition is_space (c : ascii) : bool :=
  let n := nat_of_ascii c in
  ((Nat.leb 9 n && Nat.leb n 13) || Nat.eqb n 32)%bool.

Fixpoint trimStart (s : string) : string :=
  match s with
  | EmptyString => EmptyString
  | String c r => if is_space c then trimStart r else s
  end.

Fixpoint trimEnd (s : string) : string :=
  match s with
  | EmptyString => EmptyString
  | String c r =>
      match trimEnd r with
      | EmptyString => if is_space c then EmptyString else String c EmptyString
      | r' => String c r'
      end
  end.

(** [s.trim()]. *)
Definition trim (s : string) : string := trimEnd (trimStart s).

(** [SmartCryptoFetcher.isCryptoConfigured]; the argument is
    [process.env.CRYPTO_WALLETS]. *)
Definition isCryptoConfigured (CRYPTO_WALLETS : option string) : bool :=
  let wallets :=
    match CRYPTO_WALLETS with
    | Some s => filter (fun w => truthy_str (trim w)) (split "," s)
    | None => []
    end in
  Nat.ltb 0 (List.length wallets).

(** Some character of the string is no white space. *)
Fixpoint has_ink (s : string) : bool :=
  match s with
  | EmptyString => false
  | String c r => (negb (is_space c) || has_ink r)%bool
  end.

(** Some character of the string is neither white space nor a comma. *)
Fixpoint names_a_wallet (s : string) : bool :=
  match s with
  | EmptyString => false
  | String c r => ((negb (is_space c) && negb (Ascii.eqb c ",")) || names_a_wallet r)%bool
  end.

(** *** [fetchAllPositions] *)

(** What the world answers for a wallet on a chain: the replies of the
    scan, the native balance, the native currency of the chain. *)
Definition Worlds : Type := string -> string -> World * option Q * NativeCurrency.

(** One round of the inner loop, over the chains. *)
Definition chain_step (worlds : Worlds) (walletAddress : string)
           (st : list CryptoPosition * CryptoConfigV2) (chainName : string)
  : list CryptoPosition * CryptoConfigV2 :=
  let '(allPositions, config) := st in
  let '(w, nativeBalance, native) := worlds walletAddress chainName in
  match fetchWalletData w nativeBalance native config walletAddress chainName with
  | (Some walletData, config') =>
      ((allPositions ++ convertToPositions (clockIso w) walletData)%list, config')
  | (None, config') => (allPositions, config')
  end.

(** One round of the outer loop, over the wallets. *)
Definition wallet_step (worlds : Worlds) (st : list CryptoPosition * CryptoConfigV2)
           (walletAddress : string) : list CryptoPosition * CryptoConfigV2 :=
  fold_left (chain_step worlds walletAddress) (obj_keys (chains (snd st))) st.

(** [fetchAllPositions]: [CRYPTO_WALLETS] is the environment variable and
    [minPositionValue] what [parseFloat] reads from
    [ANALYSIS_MIN_POSITION_EUR]. *)
Definition fetchAllPositions (worlds : Worlds) (config : CryptoConfigV2)
           (CRYPTO_WALLETS : option string) (minPositionValue : Q)
  : list CryptoPosition * CryptoConfigV2 :=
  let cryptoWallets :=
    match CRYPTO_WALLETS with
    | Some s => map trim (split "," s)
    | None => []
    end in
  match cryptoWallets with
  | [] => ([], config)
  | _ :: _ =>
      let '(allPositions, config') := fold_left (wallet_step worlds) cryptoWallets ([], config) in
      (filter (fun pos => geb (cp_marketValue pos) minPositionValue) allPositions, config')
  end.

(** What holds of every position collected for the wallets [wallets] on
    the chains of [config]. *)
Definition collected (wallets : list string) (config : CryptoConfigV2) (p : CryptoPosition) : Prop :=
  0 < cp_marketValue p /\ cp_type p = "token"
  /\ In (cp_wallet p) wallets /\ In (cp_chain p) (obj_keys (chains config)).

End Wallets.

(* ===================================================================== *)
(** * Properties                                                          *)
(* ===================================================================== *)

(** ** Numbers *)

Section NumberFacts.
Import JS.

Lemma truthy_num_spec (q : Q) : truthy_num q = true <-> ~ q == 0.
Proof.
  unfold truthy_num. rewrite negb_true_iff.
  split.
  - intros H E. apply Qeq_bool_iff in E. congruence.
  - intros H. destruct (Qeq_bool q 0) eqn:E; [|reflexivity].
    apply Qeq_bool_iff in E. contradiction.
Qed.

Lemma neqb_spec (x y : Q) : neqb x y = true <-> ~ x == y.
Proof.
  unfold neqb. rewrite negb_true_iff.
  split.
  - intros H E. apply Qeq_bool_iff in E. congruence.
  - intros H. destruct (Qeq_bool x y) eqn:E; [|reflexivity].
    apply Qeq_bool_iff in E. contradiction.
Qed.

Lemma geb_spec (x y : Q) : geb x y = true <-> y <= x.
Proof. unfold geb. apply Qle_bool_iff. Qed.

Lemma gtb_spec (x y : Q) : gtb x y = true <-> y < x.
Proof.
  unfold gtb. rewrite negb_true_iff. split.
  - intros H. apply Qnot_le_lt. intros L. apply Qle_bool_iff in L. congruence.
  - intros H. destruct (Qle_bool x y) eqn:E; [|reflexivity].
    apply Qle_bool_iff in E. exfalso. exact (Qlt_not_le _ _ H E).
Qed.

Lemma ltb_spec (x y : Q) : ltb x y = true <-> x < y.
Proof. unfold ltb. apply (gtb_spec y x). Qed.

End NumberFacts.

(** ** Dictionaries *)

Section ObjFacts.
Import JS.
Context {V : Type}.
Implicit Types (o : Obj V) (k : string) (v : V).

Lemma obj_get_set_eq o k v : obj_get k (obj_set k v o) = Some v.
Proof.
  induction o as [|[k' v'] r IH]; simpl.
  - now rewrite String.eqb_refl.
  - destruct (String.eqb k k') eqn:E; simpl.
    + now rewrite String.eqb_refl.
    + now rewrite E.
Qed.

Lemma obj_get_set_neq o k k' v :
  k <> k' -> obj_get k' (obj_set k v o) = obj_get k' o.
Proof.
  intros N. induction o as [|[k0 v0] r IH]; simpl.
  - destruct (String.eqb k' k) eqn:E; [|reflexivity].
    apply String.eqb_eq in E. congruence.
  - destruct (String.eqb k k0) eqn:E; simpl.
    + apply String.eqb_eq in E. subst k0.
      destruct (String.eqb k' k) eqn:E'; [|reflexivity].
      apply String.eqb_eq in E'. congruence.
    + now rewrite IH.
Qed.

Lemma obj_has_In o k : obj_has k o = true <-> In k (obj_keys o).
Proof.
  unfold obj_has. induction o as [|[k' v'] r IH]; simpl.
  - split; [discriminate | tauto].
  - destruct (String.eqb k k') eqn:E.
    + apply String.eqb_eq in E. subst. tauto.
    + apply String.eqb_neq in E. rewrite IH. split; [tauto|].
      intros [H|H]; [congruence | exact H].
Qed.

Lemma obj_has_false o k : obj_has k o = false <-> ~ In k (obj_keys o).
Proof.
  rewrite <- obj_has_In. destruct (obj_has k o); split; congruence.
Qed.

Lemma obj_keys_set o k v :
  obj_keys (obj_set k v o) = if obj_has k o then obj_keys o else (obj_keys o ++ [k])%list.
Proof.
  unfold obj_has. induction o as [|[k' v'] r IH]; simpl; [reflexivity|].
  destruct (String.eqb k k') eqn:E; simpl.
  - apply String.eqb_eq in E. now subst.
  - rewrite IH. now destruct (obj_get k r).
Qed.

Lemma NoDup_snoc (A : Type) (l : list A) (x : A) :
  NoDup l -> ~ In x l -> NoDup (l ++ [x]).
Proof.
  intros ND NI. induction ND as [|y l Hy ND IH]; simpl.
  - constructor; [tauto | constructor].
  - constructor.
    + rewrite in_app_iff. simpl. intros [H|[H|[]]]; [tauto|].
      subst. apply NI. now left.
    + apply IH. intros H. apply NI. now right.
Qed.

Lemma obj_set_NoDup o k v : NoDup (obj_keys o) -> NoDup (obj_keys (obj_set k v o)).
Proof.
  intros ND. rewrite obj_keys_set. destruct (obj_has k o) eqn:E; [exact ND|].
  apply NoDup_snoc; [exact ND | now apply obj_has_false].
Qed.

Lemma obj_get_In o k v : obj_get k o = Some v -> In (k, v) o.
Proof.
  induction o as [|[k' v'] r IH]; simpl; [discriminate|].
  destruct (String.eqb k k') eqn:E.
  - apply String.eqb_eq in E. intros [= ->]. subst. now left.
  - intros H. right. now apply IH.
Qed.

Lemma obj_In_get o k v : NoDup (obj_keys o) -> In (k, v) o -> obj_get k o = Some v.
Proof.
  induction o as [|[k' v'] r IH]; simpl; [tauto|].
  intros ND [H|H].
  - injection H as -> ->. now rewrite String.eqb_refl.
  - inversion ND as [|? ? NI ND']; subst.
    destruct (String.eqb k k') eqn:E.
    + apply String.eqb_eq in E. subst. exfalso. apply NI.
      change (In (fst (k', v)) (map fst r)). now apply in_map.
    + now apply IH.
Qed.

Lemma obj_get_has o k v : obj_get k o = Some v -> obj_has k o = true.
Proof. unfold obj_has. now intros ->. Qed.

End ObjFacts.

(** ** Snapshot differ *)

Section DifferFacts.
Import JS Differ.

Lemma index_position_NoDup (m : Obj Position) (pos : Position) :
  NoDup (obj_keys m) -> NoDup (obj_keys (index_position m pos)).
Proof.
  intros ND. unfold index_position.
  destruct (truthy_str (symbol_of pos)); [now apply obj_set_NoDup | exact ND].
Qed.

Lemma fold_index_NoDup (cat : list Position) (m : Obj Position) :
  NoDup (obj_keys m) -> NoDup (obj_keys (fold_left index_position cat m)).
Proof.
  revert m. induction cat as [|pos cat IH]; intros m ND; simpl; [exact ND|].
  apply IH. now apply index_position_NoDup.
Qed.

(** A flattened snapshot holds each symbol once. *)
Lemma flatten_NoDup (p : PortfolioPositions) : NoDup (obj_keys (flatten p)).
Proof.
  unfold flatten.
  assert (G : forall cats m, NoDup (obj_keys m) ->
            NoDup (obj_keys (fold_left (fun m cat => fold_left index_position cat m) cats m))).
  { induction cats as [|c cats IH]; intros m ND; simpl; [exact ND|].
    apply IH. now apply fold_index_NoDup. }
  apply G. constructor.
Qed.

Lemma count_of_app t s (a b : list PositionChange) :
  count_of t s (a ++ b) = (count_of t s a + count_of t s b)%nat.
Proof. unfold count_of. now rewrite filter_app, length_app. Qed.

Lemma count_of_none t s (l : list PositionChange) :
  (forall c, In c l -> type c <> t \/ symbol c <> s) -> count_of t s l = 0%nat.
Proof.
  unfold count_of. induction l as [|c l IH]; intros H; simpl; [reflexivity|].
  destruct (ChangeType_eqb (type c) t && String.eqb (symbol c) s)%bool eqn:E.
  - exfalso. apply andb_true_iff in E as [E1 E2]. apply String.eqb_eq in E2.
    destruct (H c (or_introl eq_refl)) as [N|N]; [|congruence].
    apply N. destruct (type c), t; simpl in E1; congruence.
  - apply IH. intros c' Hc'. apply H. now right.
Qed.

Lemma ChangeType_eqb_refl t : ChangeType_eqb t t = true.
Proof. now destruct t. Qed.

Lemma obj_has_cons {V} (s k : string) (v : V) (r : Obj V) :
  obj_has s ((k, v) :: r) = (String.eqb s k || obj_has s r)%bool.
Proof. unfold obj_has. simpl. now destruct (String.eqb s k). Qed.

(** Per symbol, the "new positions" loop pushes one change or none. *)
Lemma count_new_changes t s (o n : Obj Position) :
  NoDup (obj_keys n) ->
  count_of t s (new_changes o n)
  = if (ChangeType_eqb new t && obj_has s n && negb (obj_has s o))%bool then 1%nat else 0%nat.
Proof.
  induction n as [|[k v] r IH]; intros ND.
  - simpl. now rewrite andb_false_r.
  - inversion ND as [|? ? NI ND']; subst.
    change (new_changes o ((k, v) :: r))
      with ((if negb (obj_has k o)
             then [mkChange new k None (Some (marketValue v)) None (Some (shares v)) None]
             else []) ++ new_changes o r)%list.
    rewrite count_of_app, IH by exact ND'. rewrite obj_has_cons.
    destruct (String.eqb s k) eqn:E.
    + apply String.eqb_eq in E. subst k.
      assert (Hr : obj_has s r = false) by now apply obj_has_false.
      rewrite Hr. rewrite andb_false_r. simpl.
      destruct (obj_has s o); simpl.
      * now rewrite andb_false_r.
      * unfold count_of. simpl. rewrite String.eqb_refl.
        destruct t; reflexivity.
    + simpl. replace (count_of t s _) with 0%nat; [reflexivity|].
      symmetry. apply count_of_none. intros c Hc. right.
      destruct (obj_has k o); simpl in Hc; [tauto|].
      destruct Hc as [<-|[]]. simpl. apply String.eqb_neq in E. congruence.
Qed.

(** Per symbol, the "closed positions" loop pushes one change or none. *)
Lemma count_closed_changes t s (o n : Obj Position) :
  NoDup (obj_keys o) ->
  count_of t s (closed_changes o n)
  = if (ChangeType_eqb closed t && obj_has s o && negb (obj_has s n))%bool then 1%nat else 0%nat.
Proof.
  unfold closed_changes. generalize n at 1 2 as n'. intros n'.
  induction o as [|[k v] r IH]; intros ND.
  - simpl. now rewrite andb_false_r.
  - inversion ND as [|? ? NI ND']; subst.
    cbn [flat_map].
    rewrite count_of_app, IH by exact ND'. rewrite obj_has_cons.
    destruct (String.eqb s k) eqn:E.
    + apply String.eqb_eq in E. subst k.
      assert (Hr : obj_has s r = false) by now apply obj_has_false.
      rewrite Hr. rewrite andb_false_r. simpl.
      destruct (obj_has s n'); simpl.
      * now rewrite andb_false_r.
      * unfold count_of. simpl. rewrite String.eqb_refl.
        destruct t; reflexivity.
    + simpl. replace (count_of t s _) with 0%nat; [reflexivity|].
      symmetry. apply count_of_none. intros c Hc. right.
      destruct (obj_has k n'); simpl in Hc; [tauto|].
      destruct Hc as [<-|[]]. simpl. apply String.eqb_neq in E. congruence.
Qed.

Lemma changed_for_symbol env (n : Obj Position) k v c :
  In c (changed_for env n k v) -> symbol c = k.
Proof.
  unfold changed_for. destruct (obj_get k n) as [pn|]; [|intros []].
  rewrite in_app_iff. intros [H|H].
  - destruct (neqb _ _ && gtb _ _)%bool; [|destruct H].
    destruct (isSignificantChange _ _); [|destruct H].
    destruct H as [<-|[]]. reflexivity.
  - destruct (neqb _ _); [|destruct H]. destruct H as [<-|[]]. reflexivity.
Qed.

Lemma changed_for_type env (n : Obj Position) k v c :
  In c (changed_for env n k v) -> type c = value_change \/ type c = share_change.
Proof.
  unfold changed_for. destruct (obj_get k n) as [pn|]; [|intros []].
  rewrite in_app_iff. intros [H|H].
  - destruct (neqb _ _ && gtb _ _)%bool; [|destruct H].
    destruct (isSignificantChange _ _); [|destruct H].
    destruct H as [<-|[]]. now left.
  - destruct (neqb _ _); [|destruct H]. destruct H as [<-|[]]. now right.
Qed.

(** Per symbol, the "changed positions" loop contributes what its body
    pushes for the old position of that symbol. *)
Lemma count_changed_changes env t s (o n : Obj Position) :
  NoDup (obj_keys o) ->
  count_of t s (changed_changes env o n)
  = match obj_get s o with
    | Some po => count_of t s (changed_for env n s po)
    | None => 0%nat
    end.
Proof.
  unfold changed_changes.
  induction o as [|[k v] r IH]; intros ND; [reflexivity|].
  inversion ND as [|? ? NI ND']; subst.
  cbn [flat_map fst snd]. rewrite count_of_app, IH by exact ND'.
  cbn [obj_get]. destruct (String.eqb s k) eqn:E.
  - apply String.eqb_eq in E. subst k.
    assert (Hr : obj_has s r = false) by now apply obj_has_false.
    unfold obj_has in Hr. destruct (obj_get s r); [discriminate|]. lia.
  - replace (count_of t s (changed_for env n k v)) with 0%nat; [reflexivity|].
    symmetry. apply count_of_none. intros c Hc. right.
    rewrite (changed_for_symbol _ _ _ _ _ Hc). apply String.eqb_neq in E. congruence.
Qed.

Lemma count_changed_other env t s (o n : Obj Position) :
  t = new \/ t = closed -> count_of t s (changed_changes env o n) = 0%nat.
Proof.
  intros Ht. apply count_of_none. intros c Hc. left.
  unfold changed_changes in Hc. apply in_flat_map in Hc as [[k v] [_ Hc]].
  apply changed_for_type in Hc. destruct Ht, Hc; congruence.
Qed.

End DifferFacts.

Section DifferClaims.
Import JS Differ Samples.

(** C5. For every pair of snapshots and every symbol, the diff holds
    exactly one [new] (opened) change when the symbol is in the new
    symbol map and not in the old one, and none otherwise; exactly one
    [closed] change when it is in the old map and not in the new one, and
    none otherwise; and no symbol has both an opened and a closed change. *)
Theorem C5_opened_closed_exactly_once
        (env : Thresholds) (oldData newData : PortfolioData) (s : string) :
  let o := flatten (positions oldData) in
  let n := flatten (positions newData) in
  let changes := detectChanges env oldData newData in
  count_of new s changes = (if (obj_has s n && negb (obj_has s o))%bool then 1 else 0)%nat
  /\ count_of closed s changes = (if (obj_has s o && negb (obj_has s n))%bool then 1 else 0)%nat
  /\ ~ (count_of new s changes <> 0 /\ count_of closed s changes <> 0)%nat.
Proof.
  intros o n changes.
  assert (Hn : count_of new s changes
               = (if (obj_has s n && negb (obj_has s o))%bool then 1 else 0)%nat).
  { unfold changes, detectChanges. fold o n. rewrite !count_of_app.
    rewrite count_new_changes by apply flatten_NoDup.
    rewrite count_closed_changes by apply flatten_NoDup.
    rewrite count_changed_other by now left.
    simpl. lia. }
  assert (Hc : count_of closed s changes
               = (if (obj_has s o && negb (obj_has s n))%bool then 1 else 0)%nat).
  { unfold changes, detectChanges. fold o n. rewrite !count_of_app.
    rewrite count_new_changes by apply flatten_NoDup.
    rewrite count_closed_changes by apply flatten_NoDup.
    rewrite count_changed_other by now right.
    simpl. lia. }
  split; [exact Hn|]. split; [exact Hc|].
  rewrite Hn, Hc. destruct (obj_has s n), (obj_has s o); simpl; lia.
Qed.

(** The share change of a symbol held in both snapshots is in the diff. *)
Lemma share_change_emitted (env : Thresholds) (oldData newData : PortfolioData)
      (s : string) (po pn : Position) :
  obj_get s (flatten (positions oldData)) = Some po ->
  obj_get s (flatten (positions newData)) = Some pn ->
  ~ shares po == shares pn ->
  In (share_candidate s (shares po) (shares pn) (marketValue po) (marketValue pn))
     (detectChanges env oldData newData).
Proof.
  intros Ho Hn Hd. unfold detectChanges.
  rewrite !in_app_iff. right. right.
  unfold changed_changes. apply in_flat_map. exists (s, po). split.
  - now apply obj_get_In.
  - cbn [fst snd]. unfold changed_for. rewrite Hn. rewrite in_app_iff. right.
    apply neqb_spec in Hd. rewrite Hd. now left.
Qed.

(** It is the only share change of that symbol. *)
Lemma share_change_counted (env : Thresholds) (oldData newData : PortfolioData)
      (s : string) (po pn : Position) :
  obj_get s (flatten (positions oldData)) = Some po ->
  obj_get s (flatten (positions newData)) = Some pn ->
  ~ shares po == shares pn ->
  count_of share_change s (detectChanges env oldData newData) = 1%nat.
Proof.
  intros Ho Hn Hd. unfold detectChanges. rewrite !count_of_app.
  rewrite count_new_changes, count_closed_changes by apply flatten_NoDup.
  rewrite count_changed_changes by apply flatten_NoDup.
  rewrite Ho. unfold changed_for. rewrite Hn.
  apply neqb_spec in Hd. rewrite Hd. rewrite count_of_app.
  cbn [ChangeType_eqb andb Nat.add].
  match goal with
  | |- (count_of share_change s ?v + _)%nat = _ =>
      assert (Hv : count_of share_change s v = 0%nat)
  end.
  { apply count_of_none. intros c Hc. left.
    destruct (neqb _ _ && gtb _ _)%bool; [|destruct Hc].
    destruct (isSignificantChange _ _); [|destruct Hc].
    destruct Hc as [<-|[]]. discriminate. }
  rewrite Hv. unfold count_of. cbn. now rewrite String.eqb_refl.
Qed.

(** How the filter treats a share change whose two values are non-zero. *)
Lemma share_change_significance (env : Thresholds) (s : string) (oldS newS oldV newV : Q) :
  ~ oldV == 0 -> ~ newV == 0 ->
  (isSignificantChange env (share_candidate s oldS newS oldV newV) = true
   <-> valueThreshold env <= Qabs (newV - oldV)).
Proof.
  intros Ho Hn. unfold isSignificantChange, share_candidate. cbn.
  apply truthy_num_spec in Ho, Hn. rewrite Ho, Hn. cbn.
  apply geb_spec.
Qed.

(** C1 (as amended). For every symbol held in both snapshots whose
    quantity differs, the differ emits a share change, whatever the size
    of the quantity or value delta; the significance filter then keeps
    that share change, when both market values are non-zero, exactly when
    the absolute value delta reaches the currency threshold. *)
Theorem C1_share_change_emitted_then_filtered_by_value
        (env : Thresholds) (oldData newData : PortfolioData)
        (s : string) (po pn : Position) :
  obj_get s (flatten (positions oldData)) = Some po ->
  obj_get s (flatten (positions newData)) = Some pn ->
  ~ shares po == shares pn ->
  let c := share_candidate s (shares po) (shares pn) (marketValue po) (marketValue pn) in
  In c (detectChanges env oldData newData)
  /\ count_of share_change s (detectChanges env oldData newData) = 1%nat
  /\ (~ marketValue po == 0 -> ~ marketValue pn == 0 ->
      (In c (significantChanges env (detectChanges env oldData newData))
       <-> valueThreshold env <= Qabs (marketValue pn - marketValue po))).
Proof.
  intros Ho Hn Hd c.
  assert (Hin : In c (detectChanges env oldData newData))
    by now apply share_change_emitted.
  split; [exact Hin|]. split; [now apply (share_change_counted env oldData newData s po pn)|].
  intros Zo Zn.
  unfold significantChanges. rewrite filter_In.
  rewrite <- (share_change_significance env s (shares po) (shares pn) _ _ Zo Zn).
  fold c. tauto.
Qed.

Lemma C1_share_change_emitted_then_filtered_by_value_witness :
  let o := snapshot [holding "AAPL" 10 1000] in
  let n := snapshot [holding "AAPL" 11 3000] in
  let c := share_candidate "AAPL" 10 11 1000 3000 in
  obj_get "AAPL" (flatten (positions o)) = Some (holding "AAPL" 10 1000)
  /\ obj_get "AAPL" (flatten (positions n)) = Some (holding "AAPL" 11 3000)
  /\ ~ 10 == 11
  /\ In c (detectChanges defaultThresholds o n)
  /\ (In c (significantChanges defaultThresholds (detectChanges defaultThresholds o n))
      <-> valueThreshold defaultThresholds <= Qabs (3000 - 1000)).
Proof.
  intros o n c.
  assert (Ho : obj_get "AAPL" (flatten (positions o)) = Some (holding "AAPL" 10 1000))
    by reflexivity.
  assert (Hn : obj_get "AAPL" (flatten (positions n)) = Some (holding "AAPL" 11 3000))
    by reflexivity.
  assert (Hd : ~ 10 == 11) by (cbv; discriminate).
  destruct (C1_share_change_emitted_then_filtered_by_value
              defaultThresholds o n "AAPL" _ _ Ho Hn Hd) as [H1 [_ H2]].
  repeat (split; [assumption|]).
  apply H2; cbv; discriminate.
Defined.

(** C1 (as stated) fails: with the default thresholds, a holding that
    goes from 10 to 11 shares while its value goes from 1000 to 1010 gets
    a share change, which the significance filter rejects. *)
Lemma C1_counterexample :
  let o := snapshot [holding "AAPL" 10 1000] in
  let n := snapshot [holding "AAPL" 11 1010] in
  detectChanges defaultThresholds o n = [share_candidate "AAPL" 10 11 1000 1010]
  /\ isSignificantChange defaultThresholds (share_candidate "AAPL" 10 11 1000 1010) = false
  /\ significantChanges defaultThresholds (detectChanges defaultThresholds o n) = [].
Proof. cbv zeta. repeat split; vm_compute; reflexivity. Qed.

End DifferClaims.

Section ValueChangeClaims.
Import JS Differ Samples.

(** The percent delta of a value change is never zero. *)
Lemma percent_delta_nonzero (oldV newV : Q) :
  0 < oldV -> ~ oldV == newV -> ~ ((newV - oldV) / oldV) * 100 == 0.
Proof.
  intros Hpos Hne E.
  assert (Ho : ~ oldV == 0) by (intros Z; rewrite Z in Hpos; now apply Qlt_irrefl in Hpos).
  apply Qmult_integral in E as [E|E]; [|discriminate E].
  unfold Qdiv in E. apply Qmult_integral in E as [E|E].
  - apply Hne. lra.
  - apply (Qmult_inv_r oldV) in Ho. rewrite E, Qmult_0_r in Ho. discriminate Ho.
Qed.

(** What the filter computes on the value change the differ builds: the
    percent test, or the absolute test when the new value is not zero. *)
Lemma value_change_significance (env : Thresholds) (s : string) (oldV newV : Q) :
  0 < oldV -> ~ oldV == newV ->
  (isSignificantChange env (value_candidate s oldV newV) = true
   <-> percentThreshold env <= Qabs (((newV - oldV) / oldV) * 100)
       \/ (~ newV == 0 /\ valueThreshold env <= Qabs (newV - oldV))).
Proof.
  intros Hpos Hne.
  assert (Ho : truthy_num oldV = true).
  { apply truthy_num_spec. intros Z. rewrite Z in Hpos. now apply Qlt_irrefl in Hpos. }
  pose proof (percent_delta_nonzero oldV newV Hpos Hne) as Hpc.
  apply truthy_num_spec in Hpc.
  unfold isSignificantChange, value_candidate.
  cbn [type percentChange oldValue newValue truthy_onum].
  rewrite Hpc, Ho. cbn [andb].
  destruct (geb (Qabs ((newV - oldV) / oldV * 100)) (percentThreshold env)) eqn:Ep.
  - apply geb_spec in Ep. split; [intros _; now left | reflexivity].
  - assert (Np : ~ percentThreshold env <= Qabs ((newV - oldV) / oldV * 100)).
    { intros L. apply geb_spec in L. congruence. }
    destruct (truthy_num newV) eqn:En.
    + apply truthy_num_spec in En. rewrite geb_spec. tauto.
    + split; [discriminate|]. intros [L|[Nz _]]; [tauto|].
      apply truthy_num_spec in Nz. congruence.
Qed.

(** C3, at the failing input. Percent threshold 150, currency threshold
    1000; a symbol held in both snapshots goes from a value of 5000 to a
    value of 0. The value delta is 5000, above the currency threshold,
    yet the candidate value change is classified not significant and the
    diff is empty. *)
Theorem C3_value_change_to_zero_not_significant :
  let env := mkThresholds 150 1000 in
  let o := snapshot [holding "ACME" 10 5000] in
  let n := snapshot [holding "ACME" 10 0] in
  valueThreshold env <= Qabs (0 - 5000)
  /\ isSignificantChange env (value_candidate "ACME" 5000 0) = false
  /\ detectChanges env o n = [].
Proof.
  cbv zeta. split; [|split].
  - apply Qle_bool_iff. vm_compute. reflexivity.
  - vm_compute. reflexivity.
  - vm_compute. reflexivity.
Qed.

(** C4 (as amended). For every symbol held in both snapshots whose old
    market value is zero, the differ emits no value change: neither the
    percent test nor the absolute test is applied to it. A differing
    quantity is still reported, as one share change. *)
Theorem C4_zero_old_value_emits_no_value_change
        (env : Thresholds) (oldData newData : PortfolioData)
        (s : string) (po pn : Position) :
  obj_get s (flatten (positions oldData)) = Some po ->
  obj_get s (flatten (positions newData)) = Some pn ->
  marketValue po == 0 ->
  count_of value_change s (detectChanges env oldData newData) = 0%nat
  /\ count_of share_change s (detectChanges env oldData newData)
     = (if neqb (shares po) (shares pn) then 1 else 0)%nat.
Proof.
  intros Ho Hn Hz.
  assert (Hg : gtb (marketValue po) 0 = false).
  { destruct (gtb (marketValue po) 0) eqn:E; [|reflexivity].
    apply gtb_spec in E. rewrite Hz in E. now apply Qlt_irrefl in E. }
  unfold detectChanges. rewrite !count_of_app.
  rewrite !count_new_changes, !count_closed_changes by apply flatten_NoDup.
  rewrite !count_changed_changes by apply flatten_NoDup.
  rewrite Ho. unfold changed_for. rewrite Hn, Hg, andb_false_r.
  cbn [ChangeType_eqb andb app].
  destruct (neqb (shares po) (shares pn)); unfold count_of; cbn.
  - rewrite String.eqb_refl. split; reflexivity.
  - split; reflexivity.
Qed.

Lemma C4_zero_old_value_emits_no_value_change_witness :
  let o := snapshot [holding "ACME" 10 0] in
  let n := snapshot [holding "ACME" 12 5000] in
  obj_get "ACME" (flatten (positions o)) = Some (holding "ACME" 10 0)
  /\ obj_get "ACME" (flatten (positions n)) = Some (holding "ACME" 12 5000)
  /\ marketValue (holding "ACME" 10 0) == 0
  /\ count_of value_change "ACME" (detectChanges defaultThresholds o n) = 0%nat
  /\ count_of share_change "ACME" (detectChanges defaultThresholds o n) = 1%nat.
Proof.
  intros o n.
  assert (H1 : obj_get "ACME" (flatten (positions o)) = Some (holding "ACME" 10 0))
    by reflexivity.
  assert (H2 : obj_get "ACME" (flatten (positions n)) = Some (holding "ACME" 12 5000))
    by reflexivity.
  assert (H3 : marketValue (holding "ACME" 10 0) == 0) by reflexivity.
  split; [exact H1|]. split; [exact H2|]. split; [exact H3|].
  exact (C4_zero_old_value_emits_no_value_change defaultThresholds o n "ACME" _ _ H1 H2 H3).
Defined.

(** C4 (as stated) fails: the old value is 0, the new value 5000, so the
    value delta is above the default currency threshold of 1000, and the
    diff holds no change for the symbol. *)
Lemma C4_counterexample :
  let o := snapshot [holding "ACME" 10 0] in
  let n := snapshot [holding "ACME" 10 5000] in
  obj_has "ACME" (flatten (positions o)) = true
  /\ obj_has "ACME" (flatten (positions n)) = true
  /\ valueThreshold defaultThresholds <= Qabs (5000 - 0)
  /\ detectChanges defaultThresholds o n = [].
Proof.
  cbv zeta. repeat split; try (vm_compute; reflexivity).
  apply Qle_bool_iff. vm_compute. reflexivity.
Qed.

End ValueChangeClaims.

(** ** Normaliser *)

Section NormalizerFacts.
Import JS Normalizer.

Lemma obj_has_set {V} (o : Obj V) (k k' : string) (v : V) :
  obj_has k (obj_set k' v o) = (String.eqb k k' || obj_has k o)%bool.
Proof.
  unfold obj_has. destruct (String.eqb k k') eqn:E.
  - apply String.eqb_eq in E. subst. now rewrite obj_get_set_eq.
  - apply String.eqb_neq in E. rewrite obj_get_set_neq by congruence. reflexivity.
Qed.

Lemma set_has_add (x y : Z) (s : list Z) :
  set_has x (set_add y s) = (Z.eqb x y || set_has x s)%bool.
Proof.
  unfold set_add. destruct (set_has y s) eqn:E.
  - destruct (Z.eqb x y) eqn:Exy; [|reflexivity].
    apply Z.eqb_eq in Exy. subst. now rewrite E.
  - unfold set_has. rewrite existsb_app. simpl.
    now rewrite orb_false_r, orb_comm.
Qed.

(** *** Account deduplication *)

Lemma dedup_snoc (l : list Account) (a : Account) :
  dedupAccounts (l ++ [a]) = dedup_step (dedupAccounts l) a.
Proof. unfold dedupAccounts. now rewrite fold_left_app. Qed.

(** The keys seen after a run of the loop are the keys of the accounts
    walked. *)
Lemma seen_after (l : list Account) (st : DedupState) (k : string) :
  obj_has k (seenAccounts (fold_left dedup_step l st))
  = (obj_has k (seenAccounts st)
     || existsb (fun b => String.eqb k (accountKey b)) l)%bool.
Proof.
  revert st. induction l as [|a l IH]; intros st; simpl.
  - now rewrite orb_false_r.
  - rewrite IH. unfold dedup_step.
    destruct (obj_has (accountKey a) (seenAccounts st)) eqn:E; simpl.
    + destruct (String.eqb k (accountKey a)) eqn:Ek; simpl; [|reflexivity].
      apply String.eqb_eq in Ek. subst. now rewrite E.
    + rewrite obj_has_set. now rewrite orb_assoc, (orb_comm (String.eqb _ _)).
Qed.

Lemma seen_dedup (l : list Account) (k : string) :
  obj_has k (seenAccounts (dedupAccounts l))
  = existsb (fun b => String.eqb k (accountKey b)) l.
Proof. unfold dedupAccounts. now rewrite seen_after. Qed.

(** First match wins: an account joins the unique accounts exactly when no
    account before it has its key. *)
Lemma unique_snoc (l : list Account) (a : Account) :
  uniqueAccounts (dedupAccounts (l ++ [a]))
  = (uniqueAccounts (dedupAccounts l)
     ++ (if existsb (fun b => String.eqb (accountKey a) (accountKey b)) l
         then [] else [a]))%list.
Proof.
  rewrite dedup_snoc. unfold dedup_step. rewrite seen_dedup.
  destruct (existsb _ l); simpl; [now rewrite app_nil_r | reflexivity].
Qed.

(** The tracked ids are the ids of the unique accounts. *)
Lemma ids_after (l : list Account) (st : DedupState) :
  (forall x, set_has x (uniqueAccountIds st)
             = existsb (fun b => Z.eqb x (id b)) (uniqueAccounts st)) ->
  forall x, set_has x (uniqueAccountIds (fold_left dedup_step l st))
            = existsb (fun b => Z.eqb x (id b)) (uniqueAccounts (fold_left dedup_step l st)).
Proof.
  revert st. induction l as [|a l IH]; intros st H x; simpl; [apply H|].
  apply IH. intros y. unfold dedup_step.
  destruct (obj_has (accountKey a) (seenAccounts st)); simpl; [apply H|].
  rewrite set_has_add, existsb_app, H. simpl.
  now rewrite orb_false_r, orb_comm.
Qed.

Lemma ids_dedup (l : list Account) (x : Z) :
  set_has x (uniqueAccountIds (dedupAccounts l))
  = existsb (fun b => Z.eqb x (id b)) (uniqueAccounts (dedupAccounts l)).
Proof. unfold dedupAccounts. apply ids_after. reflexivity. Qed.

Lemma ids_dedup_false (l : list Account) (x : Z) :
  ~ In x (map id (uniqueAccounts (dedupAccounts l))) ->
  set_has x (uniqueAccountIds (dedupAccounts l)) = false.
Proof.
  intros NI. rewrite ids_dedup.
  destruct (existsb _ _) eqn:E; [|reflexivity].
  apply existsb_exists in E as [b [Hb Eb]]. apply Z.eqb_eq in Eb. subst.
  exfalso. apply NI. now apply in_map.
Qed.

(** *** Row filter *)

Lemma allInvestments_In (ids : list Z) (invs : list PowensInvestment) (p : Position) :
  In p (allInvestments ids invs) <->
  exists inv, In inv invs /\ set_has (id_account inv) ids = true
              /\ eligible inv = true /\ p = toPosition inv.
Proof.
  unfold allInvestments. rewrite in_flat_map. split.
  - intros [inv [Hin Hp]]. exists inv.
    destruct (set_has (id_account inv) ids); simpl in Hp; [|destruct Hp].
    destruct (eligible inv); simpl in Hp; [|destruct Hp].
    destruct Hp as [<-|[]]. auto.
  - intros [inv [Hin [Hs [He ->]]]]. exists inv. rewrite Hs, He. simpl. auto.
Qed.

(** Rows that the loop skips can be removed from its input. *)
Lemma allInvestments_filter (ids : list Z) (f : PowensInvestment -> bool)
      (invs : list PowensInvestment) :
  (forall inv, set_has (id_account inv) ids = true -> eligible inv = true -> f inv = true) ->
  allInvestments ids (filter f invs) = allInvestments ids invs.
Proof.
  intros Hf. unfold allInvestments. induction invs as [|inv invs IH]; [reflexivity|].
  simpl. destruct (f inv) eqn:E; simpl.
  - now rewrite IH.
  - rewrite IH.
    destruct (set_has (id_account inv) ids) eqn:Es; simpl; [|reflexivity].
    destruct (eligible inv) eqn:Ee; simpl; [|reflexivity].
    rewrite (Hf inv Es Ee) in E. discriminate.
Qed.

Lemma eligible_spec (inv : PowensInvestment) :
  eligible inv = true <->
  code_type inv = "ISIN" /\ code inv <> "XX-liquidity" /\ 0 < valuation inv.
Proof.
  unfold eligible. rewrite !andb_true_iff, negb_true_iff, String.eqb_eq, String.eqb_neq.
  rewrite gtb_spec. tauto.
Qed.

(** *** Exact duplicates *)

Lemma unique_fold_incl (all : list Position) (st : list Position * list Signature) (p : Position) :
  In p (fst (fold_left unique_step all st)) -> In p (fst st) \/ In p all.
Proof.
  revert st. induction all as [|x all IH]; intros st H; simpl in *; [now left|].
  apply IH in H as [H|H]; [|now right; right].
  unfold unique_step in H. destruct st as [u seen].
  destruct (seen_has (signature x) seen); simpl in H; [now left|].
  apply in_app_iff in H as [H|[H|[]]]; [now left | right; now left].
Qed.

Lemma uniqueInvestments_incl (all : list Position) (p : Position) :
  In p (uniqueInvestments all) -> In p all.
Proof.
  intros H. apply unique_fold_incl in H as [[]|H]. exact H.
Qed.

End NormalizerFacts.

Section ConsolidationFacts.
Import JS Normalizer.

Lemma sum_from (l : list Q) (a : Q) : fold_left Qplus l a == a + sum l.
Proof.
  unfold sum. revert a. induction l as [|x l IH]; intros a; simpl.
  - ring.
  - rewrite IH. rewrite (IH (0 + x)). ring.
Qed.

Lemma sum_cons (x : Q) (l : list Q) : sum (x :: l) == x + sum l.
Proof. unfold sum at 1. simpl. rewrite sum_from. ring. Qed.

Lemma total_cons (f : Position -> Q) (r : Position) (rows : list Position) :
  total f (r :: rows) == f r + total f rows.
Proof. unfold total. simpl. apply sum_cons. Qed.

(** The consolidated entry of a symbol is the left-to-right merge of the
    rows of that symbol. *)
Lemma consolidated_get (rows : list Position) (m : Obj Position) (s : string) :
  obj_get s (fold_left consolidate_step rows m)
  = fold_left (fun acc r => Some (match acc with Some e => merge e r | None => r end))
              (rows_of s rows) (obj_get s m).
Proof.
  revert m. induction rows as [|r rows IH]; intros m; [reflexivity|].
  cbn [fold_left rows_of filter]. rewrite IH. fold (rows_of s rows).
  unfold consolidate_step.
  destruct (String.eqb (p_symbol r) s) eqn:E.
  - apply String.eqb_eq in E. subst s. cbn [fold_left].
    destruct (obj_get (p_symbol r) m); now rewrite obj_get_set_eq.
  - apply String.eqb_neq in E.
    destruct (obj_get (p_symbol r) m); now rewrite obj_get_set_neq.
Qed.

Lemma merge_chain (l : list Position) (e : Position) :
  fold_left (fun acc r => Some (match acc with Some e => merge e r | None => r end))
            l (Some e)
  = Some (fold_left merge l e).
Proof. revert e. induction l as [|r l IH]; intros e; simpl; [reflexivity | apply IH]. Qed.

Lemma merge_fold_shares (l : list Position) (e : Position) :
  shares (fold_left merge l e) == shares e + total shares l.
Proof.
  revert e. induction l as [|r l IH]; intros e; simpl.
  - unfold total, sum. simpl. ring.
  - rewrite IH, total_cons. simpl. ring.
Qed.

Lemma merge_fold_marketValue (l : list Position) (e : Position) :
  marketValue (fold_left merge l e) == marketValue e + total marketValue l.
Proof.
  revert e. induction l as [|r l IH]; intros e; simpl.
  - unfold total, sum. simpl. ring.
  - rewrite IH, total_cons. simpl. ring.
Qed.

Lemma merge_fold_costBasis (l : list Position) (e : Position) :
  costBasis (fold_left merge l e) == costBasis e + total costBasis l.
Proof.
  revert e. induction l as [|r l IH]; intros e; simpl.
  - unfold total, sum. simpl. ring.
  - rewrite IH, total_cons. simpl. ring.
Qed.

(** After at least one merge, the unit price is the guarded ratio of the
    entry's own market value and quantity. *)
Lemma merge_fold_price (l : list Position) (e r : Position) :
  let p := fold_left merge (r :: l) e in
  currentPrice p = if gtb (shares p) 0 then marketValue p / shares p else 0.
Proof.
  revert e r. induction l as [|r' l IH]; intros e r; [reflexivity|].
  exact (IH (merge e r) r').
Qed.

(** *** Categorisation keeps every consolidated position *)

Lemma push_In (c : Category) (x p : Position) (cats : PortfolioPositions) :
  In p (all_positions (push c x cats)) <-> In p (all_positions cats) \/ p = x.
Proof.
  unfold all_positions.
  destruct c; simpl; rewrite !in_app_iff; simpl; rewrite ?in_app_iff; simpl;
    intuition congruence.
Qed.

Lemma categorize_fold_In (patterns : CategorizationPatterns) (l : list Position)
      (cats : PortfolioPositions) (p : Position) :
  In p (all_positions
          (fold_left (fun cats inv => push (classify patterns inv) inv cats) l cats))
  <-> In p (all_positions cats) \/ In p l.
Proof.
  revert cats. induction l as [|x l IH]; intros cats; simpl; [tauto|].
  rewrite IH, push_In. intuition congruence.
Qed.

Lemma categorize_In (patterns : CategorizationPatterns) (m : Obj Position) (p : Position) :
  In p (all_positions (categorize patterns m)) <-> In p (obj_values m).
Proof.
  unfold categorize. rewrite categorize_fold_In. simpl. tauto.
Qed.

Lemma obj_get_value {V} (o : Obj V) (k : string) (v : V) :
  obj_get k o = Some v -> In v (obj_values o).
Proof.
  intros H. apply obj_get_In in H. unfold obj_values.
  change v with (snd (k, v)). now apply in_map.
Qed.

(** Every consolidated entry sits under its own symbol, and a surviving
    row has that symbol. *)
Lemma consolidated_origin (rows : list Position) (m : Obj Position) :
  (forall k v, In (k, v) m -> p_symbol v = k) ->
  forall k v, In (k, v) (fold_left consolidate_step rows m) ->
    p_symbol v = k /\ (In (k, v) m \/ exists r, In r rows /\ p_symbol r = k).
Proof.
  revert m. induction rows as [|r rows IH]; intros m Hm k v H; simpl in H.
  - split; [now apply Hm | now left].
  - assert (Hset : forall (e : Position) k' v',
              p_symbol e = p_symbol r ->
              In (k', v') (obj_set (p_symbol r) e m) ->
              In (k', v') m \/ (k' = p_symbol r /\ v' = e)).
    { intros e k' v' _. clear. induction m as [|[k0 v0] m IHm]; simpl.
      - intros [H|[]]. injection H as <- <-. now right.
      - destruct (String.eqb (p_symbol r) k0) eqn:E; simpl.
        + intros [H|H]; [injection H as <- <-; now right | left; now right].
        + intros [H|H]; [left; now left|].
          apply IHm in H as [H|H]; [left; now right | now right]. }
    apply IH in H.
    + destruct H as [Hk [H|[r' [Hr' Hs]]]].
      * split; [exact Hk|]. unfold consolidate_step in H.
        destruct (obj_get (p_symbol r) m) as [e|] eqn:Eg.
        -- apply (Hset (merge e r)) in H; [|reflexivity || idtac].
           ++ destruct H as [H|[-> _]]; [now left|]. right. exists r. split; [now left | reflexivity].
           ++ simpl. apply obj_get_In in Eg. now apply Hm in Eg.
        -- apply (Hset r) in H; [|reflexivity].
           destruct H as [H|[-> _]]; [now left|]. right. exists r. split; [now left | reflexivity].
      * split; [exact Hk|]. right. exists r'. split; [now right | exact Hs].
    + intros k' v' H'. unfold consolidate_step in H'.
      destruct (obj_get (p_symbol r) m) as [e|] eqn:Eg.
      * apply obj_get_In in Eg. apply Hm in Eg.
        apply (Hset (merge e r)) in H'; [|exact Eg].
        destruct H' as [H'|[-> ->]]; [now apply Hm | exact Eg].
      * apply (Hset r) in H'; [|reflexivity].
        destruct H' as [H'|[-> ->]]; [now apply Hm | reflexivity].
Qed.

End ConsolidationFacts.

Section NormalizerClaims.
Import JS Normalizer Samples.

(** C2 (as amended). When two or more surviving rows share a symbol, the
    snapshot holds for that symbol a position whose quantity, market value
    and cost basis are the sums over those rows, and whose unit price is
    the total market value divided by the total quantity when the total
    quantity is positive, and zero otherwise. *)
Theorem C2_consolidation_sums_and_guarded_ratio
        (timestamp : string) (patterns : CategorizationPatterns)
        (accountsData : list Account) (investmentsData : PowensInvestmentData)
        (s : string) (r1 r2 : Position) (rest : list Position) :
  rows_of s (surviving accountsData investmentsData) = r1 :: r2 :: rest ->
  exists p,
    obj_get s (consolidatedOf accountsData investmentsData) = Some p
    /\ In p (all_positions
               (positions (transformToInternalFormat timestamp patterns
                                                     accountsData investmentsData)))
    /\ shares p == total shares (r1 :: r2 :: rest)
    /\ marketValue p == total marketValue (r1 :: r2 :: rest)
    /\ costBasis p == total costBasis (r1 :: r2 :: rest)
    /\ (0 < total shares (r1 :: r2 :: rest) ->
        currentPrice p
        == total marketValue (r1 :: r2 :: rest) / total shares (r1 :: r2 :: rest))
    /\ (total shares (r1 :: r2 :: rest) <= 0 -> currentPrice p == 0).
Proof.
  intros Hrows.
  exists (fold_left merge (r2 :: rest) r1).
  assert (Hget : obj_get s (consolidatedOf accountsData investmentsData)
                 = Some (fold_left merge (r2 :: rest) r1)).
  { unfold consolidatedOf, consolidatedPositions.
    rewrite consolidated_get, Hrows. cbn [obj_get fold_left].
    exact (merge_chain rest (merge r1 r2)). }
  assert (Hs : shares (fold_left merge (r2 :: rest) r1) == total shares (r1 :: r2 :: rest))
    by (rewrite merge_fold_shares, (total_cons shares r1); reflexivity).
  assert (Hv : marketValue (fold_left merge (r2 :: rest) r1)
               == total marketValue (r1 :: r2 :: rest))
    by (rewrite merge_fold_marketValue, (total_cons marketValue r1); reflexivity).
  assert (Hc : costBasis (fold_left merge (r2 :: rest) r1)
               == total costBasis (r1 :: r2 :: rest))
    by (rewrite merge_fold_costBasis, (total_cons costBasis r1); reflexivity).
  split; [exact Hget|]. split.
  { unfold transformToInternalFormat. cbn [positions].
    apply categorize_In. now apply (obj_get_value _ s). }
  split; [exact Hs|]. split; [exact Hv|]. split; [exact Hc|].
  pose proof (merge_fold_price rest r1 r2) as Hp. cbv zeta in Hp.
  split.
  - intros Hpos. rewrite Hp.
    assert (G : gtb (shares (fold_left merge (r2 :: rest) r1)) 0 = true)
      by (apply gtb_spec; rewrite Hs; exact Hpos).
    rewrite G. now rewrite Hs, Hv.
  - intros Hle. rewrite Hp.
    destruct (gtb (shares (fold_left merge (r2 :: rest) r1)) 0) eqn:G; [|reflexivity].
    apply gtb_spec in G. rewrite Hs in G. exfalso. exact (Qlt_not_le _ _ G Hle).
Qed.

(** Scenario C: rows of 5 and 3 units worth 500 and 300 give 8 units
    worth 800 at a unit price of 100. *)
Lemma C2_consolidation_sums_and_guarded_ratio_witness :
  let accs := [bank_account 1 "FR01"; bank_account 2 "FR02"] in
  let data := mkInvestmentData [row "VTI" 5 500 100 1; row "VTI" 3 300 100 2] 800 in
  rows_of "VTI" (surviving accs data)
  = [Normalizer.toPosition (row "VTI" 5 500 100 1);
     Normalizer.toPosition (row "VTI" 3 300 100 2)]
  /\ exists p,
      obj_get "VTI" (consolidatedOf accs data) = Some p
      /\ shares p == 8 /\ marketValue p == 800 /\ currentPrice p == 100.
Proof.
  intros accs data.
  assert (H : rows_of "VTI" (surviving accs data)
              = [Normalizer.toPosition (row "VTI" 5 500 100 1);
                 Normalizer.toPosition (row "VTI" 3 300 100 2)]) by reflexivity.
  split; [exact H|].
  destruct (C2_consolidation_sums_and_guarded_ratio
              "2024-01-02T00:00:00.000Z" fallbackPatterns accs data "VTI" _ _ _ H)
    as [p [Hg [_ [Hs [Hv [_ [Hp _]]]]]]].
  exists p. split; [exact Hg|]. split; [|split].
  - rewrite Hs. reflexivity.
  - rewrite Hv. reflexivity.
  - rewrite Hp; reflexivity.
Defined.

(** C2 (as stated) fails. Two rows of one symbol that carry no quantity
    and are worth 500 and 300 consolidate into a position worth 800 with
    quantity 0 and unit price 0, which is not a quotient of 800 by 0; two
    rows with quantities 2 and -5 consolidate into quantity -3 and unit
    price 0, not 800 / -3. *)
Lemma C2_counterexample :
  let accs := [bank_account 1 "FR01"; bank_account 2 "FR02"] in
  let zero := mkInvestmentData [row "VTI" 0 500 0 1; row "VTI" 0 300 0 2] 800 in
  let short := mkInvestmentData [row "VTI" 2 500 250 1; row "VTI" (-5) 300 60 2] 800 in
  (exists p,
      equities (positions (transformToInternalFormat "t" fallbackPatterns accs zero)) = [p]
      /\ shares p == 0 /\ marketValue p == 800 /\ currentPrice p == 0
      /\ ~ currentPrice p * shares p == marketValue p)
  /\ (exists p,
      equities (positions (transformToInternalFormat "t" fallbackPatterns accs short)) = [p]
      /\ shares p == -3 /\ marketValue p == 800 /\ currentPrice p == 0
      /\ ~ currentPrice p == marketValue p / shares p).
Proof.
  cbv zeta. split; eexists; (split; [vm_compute; reflexivity|]);
    repeat split; try reflexivity; intros H; vm_compute in H; discriminate H.
Qed.

(** The snapshot does not depend on rows the row loop skips. *)
Lemma transform_filter (timestamp : string) (patterns : CategorizationPatterns)
      (accountsData : list Account) (investmentsData : PowensInvestmentData)
      (f : PowensInvestment -> bool) :
  (forall inv, set_has (id_account inv) (uniqueAccountIds (dedupAccounts accountsData)) = true ->
               eligible inv = true -> f inv = true) ->
  transformToInternalFormat timestamp patterns accountsData
    (mkInvestmentData (filter f (investments investmentsData))
                      (total_valuation investmentsData))
  = transformToInternalFormat timestamp patterns accountsData investmentsData.
Proof.
  intros Hf. unfold transformToInternalFormat, consolidatedOf, surviving.
  cbn [investments]. now rewrite allInvestments_filter.
Qed.

(** C10. Every position of a snapshot the normaliser produces has the
    symbol of a raw row of a unique account whose code type is ISIN, whose
    code is not XX-liquidity and whose market value is positive; the
    snapshot is the one obtained from those rows alone, so a row worth 0
    and a row that is not ISIN leave no trace in it. *)
Theorem C10_positions_come_from_eligible_rows
        (timestamp : string) (patterns : CategorizationPatterns)
        (accountsData : list Account) (investmentsData : PowensInvestmentData) :
  let snapshot := transformToInternalFormat timestamp patterns accountsData investmentsData in
  (forall p, In p (all_positions (positions snapshot)) ->
     exists inv, In inv (investments investmentsData)
                 /\ code_type inv = "ISIN"
                 /\ code inv <> "XX-liquidity"
                 /\ 0 < valuation inv
                 /\ set_has (id_account inv)
                            (uniqueAccountIds (dedupAccounts accountsData)) = true
                 /\ p_symbol p = p_symbol (toPosition inv))
  /\ transformToInternalFormat timestamp patterns accountsData
       (mkInvestmentData (filter eligible (investments investmentsData))
                         (total_valuation investmentsData))
     = snapshot
  /\ (forall inv, valuation inv == 0 \/ code_type inv <> "ISIN" -> eligible inv = false).
Proof.
  cbv zeta. split; [|split].
  - intros p Hp. unfold transformToInternalFormat in Hp. cbn [positions] in Hp.
    apply categorize_In in Hp. unfold obj_values in Hp.
    apply in_map_iff in Hp as [[k v] [Hv Hin]]. cbn [snd] in Hv. subst v.
    unfold consolidatedOf, consolidatedPositions in Hin.
    apply consolidated_origin in Hin; [|intros ? ? []].
    destruct Hin as [Hk [[]|[r [Hr Hs]]]].
    apply uniqueInvestments_incl in Hr.
    apply allInvestments_In in Hr as [inv [Hin [Hid [He ->]]]].
    apply eligible_spec in He as [H1 [H2 H3]].
    exists inv. repeat split; try assumption. congruence.
  - apply transform_filter. auto.
  - intros inv H. destruct (eligible inv) eqn:E; [|reflexivity].
    apply eligible_spec in E as [H1 [_ H3]].
    destruct H as [H|H]; [|contradiction].
    rewrite H in H3. now apply Qlt_irrefl in H3.
Qed.

(** Scenario D: a row worth 0 next to a row worth 500. *)
Lemma C10_positions_come_from_eligible_rows_witness :
  let accs := [bank_account 1 "FR01"] in
  let data := mkInvestmentData [row "VTI" 5 0 100 1; row "IWDA" 5 500 100 1] 500 in
  map p_symbol
      (all_positions (positions (transformToInternalFormat "t" fallbackPatterns accs data)))
  = ["IWDA"]
  /\ transformToInternalFormat "t" fallbackPatterns accs
       (mkInvestmentData [row "IWDA" 5 500 100 1] 500)
     = transformToInternalFormat "t" fallbackPatterns accs data.
Proof.
  intros accs data. split; [reflexivity|].
  exact (proj1 (proj2 (C10_positions_come_from_eligible_rows "t" fallbackPatterns accs data))).
Defined.

(** C6. An account's key is its IBAN when it has one, else its number,
    else its webid, else its name and type joined by a dash; an account
    is kept exactly when no account before it in the input has its key;
    and the rows of an account that is not among the kept ones (its id is
    the id of no kept account) can be removed from the input without
    changing the snapshot, whose net worth sums the kept balances only. *)
Theorem C6_first_key_wins_and_rows_follow
        (timestamp : string) (patterns : CategorizationPatterns)
        (accountsData : list Account) (investmentsData : PowensInvestmentData) :
  (forall a,
      (truthy_ostr (iban a) = true -> accountKey a = tmpl (iban a))
      /\ (truthy_ostr (iban a) = false -> truthy_ostr (number a) = true ->
          accountKey a = tmpl (number a))
      /\ (truthy_ostr (iban a) = false -> truthy_ostr (number a) = false ->
          truthy_ostr (webid a) = true -> accountKey a = tmpl (webid a))
      /\ (truthy_ostr (iban a) = false -> truthy_ostr (number a) = false ->
          truthy_ostr (webid a) = false ->
          accountKey a = tmpl (original_name a) ++ "-"
                         ++ tmpl (or_ostr (id_type a) (a_type a))))
  /\ (forall l a,
        uniqueAccounts (dedupAccounts (l ++ [a]))
        = (uniqueAccounts (dedupAccounts l)
           ++ (if existsb (fun b => String.eqb (accountKey a) (accountKey b)) l
               then [] else [a]))%list)
  /\ (forall d,
        In d accountsData ->
        ~ In (id d) (map id (uniqueAccounts (dedupAccounts accountsData))) ->
        transformToInternalFormat timestamp patterns accountsData
          (mkInvestmentData
             (filter (fun r => negb (Z.eqb (id_account r) (id d)))
                     (investments investmentsData))
             (total_valuation investmentsData))
        = transformToInternalFormat timestamp patterns accountsData investmentsData)
  /\ totalNetWorth (transformToInternalFormat timestamp patterns accountsData investmentsData)
     == sum (map balance (uniqueAccounts (dedupAccounts accountsData))).
Proof.
  split; [|split; [|split]].
  - intros a. unfold accountKey, or_ostr.
    destruct (truthy_ostr (iban a)) eqn:E1; cbn [negb andb];
      [rewrite E1; cbn [negb];
       repeat split; intros; try discriminate; try reflexivity|].
    destruct (truthy_ostr (number a)) eqn:E2; cbn [orb];
      [rewrite E2; cbn [negb];
       repeat split; intros; try discriminate; try reflexivity|].
    destruct (truthy_ostr (webid a)) eqn:E3;
      [rewrite E3; cbn [negb] | rewrite E1; cbn [negb]];
      repeat split; intros; try discriminate; try reflexivity.
  - apply unique_snoc.
  - intros d _ Hd. apply transform_filter. intros inv Hs _.
    apply negb_true_iff. apply Z.eqb_neq. intros E.
    rewrite E, ids_dedup_false in Hs by exact Hd. discriminate.
  - unfold transformToInternalFormat. cbn [totalNetWorth].
    assert (G : forall (l : list Account) (acc : Q),
               fold_left (fun sum a => sum + balance a) l acc
               = fold_left Qplus (map balance l) acc).
    { induction l as [|a l IH]; intros acc; simpl; [reflexivity | apply IH]. }
    unfold sum. rewrite G. reflexivity.
Qed.

(** Two views of one account (same IBAN, ids 1 and 2): the second is
    dropped and its rows do not reach the snapshot. *)
Lemma C6_first_key_wins_and_rows_follow_witness :
  let accs := [bank_account 1 "FR01"; bank_account 2 "FR01"] in
  let data := mkInvestmentData [row "VTI" 5 500 100 1; row "VTI" 3 300 100 2] 800 in
  map id (uniqueAccounts (dedupAccounts accs)) = [1%Z]
  /\ transformToInternalFormat "t" fallbackPatterns accs
       (mkInvestmentData [row "VTI" 5 500 100 1] 800)
     = transformToInternalFormat "t" fallbackPatterns accs data
  /\ totalNetWorth (transformToInternalFormat "t" fallbackPatterns accs data) == 100.
Proof.
  intros accs data.
  destruct (C6_first_key_wins_and_rows_follow "t" fallbackPatterns accs data)
    as [_ [_ [H3 H4]]].
  split; [reflexivity|]. split.
  - apply (H3 (bank_account 2 "FR01")).
    + right. left. reflexivity.
    + cbv. intros [H|[]]. discriminate H.
  - rewrite H4. reflexivity.
Defined.

End NormalizerClaims.

(** ** Token discovery *)

Section DiscoveryFacts.
Import JS Crypto.

Lemma obj_set_In {V} (o : Obj V) (k k' : string) (v v' : V) :
  In (k', v') (obj_set k v o) -> In (k', v') o \/ (k' = k /\ v' = v).
Proof.
  induction o as [|[k0 v0] o IH]; simpl.
  - intros [H|[]]. injection H as <- <-. now right.
  - destruct (String.eqb k k0) eqn:E; simpl.
    + intros [H|H]; [injection H as <- <-; now right | left; now right].
    + intros [H|H]; [left; now left|].
      apply IH in H as [H|H]; [left; now right | now right].
Qed.

Lemma discover_step_has (m : Obj DiscoveredToken) (tx : TokenTx) (k : string) :
  obj_has k (discover_step m tx)
  = (obj_has k m
     || match tx_address tx with Some a => String.eqb k a | None => false end)%bool.
Proof.
  unfold discover_step, tx_address.
  destruct (contractAddress tx) as [a|]; [|now rewrite orb_false_r].
  destruct (truthy_str (toLowerCase a)); cbn [negb]; [|now rewrite orb_false_r].
  destruct (obj_get (toLowerCase a) m) as [token|] eqn:Eg.
  - rewrite obj_has_set.
    destruct (String.eqb k (toLowerCase a)) eqn:E; cbn [orb].
    + apply String.eqb_eq in E. subst k. unfold obj_has. rewrite Eg. reflexivity.
    + now rewrite orb_false_r.
  - rewrite obj_has_set. apply orb_comm.
Qed.

Lemma discover_fold_has (txs : list TokenTx) (m : Obj DiscoveredToken) (k : string) :
  obj_has k (fold_left discover_step txs m)
  = (obj_has k m
     || existsb (fun tx => match tx_address tx with
                           | Some a => String.eqb k a | None => false end) txs)%bool.
Proof.
  revert m. induction txs as [|tx txs IH]; intros m; simpl.
  - now rewrite orb_false_r.
  - rewrite IH, discover_step_has. now rewrite orb_assoc.
Qed.

Lemma discover_step_NoDup (m : Obj DiscoveredToken) (tx : TokenTx) :
  NoDup (obj_keys m) -> NoDup (obj_keys (discover_step m tx)).
Proof.
  intros ND. unfold discover_step.
  destruct (contractAddress tx) as [a|]; [|exact ND].
  destruct (negb _); [exact ND|].
  destruct (obj_get _ m); now apply obj_set_NoDup.
Qed.

Lemma discover_fold_NoDup (txs : list TokenTx) (m : Obj DiscoveredToken) :
  NoDup (obj_keys m) -> NoDup (obj_keys (fold_left discover_step txs m)).
Proof.
  revert m. induction txs as [|tx txs IH]; intros m ND; simpl; [exact ND|].
  apply IH. now apply discover_step_NoDup.
Qed.

Lemma discover_step_keyed (m : Obj DiscoveredToken) (tx : TokenTx) :
  keyed m -> keyed (discover_step m tx).
Proof.
  intros Hm. unfold discover_step.
  destruct (contractAddress tx) as [a|]; [|exact Hm].
  destruct (negb _); [exact Hm|].
  destruct (obj_get (toLowerCase a) m) as [token|] eqn:Eg; intros k v H;
    apply obj_set_In in H as [H|[-> ->]]; try (now apply Hm); simpl.
  - apply obj_get_In in Eg. now apply Hm.
  - reflexivity.
Qed.

Lemma discover_fold_keyed (txs : list TokenTx) (m : Obj DiscoveredToken) :
  keyed m -> keyed (fold_left discover_step txs m).
Proof.
  revert m. induction txs as [|tx txs IH]; intros m Hm; simpl; [exact Hm|].
  apply IH. now apply discover_step_keyed.
Qed.

Lemma keyed_addresses (m : Obj DiscoveredToken) :
  keyed m -> map dt_address (obj_values m) = obj_keys m.
Proof.
  unfold obj_values, obj_keys. induction m as [|[k v] m IH]; intros Hm; [reflexivity|].
  simpl. rewrite (Hm k v) by now left. f_equal. apply IH.
  intros k' v' H. apply Hm. now right.
Qed.

(** The addresses [scan] returns: the lowercased non-empty contract
    addresses of the transfers, each once. *)
Lemma scan_addresses (txs : list TokenTx) :
  NoDup (map dt_address (scan txs))
  /\ forall a, In a (map dt_address (scan txs))
               <-> exists tx, In tx txs /\ tx_address tx = Some a.
Proof.
  unfold scan.
  rewrite keyed_addresses by (apply discover_fold_keyed; intros ? ? []).
  split; [apply discover_fold_NoDup; constructor|].
  intros a. rewrite <- obj_has_In, discover_fold_has. cbn [obj_has obj_get orb].
  rewrite existsb_exists. split.
  - intros [tx [Hin H]]. exists tx. split; [exact Hin|].
    destruct (tx_address tx) as [b|]; [|discriminate].
    apply String.eqb_eq in H. now subst.
  - intros [tx [Hin H]]. exists tx. split; [exact Hin|].
    rewrite H. apply String.eqb_refl.
Qed.

End DiscoveryFacts.

Section WalletScanFacts.
Import JS Crypto.
Variable w : World.

Lemma getTokenPrice_db (config : CryptoConfigV2) (now : Z) (reply : PriceReply)
      (stored : Z) (symbol : string) (coingeckoId : option string) :
  tokenDatabase (snd (getTokenPrice config now reply stored symbol coingeckoId))
  = tokenDatabase config.
Proof.
  unfold getTokenPrice. destruct (cacheLookup _ _ _); [reflexivity|].
  destruct reply; reflexivity.
Qed.

Lemma getTokenBalance_db (config : CryptoConfigV2) (tokenInfo : TokenInfo) :
  tokenDatabase (snd (getTokenBalance w config tokenInfo)) = tokenDatabase config.
Proof.
  unfold getTokenBalance. destruct (balanceOf w _) as [b|]; [|reflexivity].
  destruct (Qeq_bool b 0); [reflexivity|].
  pose proof (getTokenPrice_db config (clock w)
                (priceReply w (priceKey (ti_symbol tokenInfo) (ti_coingeckoId tokenInfo)))
                (clock w) (ti_symbol tokenInfo) (ti_coingeckoId tokenInfo)) as H.
  destruct (getTokenPrice _ _ _ _ _ _) as [p c']. exact H.
Qed.

Lemma keep_balance_cfg (st : ScanState) (r : option TokenBalance * CryptoConfigV2) :
  cfg (keep_balance st r) = snd r /\ researched (keep_balance st r) = researched st.
Proof.
  unfold keep_balance. destruct r as [[b|] c]; [|now split].
  destruct (geb _ _); now split.
Qed.

Lemma known_step_inv (st : ScanState) (tokenInfo : TokenInfo) :
  tokenDatabase (cfg (known_step w st tokenInfo)) = tokenDatabase (cfg st)
  /\ researched (known_step w st tokenInfo) = researched st.
Proof.
  unfold known_step.
  destruct (keep_balance_cfg st (getTokenBalance w (cfg st) tokenInfo)) as [H1 H2].
  rewrite H1, H2, getTokenBalance_db. now split.
Qed.

Lemma known_fold_inv (l : list TokenInfo) (st : ScanState) :
  tokenDatabase (cfg (fold_left (known_step w) l st)) = tokenDatabase (cfg st)
  /\ researched (fold_left (known_step w) l st) = researched st.
Proof.
  revert st. induction l as [|t l IH]; intros st; simpl; [now split|].
  destruct (IH (known_step w st t)) as [H1 H2].
  destruct (known_step_inv st t) as [H3 H4]. rewrite H1, H2, H3, H4. now split.
Qed.

(** What one round of the discovery loop does to the registry and to the
    list of researched addresses. *)
Lemma discovered_step_inv (chainName : string) (known : list TokenInfo)
      (st : ScanState) (d : DiscoveredToken) :
  let st' := discovered_step w chainName known st d in
  (forall k, obj_has k (tokenDatabase (cfg st)) = true ->
             obj_has k (tokenDatabase (cfg st')) = true)
  /\ (researched st' = researched st
      \/ (researched st' = (researched st ++ [dt_address d])%list
          /\ alreadyKnown known d = false
          /\ obj_has (chainName ++ ":" ++ dt_address d) (tokenDatabase (cfg st)) = false)).
Proof.
  cbv zeta. unfold discovered_step.
  destruct (alreadyKnown known d) eqn:Ek; [split; [auto | now left]|].
  destruct (obj_get (chainName ++ ":" ++ dt_address d) (tokenDatabase (cfg st)))
    as [metadata|] eqn:Eg.
  - destruct (keep_balance_cfg st (getTokenBalance w (cfg st) (tm_info metadata)))
      as [H1 H2].
    rewrite H1, H2, getTokenBalance_db. split; [auto | now left].
  - unfold researchToken.
    match goal with
    | |- context [keep_balance ?s ?r] =>
        destruct (keep_balance_cfg s r) as [H1 H2]; rewrite H1, H2
    end.
    rewrite getTokenBalance_db. cbn [tokenDatabase with_tokenDatabase researched].
    split.
    + intros k Hk. rewrite obj_has_set, Hk. apply orb_true_r.
    + right. split; [reflexivity|]. split; [reflexivity|].
      unfold obj_has. now rewrite Eg.
Qed.

Lemma discovered_fold_inv (chainName : string) (known : list TokenInfo)
      (ds : list DiscoveredToken) (st : ScanState) (db0 : Obj TokenMetadata) :
  (forall k, obj_has k db0 = true -> obj_has k (tokenDatabase (cfg st)) = true) ->
  forall a,
    In a (researched (fold_left (discovered_step w chainName known) ds st)) ->
    In a (researched st)
    \/ exists d, In d ds /\ dt_address d = a /\ alreadyKnown known d = false
                 /\ obj_has (chainName ++ ":" ++ a) db0 = false.
Proof.
  revert st. induction ds as [|d ds IH]; intros st Hdb a Ha; simpl in Ha; [now left|].
  destruct (discovered_step_inv chainName known st d) as [Hgrow Hres].
  apply IH in Ha; [|intros k Hk; apply Hgrow; now apply Hdb].
  destruct Ha as [Ha|[d' [Hd' H']]]; [|right; exists d'; split; [now right | exact H']].
  destruct Hres as [Hres|[Hres [Hk Hn]]]; [rewrite Hres in Ha; now left|].
  rewrite Hres in Ha. apply in_app_iff in Ha as [Ha|[<-|[]]]; [now left|].
  right. exists d. split; [now left|]. split; [reflexivity|]. split; [exact Hk|].
  destruct (obj_has (chainName ++ ":" ++ dt_address d) db0) eqn:E; [|reflexivity].
  apply Hdb in E. congruence.
Qed.

End WalletScanFacts.

Section DiscoveryClaims.
Import JS Crypto CryptoSamples.

(** C7 (as amended). For an enabled discovery on a chain with an
    explorer, token discovery returns one entry for each distinct
    lowercased contract address of the scanned transfers, whether or not
    the Token Registry already holds the address; the wallet scan that
    consumes the result researches only addresses that have no registry
    entry under chain:address and that match no known token of the chain
    without regard to case. *)
Theorem C7_discovery_lists_history_and_scan_researches_new
        (w : World) (config : CryptoConfigV2) (chainName : string)
        (chainConfig : ChainConfigV2) (txs : list TokenTx) :
  enabled (discovery config) = true ->
  truthy_str (explorerApiUrl chainConfig) = true ->
  obj_get chainName (chains config) = Some chainConfig ->
  explorer w = ExplorerData "1" (Some txs) ->
  let found := discoverTokens config chainConfig (explorer w) in
  NoDup (map dt_address found)
  /\ (forall a, In a (map dt_address found)
                <-> exists tx, In tx txs /\ tx_address tx = Some a)
  /\ (forall db, discoverTokens (with_tokenDatabase config db) chainConfig (explorer w)
                 = found)
  /\ (forall a, In a (researched (getAllTokensForWallet w config chainName)) ->
        In a (map dt_address found)
        /\ obj_has (chainName ++ ":" ++ a) (tokenDatabase config) = false
        /\ existsb (fun kt => String.eqb (toLowerCase (ti_address kt)) (toLowerCase a))
                   (match obj_get chainName (knownTokens config) with
                    | Some l => l | None => [] end) = false).
Proof.
  intros Hen Hurl Hchain Hreply found.
  assert (Hfound : found = scan txs).
  { unfold found, discoverTokens. rewrite Hen, Hurl, Hreply. reflexivity. }
  split; [rewrite Hfound; apply scan_addresses|].
  split; [rewrite Hfound; apply scan_addresses|].
  split; [reflexivity|].
  intros a Ha. unfold getAllTokensForWallet in Ha. rewrite Hchain, Hen in Ha.
  fold found in Ha.
  set (known := match obj_get chainName (knownTokens config) with
                | Some l => l | None => [] end) in *.
  destruct (known_fold_inv w known (mkScan [] config [])) as [Hdb Hres].
  apply (discovered_fold_inv w chainName known found _ (tokenDatabase config)) in Ha.
  - destruct Ha as [Ha|[d [Hd [<- [Hk Hn]]]]].
    + rewrite Hres in Ha. destruct Ha.
    + split; [now apply in_map|]. split; [exact Hn | exact Hk].
  - intros k Hk. now rewrite Hdb.
Qed.

Lemma C7_discovery_lists_history_and_scan_researches_new_witness :
  enabled (discovery config) = true
  /\ truthy_str (explorerApiUrl ethereum) = true
  /\ obj_get "ethereum" (chains config) = Some ethereum
  /\ explorer world = ExplorerData "1" (Some history)
  /\ researched (getAllTokensForWallet world config "ethereum") = ["0xdef"]
  /\ NoDup (map dt_address (discoverTokens config ethereum (explorer world))).
Proof.
  assert (H1 : enabled (discovery config) = true) by reflexivity.
  assert (H2 : truthy_str (explorerApiUrl ethereum) = true) by reflexivity.
  assert (H3 : obj_get "ethereum" (chains config) = Some ethereum) by reflexivity.
  assert (H4 : explorer world = ExplorerData "1" (Some history)) by reflexivity.
  repeat (split; [assumption|]). split; [reflexivity|].
  exact (proj1 (C7_discovery_lists_history_and_scan_researches_new
                  world config "ethereum" ethereum history H1 H2 H3 H4)).
Defined.

(** C7 (as stated) fails, on Scenario E: 0xabc is in the Token Registry
    and token discovery returns it, next to 0xdef. *)
Lemma C7_counterexample :
  inRegistry config "ethereum" "0xABC" = true
  /\ discoverTokens config ethereum (ExplorerData "1" (Some history))
     = [ mkDiscovered "0xabc" "100" "102" 3; mkDiscovered "0xdef" "103" "103" 1 ].
Proof. split; vm_compute; reflexivity. Qed.

End DiscoveryClaims.

(** ** Price cache *)

Section PriceCacheClaims.
Import JS Crypto CryptoSamples.

(** C8. The cache check succeeds exactly when the key has an entry whose
    age is strictly below the expiry window, and then the cached price is
    returned and nothing changes; otherwise the request is made: an
    answer is stored under the key with the time of storing and the
    source and is returned (a missing quote counting as zero), and a
    failed request returns zero and leaves the configuration alone. *)
Theorem C8_price_lookup_contract
        (config : CryptoConfigV2) (now stored : Z) (reply : PriceReply)
        (symbol : string) (coingeckoId : option string) :
  let cacheKey := priceKey symbol coingeckoId in
  let maxAge := cacheExpiryHours (discovery config) * 60 * 60 * 1000 in
  let result := getTokenPrice config now reply stored symbol coingeckoId in
  (forall p, cacheLookup config now cacheKey = Some p
             <-> exists cached, obj_get cacheKey (priceCache config) = Some cached
                                /\ inject_Z (now - timestamp cached) < maxAge
                                /\ p = price cached)
  /\ (forall p, cacheLookup config now cacheKey = Some p -> result = (p, config))
  /\ (cacheLookup config now cacheKey = None ->
      match reply with
      | PriceData usd =>
          let fresh := match usd with Some p => p | None => 0 end in
          fst result = fresh
          /\ obj_get cacheKey (priceCache (snd result))
             = Some (mkCached fresh stored "coingecko")
      | PriceError => result = (0, config)
      end).
Proof.
  cbv zeta. split; [|split].
  - intros p. unfold cacheLookup.
    destruct (obj_get (priceKey symbol coingeckoId) (priceCache config)) as [cached|].
    + destruct (ltb _ _) eqn:E.
      * apply ltb_spec in E. split.
        -- intros [= <-]. exists cached. auto.
        -- intros [c [[= <-] [_ ->]]]. reflexivity.
      * split; [discriminate|]. intros [c [[= <-] [L _]]].
        apply ltb_spec in L. congruence.
    + split; [discriminate|]. intros [c [H _]]. discriminate H.
  - intros p H. unfold getTokenPrice. now rewrite H.
  - intros H. unfold getTokenPrice. rewrite H.
    destruct reply as [|usd]; [reflexivity|].
    cbn [fst snd priceCache with_priceCache]. split; [reflexivity|].
    apply obj_get_set_eq.
Qed.

(** A one-hour window: an entry stored at 1000 is served at 5000 and is
    stale at 3601000, where a failed request then gives 0. *)
Example price_cache_window :
  getTokenPrice config 5000 PriceError 5000 "USDC" (Some "usd-coin") = (1, config)
  /\ getTokenPrice config 3601000 PriceError 3601000 "USDC" (Some "usd-coin") = (0, config)
  /\ fst (getTokenPrice config 3601000 (PriceData (Some 2)) 3601005 "USDC" (Some "usd-coin"))
     = 2.
Proof. repeat split; vm_compute; reflexivity. Qed.

End PriceCacheClaims.

(** ** Ledger writer *)

Section LedgerClaims.
Import JS LedgerWriter.

(** Over a run of successful writes the ledger only grows, by the new
    entries in call order. *)
Lemma ledger_run_grows (file : LedgerFile) (calls : list LogCall) :
  file <> Unreadable ->
  stored_entries (fileAfterAll file calls)
  = (stored_entries file ++ map entryOf calls)%list.
Proof.
  unfold fileAfterAll. revert file.
  induction calls as [|c calls IH]; intros file Hf; simpl.
  - now rewrite app_nil_r.
  - rewrite IH.
    + destruct file as [| |l]; [reflexivity | contradiction|].
      unfold fileAfter, logToLedger. cbn [stored_entries entries].
      now rewrite <- app_assoc.
    + destruct file as [| |l]; [discriminate | contradiction | discriminate].
Qed.

(** C9. A successful ledger write stores the previous entries, each at
    its place and unchanged, followed by exactly one new entry; with no
    ledger file the write starts from the empty list and stores the new
    entry alone; over a run of successful writes the stored sequence only
    grows, by the new entries in call order. *)
Theorem C9_ledger_write_appends_one
        (file : LedgerFile) (write_ok : bool)
        (stamp iso entryType status : string) (details : Details)
        (runId : option string) :
  let entry := newEntry stamp iso entryType status details runId in
  (forall written,
      logToLedger file write_ok stamp iso entryType status details runId = Some written ->
      entries written = (stored_entries file ++ [entry])%list
      /\ List.length (entries written) = S (List.length (stored_entries file))
      /\ (forall i e, nth_error (stored_entries file) i = Some e ->
                      nth_error (entries written) i = Some e))
  /\ logToLedger NoFile true stamp iso entryType status details runId
     = Some (mkLedger [entry] [])
  /\ (forall calls,
        file <> Unreadable ->
        stored_entries (fileAfterAll file calls)
        = (stored_entries file ++ map entryOf calls)%list).
Proof.
  cbv zeta. split; [|split; [reflexivity | apply ledger_run_grows]].
  intros written H.
  assert (E : entries written
              = (stored_entries file
                 ++ [newEntry stamp iso entryType status details runId])%list).
  { unfold logToLedger in H. destruct file as [| |l]; [|discriminate|];
      destruct write_ok; try discriminate; injection H as <-; reflexivity. }
  split; [exact E|]. split.
  - rewrite E, length_app. simpl. lia.
  - intros i e Hi. rewrite E. rewrite nth_error_app1; [exact Hi|].
    apply nth_error_Some. congruence.
Qed.

End LedgerClaims.

(** * Further properties of the code *)

(** ** Snapshot differ, continued *)

Section DifferMore.
Import JS Differ Fetcher Samples.

Lemma flat_map_nil {A B} (f : A -> list B) (l : list A) :
  (forall x, In x l -> f x = []) -> flat_map f l = [].
Proof.
  induction l as [|x l IH]; intros H; simpl; [reflexivity|].
  rewrite (H x) by now left. apply IH. intros y Hy. apply H. now right.
Qed.

Lemma neqb_refl (x : Q) : neqb x x = false.
Proof. unfold neqb. now rewrite (proj2 (Qeq_bool_iff x x) (Qeq_refl x)). Qed.

(** X1. A snapshot compared with itself gives no change at all. *)
Theorem X1_self_diff_is_empty (env : Thresholds) (data : PortfolioData) :
  detectChanges env data data = [].
Proof.
  unfold detectChanges. set (o := flatten (positions data)).
  assert (ND : NoDup (obj_keys o)) by apply flatten_NoDup.
  assert (Hhas : forall k v, In (k, v) o -> obj_has k o = true).
  { intros k v H. apply obj_has_In. change k with (fst (k, v)). now apply in_map. }
  replace (new_changes o o) with (@nil PositionChange).
  2:{ symmetry. apply flat_map_nil. intros [k v] H. now rewrite (Hhas k v H). }
  replace (closed_changes o o) with (@nil PositionChange).
  2:{ symmetry. apply flat_map_nil. intros [k v] H. now rewrite (Hhas k v H). }
  simpl. apply flat_map_nil. intros [k v] H. cbn [fst snd].
  unfold changed_for. rewrite (obj_In_get o k v ND H).
  now rewrite !neqb_refl.
Qed.

(** X2. Lowering the thresholds never turns a significant change into an
    insignificant one. *)
Theorem X2_significance_monotone (env env' : Thresholds) (change : PositionChange) :
  percentThreshold env' <= percentThreshold env ->
  valueThreshold env' <= valueThreshold env ->
  isSignificantChange env change = true ->
  isSignificantChange env' change = true.
Proof.
  intros Hp Hv. unfold isSignificantChange.
  destruct (type change); try reflexivity.
  - destruct (percentChange change) as [pc|].
    + destruct (truthy_num pc); cbn [andb].
      * destruct (geb (Qabs pc) (percentThreshold env)) eqn:E.
        -- apply geb_spec in E.
           assert (E' : geb (Qabs pc) (percentThreshold env') = true)
             by (apply geb_spec; eapply Qle_trans; eassumption).
           now rewrite E'.
        -- destruct (geb (Qabs pc) (percentThreshold env')); [reflexivity|].
           destruct (truthy_onum (oldValue change) && truthy_onum (newValue change))%bool;
             [|discriminate].
           destruct (oldValue change), (newValue change); try discriminate.
           rewrite !geb_spec. intros H. eapply Qle_trans; eassumption.
      * destruct (truthy_onum (oldValue change) && truthy_onum (newValue change))%bool;
          [|discriminate].
        destruct (oldValue change), (newValue change); try discriminate.
        rewrite !geb_spec. intros H. eapply Qle_trans; eassumption.
    + destruct (truthy_onum (oldValue change) && truthy_onum (newValue change))%bool;
        [|discriminate].
      destruct (oldValue change), (newValue change); try discriminate.
      rewrite !geb_spec. intros H. eapply Qle_trans; eassumption.
  - destruct (percentChange change) as [pc|].
    + destruct (truthy_num pc); cbn [andb].
      * destruct (geb (Qabs pc) (percentThreshold env)) eqn:E.
        -- apply geb_spec in E.
           assert (E' : geb (Qabs pc) (percentThreshold env') = true)
             by (apply geb_spec; eapply Qle_trans; eassumption).
           now rewrite E'.
        -- destruct (geb (Qabs pc) (percentThreshold env')); [reflexivity|].
           destruct (truthy_onum (oldValue change) && truthy_onum (newValue change))%bool;
             [|discriminate].
           destruct (oldValue change), (newValue change); try discriminate.
           rewrite !geb_spec. intros H. eapply Qle_trans; eassumption.
      * destruct (truthy_onum (oldValue change) && truthy_onum (newValue change))%bool;
          [|discriminate].
        destruct (oldValue change), (newValue change); try discriminate.
        rewrite !geb_spec. intros H. eapply Qle_trans; eassumption.
    + destruct (truthy_onum (oldValue change) && truthy_onum (newValue change))%bool;
        [|discriminate].
      destruct (oldValue change), (newValue change); try discriminate.
      rewrite !geb_spec. intros H. eapply Qle_trans; eassumption.
Qed.

Lemma X2_significance_monotone_witness :
  percentThreshold (mkThresholds 2 500) <= percentThreshold defaultThresholds
  /\ valueThreshold (mkThresholds 2 500) <= valueThreshold defaultThresholds
  /\ isSignificantChange defaultThresholds (value_candidate "AAPL" 1000 1200) = true
  /\ isSignificantChange (mkThresholds 2 500) (value_candidate "AAPL" 1000 1200) = true.
Proof.
  assert (H1 : percentThreshold (mkThresholds 2 500) <= percentThreshold defaultThresholds)
    by (apply Qle_bool_iff; reflexivity).
  assert (H2 : valueThreshold (mkThresholds 2 500) <= valueThreshold defaultThresholds)
    by (apply Qle_bool_iff; reflexivity).
  assert (H3 : isSignificantChange defaultThresholds (value_candidate "AAPL" 1000 1200) = true)
    by reflexivity.
  repeat (split; [assumption|]).
  exact (X2_significance_monotone _ _ _ H1 H2 H3).
Defined.

(** A change of the diff that is not a share change is significant. *)
Lemma detected_significant (env : Thresholds) (oldData newData : PortfolioData)
      (c : PositionChange) :
  In c (detectChanges env oldData newData) ->
  type c = share_change \/ isSignificantChange env c = true.
Proof.
  intros Hc. unfold detectChanges in Hc.
  rewrite !in_app_iff in Hc. destruct Hc as [Hc|[Hc|Hc]].
  - right. unfold new_changes in Hc. apply in_flat_map in Hc as [[k v] [_ Hc]].
    destruct (negb _); [|destruct Hc]. destruct Hc as [<-|[]]. reflexivity.
  - right. unfold closed_changes in Hc. apply in_flat_map in Hc as [[k v] [_ Hc]].
    destruct (negb _); [|destruct Hc]. destruct Hc as [<-|[]]. reflexivity.
  - unfold changed_changes in Hc. apply in_flat_map in Hc as [[k v] [_ Hc]].
    cbn [fst snd] in Hc. unfold changed_for in Hc.
    destruct (obj_get k _) as [pn|]; [|destruct Hc].
    apply in_app_iff in Hc as [Hc|Hc].
    + destruct (neqb _ _ && gtb _ _)%bool; [|destruct Hc].
      destruct (isSignificantChange env _) eqn:E; [|destruct Hc].
      destruct Hc as [<-|[]]. now right.
    + destruct (neqb _ _); [|destruct Hc]. destruct Hc as [<-|[]]. now left.
Qed.

(** X3. Every change the differ returns, other than a share change,
    passes the significance filter: filtering the diff again can only
    remove share changes. *)
Theorem X3_only_share_changes_are_filtered
        (env : Thresholds) (oldData newData : PortfolioData) :
  Forall (fun c => type c = share_change \/ isSignificantChange env c = true)
         (detectChanges env oldData newData)
  /\ forall c, In c (detectChanges env oldData newData) ->
               ~ In c (significantChanges env (detectChanges env oldData newData)) ->
               type c = share_change.
Proof.
  split.
  - apply Forall_forall. intros c Hc. now apply (detected_significant env oldData newData).
  - intros c Hc Hn.
    destruct (detected_significant env oldData newData c Hc) as [H|H]; [exact H|].
    exfalso. apply Hn. unfold significantChanges. apply filter_In. now split.
Qed.

(** The flattening loop is one pass over the seven categories in order. *)
Lemma flatten_concat (p : PortfolioPositions) :
  flatten p = fold_left index_position (List.concat (categories p)) [].
Proof.
  unfold flatten. generalize (categories p) as cats. generalize (@nil (string * Position)) as m.
  intros m cats. revert m. induction cats as [|c cats IH]; intros m; simpl; [reflexivity|].
  now rewrite fold_left_app, IH.
Qed.

Lemma index_fold_snoc_get (l : list Position) (x : Position) (s : string) :
  obj_get s (fold_left index_position (l ++ [x]) [])
  = if (truthy_str (symbol_of x) && String.eqb (symbol_of x) s)%bool then Some x
    else obj_get s (fold_left index_position l []).
Proof.
  rewrite fold_left_app. cbn [fold_left]. unfold index_position at 1.
  destruct (truthy_str (symbol_of x)); cbn [andb]; [|reflexivity].
  destruct (String.eqb (symbol_of x) s) eqn:E.
  - apply String.eqb_eq in E. subst s. apply obj_get_set_eq.
  - apply String.eqb_neq in E. now apply obj_get_set_neq.
Qed.

(** The entry of a symbol in the flattened map is its last occurrence. *)
Lemma flatten_lookup (p : PortfolioPositions) (s : string) :
  obj_get s (flatten p)
  = if truthy_str s
    then find (fun pos => String.eqb (symbol_of pos) s) (rev (List.concat (categories p)))
    else None.
Proof.
  rewrite flatten_concat. generalize (List.concat (categories p)) as l.
  induction l as [|x l IH] using rev_ind.
  - simpl. now destruct (truthy_str s).
  - rewrite index_fold_snoc_get, IH, rev_app_distr. cbn [rev app find].
    destruct (String.eqb (symbol_of x) s) eqn:E.
    + apply String.eqb_eq in E. subst s.
      now destruct (truthy_str (symbol_of x)).
    + now rewrite andb_false_r.
Qed.

(** X4. When a symbol occurs more than once in a snapshot, the differ
    works with its last occurrence, in category order; a position with
    neither symbol nor ISIN is not indexed at all, and every entry of the
    map is a position of one of the seven categories, stored under its
    own non-empty symbol. *)
Theorem X4_flatten_keeps_last_occurrence (p : PortfolioPositions) :
  (forall s,
      obj_get s (flatten p)
      = if truthy_str s
        then find (fun pos => String.eqb (symbol_of pos) s)
                  (rev (List.concat (categories p)))
        else None)
  /\ (forall k v, In (k, v) (flatten p) ->
                  truthy_str k = true /\ symbol_of v = k
                  /\ In v (List.concat (categories p))).
Proof.
  split; [apply flatten_lookup|].
  intros k v H. apply obj_In_get in H; [|apply flatten_NoDup].
  rewrite flatten_lookup in H. destruct (truthy_str k); [|discriminate].
  apply find_some in H as [Hin E]. apply String.eqb_eq in E.
  split; [reflexivity|]. split; [exact E|]. now apply in_rev.
Qed.

Lemma new_changes_nil_old (l : Obj Position) :
  new_changes [] l
  = map (fun kv : string * Position =>
           mkChange new (fst kv) None (Some (marketValue (snd kv)))
                    None (Some (shares (snd kv))) None) l.
Proof.
  unfold new_changes. induction l as [|[k v] l IH]; [reflexivity|].
  simpl. f_equal. exact IH.
Qed.

(** X5. On a first run, when the positions file is missing or unreadable,
    the diff is one [new] change per symbol of the new snapshot, in map
    order, and the significance filter keeps them all. *)
Theorem X5_first_run_opens_every_symbol
        (env : Thresholds) (file : PositionsFile) (newData : PortfolioData) :
  file = NoPositions \/ file = BadPositions ->
  let changes := detectChanges env (loadPreviousPositions file) newData in
  changes
  = map (fun kv : string * Position =>
           mkChange new (fst kv) None (Some (marketValue (snd kv)))
                    None (Some (shares (snd kv))) None)
        (flatten (positions newData))
  /\ significantChanges env changes = changes.
Proof.
  intros Hf changes.
  assert (E : changes
              = map (fun kv : string * Position =>
                       mkChange new (fst kv) None (Some (marketValue (snd kv)))
                                None (Some (shares (snd kv))) None)
                    (flatten (positions newData))).
  { unfold changes, detectChanges.
    replace (flatten (positions (loadPreviousPositions file))) with (@nil (string * Position))
      by (destruct Hf; subst; reflexivity).
    cbn [closed_changes changed_changes flat_map]. rewrite app_nil_r.
    apply new_changes_nil_old. }
  split; [exact E|]. rewrite E. unfold significantChanges.
  generalize (flatten (positions newData)) as l. clear.
  induction l as [|[k v] l IH]; [reflexivity|].
  simpl. f_equal. exact IH.
Qed.

Lemma X5_first_run_opens_every_symbol_witness :
  let n := snapshot [holding "MSFT" 5 900] in
  (NoPositions = NoPositions \/ NoPositions = BadPositions)
  /\ detectChanges defaultThresholds (loadPreviousPositions NoPositions) n
     = [mkChange new "MSFT" None (Some 900) None (Some 5) None].
Proof.
  intros n. split; [now left|].
  exact (proj1 (X5_first_run_opens_every_symbol defaultThresholds NoPositions n
                  (or_introl eq_refl))).
Defined.

End DifferMore.

(** ** Normaliser, continued *)

Section NormalizerMore.
Import JS Normalizer Samples.

(** *** Categories *)

Lemma perm_skip_head {A} (x : A) (a l l' : list A) :
  Permutation l (x :: l') -> Permutation (a ++ l)%list (x :: a ++ l')%list.
Proof.
  intros H. transitivity (a ++ x :: l')%list.
  - now apply Permutation_app_head.
  - symmetry. apply Permutation_middle.
Qed.

Lemma perm_snoc_here {A} (x : A) (m r : list A) :
  Permutation ((m ++ [x]) ++ r)%list (x :: m ++ r)%list.
Proof.
  rewrite <- app_assoc. simpl. symmetry. apply Permutation_middle.
Qed.

Lemma push_perm (c : Category) (x : Position) (cats : PortfolioPositions) :
  Permutation (all_positions (push c x cats)) (x :: all_positions cats).
Proof.
  unfold all_positions.
  destruct c; cbn [push equities funds bonds cash private_equity private_debt
                   real_estate crowdfunding crypto];
    repeat apply perm_skip_head; apply perm_snoc_here.
Qed.

Lemma push_untouched (c : Category) (x : Position) (cats : PortfolioPositions) :
  bonds (push c x cats) = bonds cats
  /\ cash (push c x cats) = cash cats
  /\ crypto (push c x cats) = crypto cats.
Proof. destruct c; repeat split. Qed.

Lemma categorize_fold_perm (patterns : CategorizationPatterns) (l : list Position)
      (cats : PortfolioPositions) :
  let r := fold_left (fun cats inv => push (classify patterns inv) inv cats) l cats in
  Permutation (all_positions r) (all_positions cats ++ l)%list
  /\ bonds r = bonds cats /\ cash r = cash cats /\ crypto r = crypto cats.
Proof.
  cbv zeta. revert cats. induction l as [|x l IH]; intros cats; simpl.
  - rewrite app_nil_r. repeat split. apply Permutation_refl.
  - destruct (IH (push (classify patterns x) x cats)) as [P [B [C R]]].
    destruct (push_untouched (classify patterns x) x cats) as [B' [C' R']].
    split; [|rewrite B, C, R; auto].
    etransitivity; [exact P|].
    etransitivity; [apply Permutation_app_tail, push_perm|].
    simpl. apply Permutation_middle.
Qed.

Lemma snapshot_perm (timestamp : string) (patterns : CategorizationPatterns)
      (accountsData : list Account) (investmentsData : PowensInvestmentData) :
  Permutation
    (all_positions
       (positions (transformToInternalFormat timestamp patterns accountsData investmentsData)))
    (obj_values (consolidatedOf accountsData investmentsData)).
Proof.
  unfold transformToInternalFormat. cbn [positions]. unfold categorize.
  exact (proj1 (categorize_fold_perm patterns
                  (obj_values (consolidatedOf accountsData investmentsData))
                  emptyPositions)).
Qed.

(** X6. Categorisation files every consolidated position in exactly one
    category: the positions of the snapshot are the consolidated positions
    up to order, and the [bonds], [cash] and [crypto] categories are left
    empty by the normaliser. *)
Theorem X6_categorisation_is_a_partition
        (timestamp : string) (patterns : CategorizationPatterns)
        (accountsData : list Account) (investmentsData : PowensInvestmentData) :
  let snapshot := transformToInternalFormat timestamp patterns accountsData investmentsData in
  Permutation (all_positions (positions snapshot))
              (obj_values (consolidatedOf accountsData investmentsData))
  /\ bonds (positions snapshot) = []
  /\ cash (positions snapshot) = []
  /\ crypto (positions snapshot) = [].
Proof.
  cbv zeta. unfold transformToInternalFormat. cbn [positions]. unfold categorize.
  destruct (categorize_fold_perm patterns
              (obj_values (consolidatedOf accountsData investmentsData)) emptyPositions)
    as [P [B [C R]]].
  split; [exact P|]. rewrite B, C, R. repeat split.
Qed.

(** *** One position per symbol *)

Lemma consolidate_step_NoDup (m : Obj Position) (inv : Position) :
  NoDup (obj_keys m) -> NoDup (obj_keys (consolidate_step m inv)).
Proof.
  intros ND. unfold consolidate_step.
  destruct (obj_get (p_symbol inv) m); now apply obj_set_NoDup.
Qed.

Lemma consolidated_NoDup (rows : list Position) (m : Obj Position) :
  NoDup (obj_keys m) -> NoDup (obj_keys (fold_left consolidate_step rows m)).
Proof.
  revert m. induction rows as [|r rows IH]; intros m ND; simpl; [exact ND|].
  apply IH. now apply consolidate_step_NoDup.
Qed.

Lemma consolidated_symbols (rows : list Position) :
  map p_symbol (obj_values (consolidatedPositions rows))
  = obj_keys (consolidatedPositions rows).
Proof.
  unfold consolidatedPositions.
  assert (K : forall k v, In (k, v) (fold_left consolidate_step rows []) -> p_symbol v = k).
  { intros k v H. apply consolidated_origin in H; [tauto | intros ? ? []]. }
  revert K. generalize (fold_left consolidate_step rows []) as m.
  unfold obj_values, obj_keys. induction m as [|[k v] m IH]; intros K; [reflexivity|].
  simpl. rewrite (K k v) by now left. f_equal. apply IH.
  intros k' v' H. apply K. now right.
Qed.

(** X7. A snapshot of the normaliser holds at most one position per
    symbol, over all its categories together. *)
Theorem X7_symbols_are_unique
        (timestamp : string) (patterns : CategorizationPatterns)
        (accountsData : list Account) (investmentsData : PowensInvestmentData) :
  NoDup (map p_symbol
             (all_positions
                (positions (transformToInternalFormat timestamp patterns
                                                      accountsData investmentsData)))).
Proof.
  pose proof (snapshot_perm timestamp patterns accountsData investmentsData) as P.
  eapply Permutation_NoDup.
  - symmetry. apply Permutation_map. exact P.
  - unfold consolidatedOf. rewrite consolidated_symbols.
    apply consolidated_NoDup. constructor.
Qed.

End NormalizerMore.

Section NormalizerTotals.
Import JS Normalizer Samples.







(** *** Positive market values *)

Lemma consolidated_positive (rows : list Position) (m : Obj Position) :
  (forall r, In r rows -> 0 < marketValue r) ->
  (forall k v, In (k, v) m -> 0 < marketValue v) ->
  forall k v, In (k, v) (fold_left consolidate_step rows m) -> 0 < marketValue v.
Proof.
  revert m. induction rows as [|r rows IH]; intros m Hr Hm k v H; simpl in H.
  - now apply (Hm k v).
  - apply (IH (consolidate_step m r)) in H; [exact H | intros; apply Hr; now right|].
    intros k' v' H'. unfold consolidate_step in H'.
    destruct (obj_get (p_symbol r) m) as [e|] eqn:E;
      apply obj_set_In in H' as [H'|[_ ->]]; try (now apply (Hm k' v')).
    + cbn [merge marketValue]. apply obj_get_In in E. apply Hm in E.
      pose proof (Hr r (or_introl eq_refl)). lra.
    + apply Hr. now left.
Qed.

(** X9. Every position of a snapshot of the normaliser has a strictly
    positive market value. *)
Theorem X9_market_values_are_positive
        (timestamp : string) (patterns : CategorizationPatterns)
        (accountsData : list Account) (investmentsData : PowensInvestmentData) :
  Forall (fun p => 0 < marketValue p)
         (all_positions
            (positions (transformToInternalFormat timestamp patterns
                                                  accountsData investmentsData))).
Proof.
  apply Forall_forall. intros p Hp.
  apply (Permutation_in _ (snapshot_perm timestamp patterns accountsData investmentsData)) in Hp.
  unfold obj_values in Hp. apply in_map_iff in Hp as [[k v] [<- Hin]]. cbn [snd].
  unfold consolidatedOf, consolidatedPositions in Hin.
  eapply consolidated_positive; [| |exact Hin].
  - intros r Hr. unfold surviving in Hr. apply uniqueInvestments_incl in Hr.
    apply allInvestments_In in Hr as [inv [_ [_ [He ->]]]].
    apply eligible_spec in He. cbn [toPosition marketValue]. tauto.
  - intros ? ? [].
Qed.

End NormalizerTotals.

Section DedupMore.
Import JS Normalizer Samples.

Lemma unique_keys_incl (l : list Account) (a : Account) :
  In a (uniqueAccounts (dedupAccounts l)) -> In a l.
Proof.
  induction l as [|x l IH] using rev_ind; [intros []|].
  rewrite unique_snoc, !in_app_iff. intros [H|H]; [left; now apply IH|].
  destruct (existsb _ l); [destruct H|]. now right.
Qed.

Lemma key_not_seen (l : list Account) (a : Account) :
  existsb (fun b => String.eqb (accountKey a) (accountKey b)) l = false ->
  ~ In (accountKey a) (map accountKey l).
Proof.
  intros E H. apply in_map_iff in H as [b [Hk Hb]].
  assert (T : existsb (fun b => String.eqb (accountKey a) (accountKey b)) l = true).
  { apply existsb_exists. exists b. split; [exact Hb|]. rewrite Hk. apply String.eqb_refl. }
  congruence.
Qed.

Lemma unique_keys_NoDup (l : list Account) :
  NoDup (map accountKey (uniqueAccounts (dedupAccounts l))).
Proof.
  induction l as [|x l IH] using rev_ind; [constructor|].
  rewrite unique_snoc. destruct (existsb _ l) eqn:E.
  - now rewrite app_nil_r.
  - rewrite map_app. cbn [map]. apply NoDup_snoc; [exact IH|].
    intros H. apply in_map_iff in H as [b [Hk Hb]].
    apply unique_keys_incl in Hb.
    apply (key_not_seen l x E). rewrite <- Hk. now apply in_map.
Qed.

Lemma dedup_fixed (u : list Account) :
  NoDup (map accountKey u) -> uniqueAccounts (dedupAccounts u) = u.
Proof.
  induction u as [|x u IH] using rev_ind; intros ND; [reflexivity|].
  rewrite map_app in ND. cbn [map] in ND.
  assert (ND' : NoDup (map accountKey u)) by (eapply NoDup_app_remove_r; exact ND).
  rewrite unique_snoc, IH by exact ND'.
  destruct (existsb _ u) eqn:E; [|reflexivity].
  exfalso. apply existsb_exists in E as [b [Hb Ek]]. apply String.eqb_eq in Ek.
  apply NoDup_remove_2 in ND. rewrite app_nil_r in ND. apply ND.
  rewrite Ek. now apply in_map.
Qed.

(** X10. Account deduplication keeps one account per key, keeps an
    account for every key of the input, and is idempotent: run on its own
    result it drops nothing more. *)
Theorem X10_account_dedup_is_idempotent (accountsData : list Account) :
  let kept := uniqueAccounts (dedupAccounts accountsData) in
  NoDup (map accountKey kept)
  /\ (forall a, In a accountsData -> In (accountKey a) (map accountKey kept))
  /\ (forall a, In a kept -> In a accountsData)
  /\ uniqueAccounts (dedupAccounts kept) = kept.
Proof.
  cbv zeta. split; [apply unique_keys_NoDup|]. split; [|split].
  - induction accountsData as [|x l IH] using rev_ind; [intros ? []|].
    intros a Ha. rewrite unique_snoc, map_app, in_app_iff.
    apply in_app_iff in Ha as [Ha|[<-|[]]]; [left; now apply IH|].
    destruct (existsb _ l) eqn:E.
    + left. apply existsb_exists in E as [b [Hb Ek]]. apply String.eqb_eq in Ek.
      rewrite Ek. now apply IH.
    + right. now left.
  - intros a. apply unique_keys_incl.
  - apply dedup_fixed, unique_keys_NoDup.
Qed.

(** *** Exact duplicates *)

Lemma Qeq_bool_comm (x y : Q) : Qeq_bool x y = Qeq_bool y x.
Proof.
  destruct (Qeq_bool x y) eqn:E, (Qeq_bool y x) eqn:E'; try reflexivity.
  - apply Qeq_bool_iff in E. symmetry in E. apply Qeq_bool_iff in E. congruence.
  - apply Qeq_bool_iff in E'. symmetry in E'. apply Qeq_bool_iff in E'. congruence.
Qed.

Lemma sig_eqb_refl (a : Signature) : sig_eqb a a = true.
Proof.
  destruct a as [[[s q] v] c]. unfold sig_eqb.
  rewrite String.eqb_refl.
  now rewrite !(proj2 (Qeq_bool_iff _ _) (Qeq_refl _)).
Qed.

Lemma sig_eqb_comm (a b : Signature) : sig_eqb a b = sig_eqb b a.
Proof.
  destruct a as [[[s q] v] c], b as [[[s' q'] v'] c']. unfold sig_eqb.
  now rewrite String.eqb_sym, (Qeq_bool_comm q), (Qeq_bool_comm v), (Qeq_bool_comm c).
Qed.

Lemma unique_fold_state (all : list Position) (u : list Position) :
  fold_left unique_step all (u, map signature u)
  = (fst (fold_left unique_step all (u, map signature u)),
     map signature (fst (fold_left unique_step all (u, map signature u)))).
Proof.
  revert u. induction all as [|x all IH]; intros u; [reflexivity|].
  cbn [fold_left]. unfold unique_step at 2 4 6.
  destruct (seen_has (signature x) (map signature u)); cbn [negb].
  - apply IH.
  - replace (map signature u ++ [signature x])%list with (map signature (u ++ [x]))
      by (rewrite map_app; reflexivity).
    apply IH.
Qed.

Lemma uniqueInvestments_snoc (all : list Position) (x : Position) :
  uniqueInvestments (all ++ [x])
  = (uniqueInvestments all
     ++ (if seen_has (signature x) (map signature (uniqueInvestments all))
         then [] else [x]))%list.
Proof.
  unfold uniqueInvestments. rewrite fold_left_app. cbn [fold_left].
  pose proof (unique_fold_state all []) as S. cbn [map] in S.
  rewrite S. unfold unique_step. cbn [fst].
  destruct (seen_has _ _); cbn [negb fst]; [now rewrite app_nil_r | reflexivity].
Qed.

Lemma FOP_snoc {A} (R : A -> A -> Prop) (l : list A) (x : A) :
  ForallOrdPairs R l -> Forall (fun a => R a x) l -> ForallOrdPairs R (l ++ [x]).
Proof.
  induction 1 as [|a l Ha _ IH]; intros F; simpl.
  - constructor; constructor.
  - inversion F as [|? ? Rax F']; subst. constructor.
    + apply Forall_app. split; [exact Ha|]. constructor; [exact Rax | constructor].
    + now apply IH.
Qed.

(** X11. Removal of exact duplicates keeps the first row of every
    signature: no two surviving rows have the same symbol, quantity,
    market value and unit price, every row has a surviving row with its
    signature, and nothing is added. *)
Theorem X11_exact_duplicates_removed (all : list Position) :
  let kept := uniqueInvestments all in
  ForallOrdPairs (fun a b => sig_eqb (signature a) (signature b) = false) kept
  /\ (forall p, In p all ->
        exists q, In q kept /\ sig_eqb (signature p) (signature q) = true)
  /\ (forall q, In q kept -> In q all).
Proof.
  cbv zeta. split; [|split].
  - induction all as [|x all IH] using rev_ind; [constructor|].
    rewrite uniqueInvestments_snoc.
    destruct (seen_has _ _) eqn:E; [now rewrite app_nil_r|].
    apply FOP_snoc; [exact IH|]. apply Forall_forall. intros a Ha.
    rewrite sig_eqb_comm.
    destruct (sig_eqb (signature x) (signature a)) eqn:Es; [|reflexivity].
    assert (T : seen_has (signature x) (map signature (uniqueInvestments all)) = true).
    { apply existsb_exists. exists (signature a). split; [now apply in_map | exact Es]. }
    congruence.
  - induction all as [|x all IH] using rev_ind; [intros ? []|].
    intros p Hp. rewrite uniqueInvestments_snoc.
    apply in_app_iff in Hp as [Hp|[<-|[]]].
    + destruct (IH p Hp) as [q [Hq Hs]]. exists q. split; [|exact Hs].
      apply in_app_iff. now left.
    + destruct (seen_has _ _) eqn:E.
      * apply existsb_exists in E as [sg [Hsg Hs]].
        apply in_map_iff in Hsg as [q [<- Hq]]. exists q. split; [|exact Hs].
        apply in_app_iff. now left.
      * exists x. split; [apply in_app_iff; right; now left | apply sig_eqb_refl].
  - intros q. apply uniqueInvestments_incl.
Qed.

End DedupMore.

(** ** The fetch cycle *)

Section CycleFacts.
Import JS Differ Normalizer Fetcher LedgerWriter Cycle Samples.

Lemma le_id_newEntry (stamp iso entryType status : string) (details : Details)
      (runId : option string) :
  le_id (newEntry stamp iso entryType status details runId)
  = if truthy_ostr runId then tmpl runId else "workflow-" ++ stamp.
Proof.
  unfold newEntry. destruct (String.eqb entryType "position_change"); [reflexivity|].
  destruct (String.eqb entryType "data_collection"); reflexivity.
Qed.

Lemma phase_newEntry (stamp iso entryType status : string) (details : Details)
      (runId : option string) :
  phase (newEntry stamp iso entryType status details runId) = entryType
  /\ LedgerWriter.status (newEntry stamp iso entryType status details runId) = status.
Proof.
  unfold newEntry. destruct (String.eqb entryType "position_change"); [now split|].
  destruct (String.eqb entryType "data_collection"); now split.
Qed.

Lemma truthy_prefixed (a b : string) : truthy_str a = true -> truthy_str (a ++ b) = true.
Proof. destruct a; [discriminate | reflexivity]. Qed.

Lemma changeCalls_ids (fmt : Formats) (clock : Clock) (runId : string) (n : nat)
      (significant : list PositionChange) :
  truthy_str runId = true ->
  map entryId (changeCalls fmt clock runId n significant)
  = map (fun c => runId ++ "-" ++ symbol c) (filter logged significant).
Proof.
  intros Hr. revert n. induction significant as [|c l IH]; intros n; [reflexivity|].
  cbn [changeCalls filter]. rewrite map_app, IH.
  unfold changeCall, logged.
  destruct (type c); cbn [ChangeType_eqb negb map app];
    try reflexivity;
    unfold entryId, entryOf; cbn [c_stamp c_iso c_entryType c_status c_details c_runId];
    rewrite le_id_newEntry; cbn [truthy_ostr tmpl];
    rewrite (truthy_prefixed runId _ Hr); reflexivity.
Qed.

Lemma changeCalls_length (fmt : Formats) (clock : Clock) (runId : string) (n : nat)
      (significant : list PositionChange) :
  List.length (changeCalls fmt clock runId n significant)
  = List.length (filter logged significant).
Proof.
  revert n. induction significant as [|c l IH]; intros n; [reflexivity|].
  cbn [changeCalls filter]. rewrite length_app, IH.
  unfold changeCall, logged. destruct (type c); reflexivity.
Qed.

(** Among the changes of a diff, the significance filter keeps every
    change that is logged. *)
Lemma logged_significant (env : Thresholds) (oldData newData : PortfolioData) :
  filter logged (significantChanges env (detectChanges env oldData newData))
  = filter logged (detectChanges env oldData newData).
Proof.
  unfold significantChanges.
  assert (H : forall c, In c (detectChanges env oldData newData) ->
                        logged c = true -> isSignificantChange env c = true).
  { intros c Hc Hl. destruct (detected_significant env oldData newData c Hc) as [E|E];
      [|exact E]. unfold logged in Hl. rewrite E in Hl. discriminate. }
  revert H. generalize (detectChanges env oldData newData) as l.
  induction l as [|c l IH]; intros H; [reflexivity|].
  cbn [filter]. destruct (isSignificantChange env c) eqn:E.
  - cbn [filter]. destruct (logged c); [f_equal|]; apply IH; intros; apply H; auto;
      now right.
  - destruct (logged c) eqn:L.
    + rewrite (H c (or_introl eq_refl) L) in E. discriminate.
    + apply IH. intros c' Hc'. apply H. now right.
Qed.

(** *** One logged change per symbol *)

Lemma loggedCount_cons (s : string) (c : PositionChange) (l : list PositionChange) :
  loggedCount s (c :: l)
  = ((if (logged c && String.eqb (symbol c) s)%bool then 1 else 0) + loggedCount s l)%nat.
Proof.
  unfold loggedCount, count_of, logged. cbn [filter].
  destruct (type c); cbn [ChangeType_eqb negb andb];
    destruct (String.eqb (symbol c) s); cbn [List.length]; lia.
Qed.

Lemma loggedCount_In (s : string) (c : PositionChange) (l : list PositionChange) :
  In c l -> logged c = true -> symbol c = s -> (1 <= loggedCount s l)%nat.
Proof.
  induction l as [|x l IH]; [intros []|].
  intros [->|H] Hl Hs; rewrite loggedCount_cons.
  - rewrite Hl, Hs, String.eqb_refl. cbn. lia.
  - specialize (IH H Hl Hs). lia.
Qed.

Lemma logged_symbols_NoDup (l : list PositionChange) :
  (forall s, (loggedCount s l <= 1)%nat) ->
  NoDup (map symbol (filter logged l)).
Proof.
  induction l as [|c l IH]; intros H; [constructor|].
  assert (Hl : forall s, (loggedCount s l <= 1)%nat).
  { intros s. specialize (H s). rewrite loggedCount_cons in H. lia. }
  cbn [filter]. destruct (logged c) eqn:L; [|now apply IH].
  cbn [map]. constructor; [|now apply IH].
  intros Hin. apply in_map_iff in Hin as [c' [Hs Hc']].
  apply filter_In in Hc' as [Hc' L'].
  pose proof (loggedCount_In (symbol c) c' l Hc' L' Hs) as G.
  specialize (H (symbol c)). rewrite loggedCount_cons, L, String.eqb_refl in H.
  cbn in H. lia.
Qed.

Lemma changed_for_value_count (env : Thresholds) (n : Obj Position) (s : string)
      (po : Position) :
  (count_of value_change s (changed_for env n s po)
   <= if obj_has s n then 1 else 0)%nat.
Proof.
  unfold changed_for, obj_has. destruct (obj_get s n) as [pn|]; [|cbn; lia].
  rewrite count_of_app.
  destruct (neqb (marketValue po) (marketValue pn) && gtb (marketValue po) 0)%bool;
    [destruct (isSignificantChange env _)|];
    destruct (neqb (shares po) (shares pn));
    unfold count_of; cbn; try rewrite String.eqb_refl; cbn; lia.
Qed.

Lemma detect_loggedCount (env : Thresholds) (oldData newData : PortfolioData) (s : string) :
  (loggedCount s (detectChanges env oldData newData) <= 1)%nat.
Proof.
  unfold loggedCount, detectChanges. rewrite !count_of_app.
  rewrite !count_new_changes, !count_closed_changes by apply flatten_NoDup.
  rewrite !count_changed_changes by apply flatten_NoDup.
  cbn [ChangeType_eqb andb].
  set (o := flatten (positions oldData)). set (n := flatten (positions newData)).
  pose proof (fun po => changed_for_value_count env n s po) as V.
  assert (Z1 : forall po, count_of new s (changed_for env n s po) = 0%nat).
  { intros po. apply count_of_none. intros c Hc. left.
    apply changed_for_type in Hc. destruct Hc; congruence. }
  assert (Z2 : forall po, count_of closed s (changed_for env n s po) = 0%nat).
  { intros po. apply count_of_none. intros c Hc. left.
    apply changed_for_type in Hc. destruct Hc; congruence. }
  unfold obj_has in *. destruct (obj_get s o) as [po|].
  - specialize (V po). rewrite Z1, Z2. destruct (obj_get s n); cbn in *; lia.
  - destruct (obj_get s n); cbn; lia.
Qed.

Lemma append_inj (p a b : string) : p ++ a = p ++ b -> a = b.
Proof. induction p as [|c p IH]; simpl; [auto|]. intros [= H]. now apply IH. Qed.

Lemma append_longer (p : string) (c : ascii) (r : string) : p <> p ++ String c r.
Proof.
  induction p as [|a p IH]; simpl; [discriminate|].
  intros [= H]. now apply IH.
Qed.

End CycleFacts.

Section CycleClaims.
Import JS Differ Normalizer Fetcher LedgerWriter Cycle Samples.

Variables (env : Thresholds) (patterns : CategorizationPatterns)
          (fmt : Formats) (clock : Clock) (timestamp : string).

(** X12. A cycle returns true exactly when authentication succeeded and
    some investment row came back; otherwise it writes no positions file
    and makes a single ledger call, which appends a [data_collection]
    entry with status [failed], an id starting with [workflow-] and an
    all-zero summary. *)
Theorem X12_failed_cycle_logs_one_failure
        (file : PositionsFile) (authenticated : bool)
        (accountsData : list Account) (investmentsData : PowensInvestmentData)
        (crypto : CryptoOutcome) :
  let out := fetchAndUpdate env patterns fmt clock timestamp file authenticated
                            accountsData investmentsData crypto in
  (result out = true <-> authenticated = true /\ investments investmentsData <> [])
  /\ (result out = false ->
      written out = None
      /\ exists c, ledgerCalls out = [c]
                   /\ phase (entryOf c) = "data_collection"
                   /\ status (entryOf c) = "failed"
                   /\ entryId c = "workflow-" ++ callStamp clock 0
                   /\ summary (entryOf c)
                      = mkSummary (Some 0) (Some 0) (Some 0) (Some 0)
                                  (Some 0) (Some 0) (Some 0)).
Proof.
  cbv zeta. unfold fetchAndUpdate.
  destruct authenticated; cbn [negb].
  - destruct (investments investmentsData) as [|i l]; cbn [result written ledgerCalls].
    + split; [split; [discriminate | intros [_ H]; now elim H]|].
      intros _. split; [reflexivity|]. eexists. split; [reflexivity|].
      repeat split.
    + split; [split; [intros _; split; [reflexivity | discriminate] | reflexivity]|].
      discriminate.
  - cbn [result written ledgerCalls].
    split; [split; [discriminate | intros [H _]; discriminate H]|].
    intros _. split; [reflexivity|]. eexists. split; [reflexivity|].
    repeat split.
Qed.

Lemma changeCalls_phases (runId : string) (n : nat) (significant : list PositionChange) :
  map (fun c => phase (entryOf c)) (changeCalls fmt clock runId n significant)
  = map (fun c => match type c with
                  | value_change => "price_update"
                  | _ => "position_change"
                  end) (filter logged significant).
Proof.
  revert n. induction significant as [|c l IH]; intros n; [reflexivity|].
  cbn [changeCalls filter]. rewrite map_app, IH.
  unfold changeCall, logged.
  destruct (type c) eqn:T; cbn [ChangeType_eqb negb map app]; rewrite ?T; reflexivity.
Qed.

(** X13. A successful cycle writes the new snapshot and makes one ledger
    call for every [new], [closed] and [value_change] of the diff, in the
    order of the diff ([position_change] entries for the first two,
    [price_update] for the third), none for a share change, and one
    closing [data_collection] call; on a readable ledger whose writes
    succeed, the ledger grows by exactly those entries. *)
Theorem X13_successful_cycle_ledger_shape
        (file : PositionsFile)
        (accountsData : list Account) (investmentsData : PowensInvestmentData)
        (crypto : CryptoOutcome) :
  investments investmentsData <> [] ->
  let out := fetchAndUpdate env patterns fmt clock timestamp file true
                            accountsData investmentsData crypto in
  let newData :=
    addCrypto (transformToInternalFormat timestamp patterns accountsData investmentsData)
              crypto in
  let changes := detectChanges env (loadPreviousPositions file) newData in
  written out = Some newData
  /\ map (fun c => phase (entryOf c)) (ledgerCalls out)
     = (map (fun c => match type c with
                      | value_change => "price_update"
                      | _ => "position_change"
                      end) (filter logged changes)
        ++ ["data_collection"])%list
  /\ List.length (ledgerCalls out) = S (List.length (filter logged changes))
  /\ (forall ledger,
        stored_entries (fileAfterAll (Stored ledger) (ledgerCalls out))
        = (entries ledger ++ map entryOf (ledgerCalls out))%list).
Proof.
  intros Hinv. cbv zeta. unfold fetchAndUpdate. cbn [negb].
  destruct (investments investmentsData) as [|i l] eqn:E; [now elim Hinv|].
  cbn [result written ledgerCalls]. split; [reflexivity|]. split; [|split].
  - rewrite map_app, changeCalls_phases, logged_significant. reflexivity.
  - rewrite length_app, changeCalls_length, logged_significant. cbn. lia.
  - intros ledger. apply (ledger_run_grows (Stored ledger)). discriminate.
Qed.




(** X15. The entries one cycle appends have pairwise distinct ids. *)
Theorem X15_entry_ids_of_a_cycle_are_distinct
        (file : PositionsFile) (authenticated : bool)
        (accountsData : list Account) (investmentsData : PowensInvestmentData)
        (crypto : CryptoOutcome) :
  NoDup (map entryId
             (ledgerCalls (fetchAndUpdate env patterns fmt clock timestamp file authenticated
                                          accountsData investmentsData crypto))).
Proof.
  unfold fetchAndUpdate.
  destruct authenticated; cbn [negb]; [|repeat constructor; intros []].
  destruct (investments investmentsData); cbn [ledgerCalls];
    [repeat constructor; intros []|].
  rewrite map_app, changeCalls_ids by reflexivity. rewrite logged_significant.
  cbn [map]. apply NoDup_snoc.
  - set (changes := detectChanges _ _ _).
    pose proof (logged_symbols_NoDup changes (detect_loggedCount _ _ _)) as ND.
    revert ND. generalize (filter logged changes) as cs.
    induction cs as [|c cs IH]; intros ND; [constructor|].
    cbn [map] in *. inversion ND as [|? ? NI ND']; subst. constructor; [|now apply IH].
    intros H. apply in_map_iff in H as [c' [Hs Hc']]. apply append_inj in Hs.
    apply append_inj in Hs. apply NI. rewrite <- Hs. now apply in_map.
  - unfold entryId, entryOf, summaryCall.
    cbn [c_stamp c_iso c_entryType c_status c_details c_runId].
    rewrite le_id_newEntry. cbn [truthy_ostr tmpl].
    rewrite (truthy_prefixed "fetch-" _ eq_refl).
    intros H. apply in_map_iff in H as [c [Hs _]].
    symmetry in Hs. exact (append_longer _ _ _ Hs).
Qed.

Lemma or0_value (x : Q) : exists v, or0 (Some x) = Some v /\ v == x.
Proof.
  unfold or0. cbn [truthy_onum]. destruct (truthy_num x) eqn:E.
  - exists x. split; reflexivity.
  - exists 0. split; [reflexivity|].
    unfold truthy_num in E. apply negb_false_iff in E.
    apply Qeq_bool_iff in E. now symmetry.
Qed.

(** X16. The snapshot a successful cycle writes has as net worth the sum
    of the balances of the kept accounts, plus the market values of the
    crypto positions when the crypto fetch succeeded; when it did not, the
    snapshot is the normaliser's, untouched.  The closing entry records
    that net worth and its difference with the net worth of the previous
    snapshot. *)
Theorem X16_net_worth_and_closing_figures
        (file : PositionsFile)
        (accountsData : list Account) (investmentsData : PowensInvestmentData)
        (crypto : CryptoOutcome) :
  investments investmentsData <> [] ->
  let out := fetchAndUpdate env patterns fmt clock timestamp file true
                            accountsData investmentsData crypto in
  let banking := transformToInternalFormat timestamp patterns accountsData investmentsData in
  exists newData calls closing,
    written out = Some newData
    /\ ledgerCalls out = (calls ++ [closing])%list
    /\ totalNetWorth newData
       == sum (map balance (uniqueAccounts (dedupAccounts accountsData)))
          + match crypto with
            | CryptoFetched l => sum (map cp_marketValue l)
            | _ => 0
            end
    /\ (crypto = NotConfigured \/ crypto = CryptoFailed -> newData = banking)
    /\ (exists v, totalPortfolioValue (summary (entryOf closing)) = Some v
                  /\ v == totalNetWorth newData)
    /\ (exists v, changeFromLastRun (summary (entryOf closing)) = Some v
                  /\ v == totalNetWorth newData
                          - totalNetWorth (loadPreviousPositions file)).
Proof.
  intros Hinv. cbv zeta. unfold fetchAndUpdate. cbn [negb].
  destruct (investments investmentsData) as [|i l] eqn:E; [now elim Hinv|].
  cbn [written ledgerCalls].
  eexists. eexists. eexists. split; [reflexivity|]. split; [reflexivity|].
  assert (B : totalNetWorth (transformToInternalFormat timestamp patterns
                                                       accountsData investmentsData)
              == sum (map balance (uniqueAccounts (dedupAccounts accountsData)))).
  { unfold transformToInternalFormat. cbn [totalNetWorth].
    assert (G : forall (l : list Account) (acc : Q),
               fold_left (fun sum a => sum + balance a) l acc
               = fold_left Qplus (map balance l) acc).
    { induction l0 as [|a l0 IH]; intros acc; simpl; [reflexivity | apply IH]. }
    unfold sum. rewrite G. reflexivity. }
  split; [|split; [|split]].
  - destruct crypto as [| |cps]; cbn [addCrypto totalNetWorth]; rewrite B; try ring.
    assert (G : forall (l : list CryptoPosition) (acc : Q),
               fold_left (fun sum pos => sum + cp_marketValue pos) l acc
               = fold_left Qplus (map cp_marketValue l) acc).
    { induction l0 as [|a l0 IH]; intros acc; simpl; [reflexivity | apply IH]. }
    unfold sum. rewrite G. reflexivity.
  - intros [->| ->]; reflexivity.
  - unfold entryOf, summaryCall.
    cbn [c_stamp c_iso c_entryType c_status c_details c_runId].
    unfold newEntry. cbn [String.eqb Ascii.eqb Bool.eqb d_summary summary totalPortfolioValue].
    apply or0_value.
  - unfold entryOf, summaryCall.
    cbn [c_stamp c_iso c_entryType c_status c_details c_runId].
    unfold newEntry. cbn [String.eqb Ascii.eqb Bool.eqb d_summary summary changeFromLastRun].
    apply or0_value.
Qed.

End CycleClaims.

Section CycleExamples.
Import JS Differ Normalizer Fetcher LedgerWriter Cycle Samples.

Lemma X13_successful_cycle_ledger_shape_witness :
  let accs := [bank_account 1 "FR01"] in
  let data := mkInvestmentData [row "VTI" 5 500 100 1] 500 in
  let out := fetchAndUpdate defaultThresholds Normalizer.fallbackPatterns
                            (mkFormats (fun _ => "?") (fun _ => "?"))
                            (mkClock "2024" (fun _ => "2024") (fun _ => "2024"))
                            "t" NoPositions true accs data NotConfigured in
  investments data <> []
  /\ map (fun c => phase (entryOf c)) (ledgerCalls out)
     = ["position_change"; "data_collection"].
Proof.
  intros accs data out.
  assert (H : investments data <> []) by discriminate.
  split; [exact H|].
  exact (proj1 (proj2 (X13_successful_cycle_ledger_shape
                         defaultThresholds Normalizer.fallbackPatterns
                         (mkFormats (fun _ => "?") (fun _ => "?"))
                         (mkClock "2024" (fun _ => "2024") (fun _ => "2024"))
                         "t" NoPositions accs data NotConfigured H))).
Defined.

Lemma X16_net_worth_and_closing_figures_witness :
  let accs := [bank_account 1 "FR01"; bank_account 2 "FR01"] in
  let data := mkInvestmentData [row "VTI" 5 500 100 1] 500 in
  investments data <> []
  /\ exists newData,
       written (fetchAndUpdate defaultThresholds Normalizer.fallbackPatterns
                               (mkFormats (fun _ => "?") (fun _ => "?"))
                               (mkClock "2024" (fun _ => "2024") (fun _ => "2024"))
                               "t" NoPositions true accs data NotConfigured)
       = Some newData
       /\ totalNetWorth newData == 100.
Proof.
  intros accs data.
  assert (H : investments data <> []) by discriminate.
  split; [exact H|].
  destruct (X16_net_worth_and_closing_figures
              defaultThresholds Normalizer.fallbackPatterns
              (mkFormats (fun _ => "?") (fun _ => "?"))
              (mkClock "2024" (fun _ => "2024") (fun _ => "2024"))
              "t" NoPositions accs data NotConfigured H)
    as [newData [calls [closing [Hw [_ [Hn _]]]]]].
  exists newData. split; [exact Hw|]. rewrite Hn. reflexivity.
Defined.

End CycleExamples.

(** ** Configuration *)

Section ConfigFacts.
Import JS Fetcher.

Lemma envOr_truthy (v : option string) :
  truthy_str (envOr v) = truthy_ostr v.
Proof.
  unfold envOr. destruct (truthy_ostr v) eqn:E; [|reflexivity].
  destruct v as [s|]; [exact E | discriminate].
Qed.

Lemma envOr_set (v : option string) (s : string) :
  truthy_ostr v = true -> (envOr v = s <-> v = Some s).
Proof.
  intros H. unfold envOr. rewrite H. destruct v as [t|]; [|discriminate].
  cbn. split; [now intros -> | now intros [= ->]].
Qed.

(** X17. [loadConfig] returns a configuration exactly when the four
    variables are set and non-empty, and then returns their values;
    otherwise the error names, in the order domain, client_id,
    client_secret, user_id, exactly the keys whose variable is unset or
    empty. *)
Theorem X17_loadConfig_requires_all_four (env : Env) :
  let ok v := truthy_ostr v in
  (forall config,
      loadConfig env = inr config
      <-> (ok (POWENS_DOMAIN env) && ok (POWENS_CLIENT_ID env)
           && ok (POWENS_CLIENT_SECRET env) && ok (POWENS_USER_ID env))%bool = true
          /\ POWENS_DOMAIN env = Some (domain config)
          /\ POWENS_CLIENT_ID env = Some (client_id config)
          /\ POWENS_CLIENT_SECRET env = Some (client_secret config)
          /\ POWENS_USER_ID env = Some (user_id config))
  /\ (forall message,
        loadConfig env = inl message ->
        message
        = "Missing required config: "
          ++ String.concat ", "
               ((if ok (POWENS_DOMAIN env) then [] else ["domain"])
                ++ (if ok (POWENS_CLIENT_ID env) then [] else ["client_id"])
                ++ (if ok (POWENS_CLIENT_SECRET env) then [] else ["client_secret"])
                ++ (if ok (POWENS_USER_ID env) then [] else ["user_id"]))%list).
Proof.
  cbv zeta. unfold loadConfig, missingKeys, configEntries.
  cbn [filter snd domain client_id client_secret user_id].
  rewrite !envOr_truthy.
  destruct (truthy_ostr (POWENS_DOMAIN env)) eqn:E1,
           (truthy_ostr (POWENS_CLIENT_ID env)) eqn:E2,
           (truthy_ostr (POWENS_CLIENT_SECRET env)) eqn:E3,
           (truthy_ostr (POWENS_USER_ID env)) eqn:E4;
    cbn [negb map fst List.length Nat.ltb Nat.leb andb app];
    (split; [intros config; split; [try discriminate | try (intros [H _]; discriminate H)]
            | intros message; try discriminate; intros [= <-]; reflexivity]).
  - intros [= <-]. cbn [domain client_id client_secret user_id].
    repeat split; now apply envOr_set.
  - intros [_ [H1 [H2 [H3 H4]]]]. f_equal. destruct config as [d c s u].
    cbn [domain client_id client_secret user_id] in *.
    f_equal; now apply envOr_set.
Qed.

End ConfigFacts.

(** ** Token discovery, continued *)

Section DiscoveryMore.
Import JS Crypto Wallets CryptoSamples.

Lemma discover_fold_snoc (pre : list TokenTx) (tx : TokenTx) :
  fold_left discover_step (pre ++ [tx]) [] = discover_step (fold_left discover_step pre []) tx.
Proof. now rewrite fold_left_app. Qed.

Lemma last_snoc {A} (l : list A) (x d : A) : last (l ++ [x]) d = x.
Proof.
  induction l as [|a l IH]; [reflexivity|].
  simpl. destruct (l ++ [x])%list eqn:E; [destruct l; discriminate | exact IH].
Qed.

(** After any run of transfers, the map holds for each address the
    summary of the transfers of that address. *)
Lemma discover_fold_entry (txs : list TokenTx) (a : string) :
  obj_get a (fold_left discover_step txs []) = entry_of a (transfers_of a txs).
Proof.
  induction txs as [|tx pre IH] using rev_ind; [reflexivity|].
  rewrite discover_fold_snoc. unfold transfers_of. rewrite filter_app. cbn [filter].
  fold (transfers_of a pre).
  set (m := fold_left discover_step pre []) in *.
  unfold discover_step, tx_address.
  destruct (contractAddress tx) as [raw|]; [|now rewrite app_nil_r].
  destruct (truthy_str (toLowerCase raw)); cbn [negb]; [|now rewrite app_nil_r].
  destruct (String.eqb (toLowerCase raw) a) eqn:E.
  - apply String.eqb_eq in E. subst a. rewrite IH.
    destruct (transfers_of (toLowerCase raw) pre) as [|f r]; cbn [entry_of app].
    + now rewrite obj_get_set_eq.
    + rewrite obj_get_set_eq. cbn [dt_address firstSeen transactionCount].
      f_equal. f_equal.
      * now rewrite last_snoc.
      * cbn [List.length]. rewrite length_app. cbn [List.length]. lia.
  - apply String.eqb_neq in E. rewrite app_nil_r.
    destruct (obj_get (toLowerCase raw) m); now rewrite obj_get_set_neq.
Qed.

(** X18. Each token that discovery returns summarises the transfers of
    its address: the count is the number of those transfers, [firstSeen]
    the time stamp of the first and [lastSeen] that of the last, in the
    order of the explorer's listing. *)
Theorem X18_discovered_token_summarises_its_transfers
        (config : CryptoConfigV2) (chainConfig : ChainConfigV2)
        (status : string) (txs : list TokenTx) (d : DiscoveredToken) :
  In d (discoverTokens config chainConfig (ExplorerData status (Some txs))) ->
  exists first rest,
    transfers_of (dt_address d) txs = first :: rest
    /\ transactionCount d = Z.of_nat (List.length (first :: rest))
    /\ firstSeen d = timeStamp first
    /\ lastSeen d = timeStamp (last rest first).
Proof.
  intros Hd.
  assert (Hs : In d (scan txs)).
  { unfold discoverTokens in Hd.
    destruct (negb (enabled (discovery config))); [destruct Hd|].
    destruct (negb (truthy_str (explorerApiUrl chainConfig))); [destruct Hd|].
    destruct (negb (String.eqb status "1")); [destruct Hd | exact Hd]. }
  unfold scan, obj_values in Hs. apply in_map_iff in Hs as [[k v] [Hv Hin]].
  cbn [snd] in Hv. subst v.
  assert (Hk : dt_address d = k).
  { apply (discover_fold_keyed txs []) in Hin; [exact Hin | intros ? ? []]. }
  apply obj_In_get in Hin; [|apply discover_fold_NoDup; constructor].
  rewrite discover_fold_entry in Hin. rewrite Hk.
  destruct (transfers_of k txs) as [|f r]; [discriminate|].
  cbn [entry_of] in Hin. injection Hin as <-.
  exists f, r. repeat split.
Qed.

Lemma X18_discovered_token_summarises_its_transfers_witness :
  In (mkDiscovered "0xabc" "100" "102" 3)
     (discoverTokens config ethereum (ExplorerData "1" (Some history)))
  /\ exists first rest,
       transfers_of "0xabc" history = first :: rest
       /\ 3%Z = Z.of_nat (List.length (first :: rest)).
Proof.
  assert (H : In (mkDiscovered "0xabc" "100" "102" 3)
                 (discoverTokens config ethereum (ExplorerData "1" (Some history))))
    by (left; reflexivity).
  split; [exact H|].
  destruct (X18_discovered_token_summarises_its_transfers
              config ethereum "1" history _ H) as [f [r [H1 [H2 _]]]].
  exists f, r. split; [exact H1 | exact H2].
Defined.

End DiscoveryMore.

(** ** Token classes and prices *)

Section ClassifyFacts.
Import JS Crypto CryptoSamples.

Lemma upper_lower_ascii (c : ascii) : upper_ascii (lower_ascii c) = upper_ascii c.
Proof. destruct c as [[] [] [] [] [] [] [] []]; reflexivity. Qed.

Lemma upper_upper_ascii (c : ascii) : upper_ascii (upper_ascii c) = upper_ascii c.
Proof. destruct c as [[] [] [] [] [] [] [] []]; reflexivity. Qed.

Lemma toUpperCase_lower (s : string) : toUpperCase (toLowerCase s) = toUpperCase s.
Proof. induction s as [|c s IH]; simpl; [reflexivity|]. now rewrite upper_lower_ascii, IH. Qed.

Lemma toUpperCase_upper (s : string) : toUpperCase (toUpperCase s) = toUpperCase s.
Proof. induction s as [|c s IH]; simpl; [reflexivity|]. now rewrite upper_upper_ascii, IH. Qed.

(** X19. The class of a token does not depend on the case of its symbol
    and name, it is one of six classes, and a symbol that starts with W or
    w always gives [wrapped], whatever the name says. *)
Theorem X19_token_class_ignores_case (symbol name : string) :
  classifyToken (toLowerCase symbol) (toLowerCase name) = classifyToken symbol name
  /\ classifyToken (toUpperCase symbol) (toUpperCase name) = classifyToken symbol name
  /\ In (classifyToken symbol name)
        ["stablecoin"; "wrapped"; "liquidity_pool"; "staking"; "governance"; "utility"]
  /\ (startsWith (toUpperCase symbol) "W" = true -> classifyToken symbol name = "wrapped").
Proof.
  split; [|split; [|split]].
  - unfold classifyToken. now rewrite !toUpperCase_lower.
  - unfold classifyToken. now rewrite !toUpperCase_upper.
  - unfold classifyToken.
    repeat match goal with
           | |- context [if ?b then _ else _] => destruct b
           end; simpl; tauto.
  - intros H. unfold classifyToken. rewrite H, orb_true_r.
    destruct (toUpperCase symbol) as [|c r]; [discriminate|].
    unfold startsWith in H. cbn [String.prefix] in H.
    destruct (Ascii.ascii_dec "W" c) as [<-|N]; [reflexivity | discriminate].
Qed.

End ClassifyFacts.

Section PriceCacheMore.
Import JS Crypto CryptoSamples.

(** X20. A price fetched on a miss is served from the cache afterwards:
    a later lookup of the same token, made while the stored entry is
    younger than the expiry window, returns that price without a request
    and without changing the configuration; the entries of other keys are
    as they were. *)
Theorem X20_fetched_price_is_served_from_cache
        (config : CryptoConfigV2) (now stored later stored' : Z)
        (usd : option Q) (reply' : PriceReply)
        (symbol : string) (coingeckoId : option string) :
  cacheLookup config now (priceKey symbol coingeckoId) = None ->
  inject_Z (later - stored) < cacheExpiryHours (discovery config) * 60 * 60 * 1000 ->
  let first := getTokenPrice config now (PriceData usd) stored symbol coingeckoId in
  getTokenPrice (snd first) later reply' stored' symbol coingeckoId = first
  /\ forall k, k <> priceKey symbol coingeckoId ->
               obj_get k (priceCache (snd first)) = obj_get k (priceCache config).
Proof.
  intros Hmiss Hage. cbv zeta. unfold getTokenPrice at 2 3 4. rewrite Hmiss.
  cbn [snd fst]. split.
  - unfold getTokenPrice, cacheLookup.
    cbn [priceCache with_priceCache discovery]. rewrite obj_get_set_eq.
    cbn [timestamp price]. apply ltb_spec in Hage. rewrite Hage. reflexivity.
  - intros k Hk. cbn [priceCache with_priceCache].
    apply obj_get_set_neq. congruence.
Qed.

Lemma X20_fetched_price_is_served_from_cache_witness :
  cacheLookup config 3601000 (priceKey "USDC" (Some "usd-coin")) = None
  /\ inject_Z (3700000 - 3601005) < cacheExpiryHours (discovery config) * 60 * 60 * 1000
  /\ fst (getTokenPrice
            (snd (getTokenPrice config 3601000 (PriceData (Some 2)) 3601005
                                "USDC" (Some "usd-coin")))
            3700000 PriceError 3700000 "USDC" (Some "usd-coin"))
     == 2.
Proof.
  assert (H1 : cacheLookup config 3601000 (priceKey "USDC" (Some "usd-coin")) = None)
    by reflexivity.
  assert (H2 : inject_Z (3700000 - 3601005)
               < cacheExpiryHours (discovery config) * 60 * 60 * 1000)
    by reflexivity.
  split; [exact H1|]. split; [exact H2|].
  rewrite (proj1 (X20_fetched_price_is_served_from_cache
                    config 3601000 3601005 3700000 3700000 (Some 2) PriceError
                    "USDC" (Some "usd-coin") H1 H2)).
  reflexivity.
Defined.

End PriceCacheMore.

(** ** The wallet scan *)

Section ScanMore.
Import JS Crypto Wallets CryptoSamples.
Variable w : World.

Lemma same_settings_refl (c : CryptoConfigV2) : same_settings c c.
Proof. repeat split. Qed.

Lemma same_settings_trans (a b c : CryptoConfigV2) :
  same_settings a b -> same_settings b c -> same_settings a c.
Proof. unfold same_settings. intros [H1 [H2 H3]] [H4 [H5 H6]]. repeat split; congruence. Qed.

Lemma getTokenPrice_settings (config : CryptoConfigV2) (now : Z) (reply : PriceReply)
      (stored : Z) (symbol : string) (coingeckoId : option string) :
  same_settings config (snd (getTokenPrice config now reply stored symbol coingeckoId)).
Proof.
  unfold getTokenPrice. destruct (cacheLookup _ _ _); [apply same_settings_refl|].
  destruct reply; repeat split.
Qed.

(** What [getTokenBalance] returns: nothing, or a non-zero balance valued
    at its price; the settings are not touched. *)
Lemma getTokenBalance_result (config : CryptoConfigV2) (tokenInfo : TokenInfo) :
  same_settings config (snd (getTokenBalance w config tokenInfo))
  /\ forall b, fst (getTokenBalance w config tokenInfo) = Some b ->
               ~ tb_balance b == 0 /\ valueUsd b = tb_balance b * priceUsd b.
Proof.
  unfold getTokenBalance. destruct (balanceOf w _) as [q|];
    [|split; [apply same_settings_refl | discriminate]].
  destruct (Qeq_bool q 0) eqn:E; [split; [apply same_settings_refl | discriminate]|].
  pose proof (getTokenPrice_settings config (clock w)
                (priceReply w (priceKey (ti_symbol tokenInfo) (ti_coingeckoId tokenInfo)))
                (clock w) (ti_symbol tokenInfo) (ti_coingeckoId tokenInfo)) as S.
  destruct (getTokenPrice _ _ _ _ _ _) as [p c']. cbn [fst snd] in *.
  split; [exact S|]. intros b [= <-]. cbn [tb_balance valueUsd priceUsd].
  split; [|reflexivity]. intros Z. apply Qeq_bool_iff in Z. congruence.
Qed.

Lemma keep_balance_ok (config : CryptoConfigV2) (tokenInfo : TokenInfo)
      (c : CryptoConfigV2) (toks : list TokenBalance) (res : list string) :
  same_settings config c ->
  Forall (kept_balance (minValueUsd (discovery config))) toks ->
  scan_ok config (keep_balance (mkScan toks c res) (getTokenBalance w c tokenInfo)).
Proof.
  intros S F. destruct (getTokenBalance_result c tokenInfo) as [S' R].
  unfold keep_balance. destruct (getTokenBalance w c tokenInfo) as [[b|] c'];
    cbn [fst snd tokens cfg researched] in *.
  - pose proof (same_settings_trans _ _ _ S S') as S2.
    destruct (geb (valueUsd b) (minValueUsd (discovery c'))) eqn:G;
      (split; [exact S2|]); cbn [tokens]; [|exact F].
    apply Forall_app. split; [exact F|]. constructor; [|constructor].
    destruct (R b eq_refl) as [R1 R2]. split; [exact R1|]. split; [exact R2|].
    apply geb_spec in G. destruct S2 as [D _]. now rewrite D in G.
  - split; [exact (same_settings_trans _ _ _ S S') | exact F].
Qed.

Lemma known_step_ok (config : CryptoConfigV2) (st : ScanState) (tokenInfo : TokenInfo) :
  scan_ok config st -> scan_ok config (known_step w st tokenInfo).
Proof.
  intros [S F]. unfold known_step. destruct st as [toks c res].
  now apply keep_balance_ok.
Qed.

Lemma discovered_step_ok (config : CryptoConfigV2) (chainName : string)
      (known : list TokenInfo) (st : ScanState) (d : DiscoveredToken) :
  scan_ok config st -> scan_ok config (discovered_step w chainName known st d).
Proof.
  intros [S F]. unfold discovered_step.
  destruct (alreadyKnown known d); [now split|].
  destruct (obj_get _ (tokenDatabase (cfg st))) as [metadata|].
  - destruct st as [toks c res]. now apply keep_balance_ok.
  - unfold researchToken. apply keep_balance_ok; [|exact F].
    destruct S as [S1 [S2 S3]]. repeat split; assumption.
Qed.

Lemma fold_ok {A} (step : ScanState -> A -> ScanState) (config : CryptoConfigV2) :
  (forall st x, scan_ok config st -> scan_ok config (step st x)) ->
  forall l st, scan_ok config st -> scan_ok config (fold_left step l st).
Proof.
  intros H l. induction l as [|x l IH]; intros st Hst; simpl; [exact Hst|].
  apply IH. now apply H.
Qed.

Lemma scan_is_ok (config : CryptoConfigV2) (chainName : string) :
  scan_ok config (getAllTokensForWallet w config chainName).
Proof.
  assert (I : scan_ok config (mkScan [] config [])).
  { split; [apply same_settings_refl | constructor]. }
  unfold getAllTokensForWallet.
  destruct (obj_get chainName (chains config)) as [chainConfig|]; [|exact I].
  set (known := match obj_get chainName (knownTokens config) with
                | Some l => l | None => [] end).
  assert (K : scan_ok config (fold_left (known_step w) known (mkScan [] config []))).
  { apply fold_ok; [intros; now apply known_step_ok | exact I]. }
  destruct (enabled (discovery config)); [|exact K].
  apply fold_ok; [intros; now apply discovered_step_ok | exact K].
Qed.

(** X21. Every token balance a wallet scan returns is non-zero, is valued
    at balance times price, and is worth at least the configured minimum;
    the scan leaves the discovery settings, the chains and the known
    tokens of the configuration as they were. *)
Theorem X21_scan_returns_only_valued_balances
        (config : CryptoConfigV2) (chainName : string) :
  let st := getAllTokensForWallet w config chainName in
  Forall (fun b => ~ tb_balance b == 0
                   /\ valueUsd b = tb_balance b * priceUsd b
                   /\ minValueUsd (discovery config) <= valueUsd b)
         (tokens st)
  /\ discovery (cfg st) = discovery config
  /\ chains (cfg st) = chains config
  /\ knownTokens (cfg st) = knownTokens config.
Proof.
  cbv zeta. destruct (scan_is_ok config chainName) as [[D [C K]] F].
  split; [exact F|]. now repeat split.
Qed.

(** *** The registry across scans *)

Lemma obj_has_get {V} (o : Obj V) (k : string) :
  obj_has k o = true -> exists v, obj_get k o = Some v.
Proof. unfold obj_has. destruct (obj_get k o) as [v|]; [now exists v | discriminate]. Qed.

Lemma discovered_step_registry (chainName : string) (known : list TokenInfo)
      (st : ScanState) (d : DiscoveredToken) :
  let st' := discovered_step w chainName known st d in
  let key := chainName ++ ":" ++ dt_address d in
  (forall k m, obj_get k (tokenDatabase (cfg st)) = Some m ->
               obj_get k (tokenDatabase (cfg st')) = Some m)
  /\ (alreadyKnown known d = false -> obj_has key (tokenDatabase (cfg st')) = true)
  /\ (alreadyKnown known d = true \/ obj_has key (tokenDatabase (cfg st)) = true ->
      researched st' = researched st).
Proof.
  cbv zeta. unfold discovered_step.
  destruct (alreadyKnown known d) eqn:Ek.
  { split; [auto|]. split; [discriminate | reflexivity]. }
  destruct (obj_get (chainName ++ ":" ++ dt_address d) (tokenDatabase (cfg st)))
    as [metadata|] eqn:Eg.
  - destruct (keep_balance_cfg st (getTokenBalance w (cfg st) (tm_info metadata)))
      as [H1 H2].
    rewrite H1, H2, getTokenBalance_db. split; [auto|]. split; [|reflexivity].
    intros _. unfold obj_has. now rewrite Eg.
  - unfold researchToken.
    match goal with
    | |- context [keep_balance ?s ?r] =>
        destruct (keep_balance_cfg s r) as [H1 H2]; rewrite H1, H2
    end.
    rewrite getTokenBalance_db. cbn [tokenDatabase with_tokenDatabase researched].
    split; [|split].
    + intros k m Hk. rewrite obj_get_set_neq; [exact Hk|].
      intros <-. congruence.
    + intros _. rewrite obj_has_set, String.eqb_refl. reflexivity.
    + intros [H|H]; [discriminate|]. unfold obj_has in H. rewrite Eg in H. discriminate.
Qed.

Lemma discovered_fold_registry (chainName : string) (known : list TokenInfo)
      (ds : list DiscoveredToken) (st : ScanState) :
  let st' := fold_left (discovered_step w chainName known) ds st in
  (forall k m, obj_get k (tokenDatabase (cfg st)) = Some m ->
               obj_get k (tokenDatabase (cfg st')) = Some m)
  /\ (forall d, In d ds -> alreadyKnown known d = false ->
                obj_has (chainName ++ ":" ++ dt_address d) (tokenDatabase (cfg st')) = true)
  /\ ((forall d, In d ds -> alreadyKnown known d = false ->
                 obj_has (chainName ++ ":" ++ dt_address d) (tokenDatabase (cfg st)) = true) ->
      researched st' = researched st).
Proof.
  cbv zeta. revert st. induction ds as [|d ds IH]; intros st; cbn [fold_left].
  - split; [auto|]. split; [intros ? []|reflexivity].
  - destruct (discovered_step_registry chainName known st d) as [P [I R]].
    destruct (IH (discovered_step w chainName known st d)) as [P' [I' R']].
    split; [auto|]. split.
    + intros d' [<-|Hd] Hk; [|now apply I'].
      destruct (obj_has_get _ _ (I Hk)) as [m Em].
      exact (obj_get_has _ _ _ (P' _ _ Em)).
    + intros H. rewrite R'.
      * apply R. destruct (alreadyKnown known d) eqn:Ek; [now left|].
        right. apply H; [now left | exact Ek].
      * intros d' Hd' Hk.
        destruct (obj_has_get _ _ (H d' (or_intror Hd') Hk)) as [m Em].
        exact (obj_get_has _ _ _ (P _ _ Em)).
Qed.

(** What a scan leaves in the registry. *)
Lemma scan_registry (config : CryptoConfigV2) (chainName : string) :
  let st := getAllTokensForWallet w config chainName in
  let known := match obj_get chainName (knownTokens config) with
               | Some l => l | None => [] end in
  (forall k m, obj_get k (tokenDatabase config) = Some m ->
               obj_get k (tokenDatabase (cfg st)) = Some m)
  /\ (forall a, In a (researched st) ->
                obj_has (chainName ++ ":" ++ a) (tokenDatabase (cfg st)) = true)
  /\ (forall chainConfig d,
        obj_get chainName (chains config) = Some chainConfig ->
        enabled (discovery config) = true ->
        In d (discoverTokens config chainConfig (explorer w)) ->
        alreadyKnown known d = false ->
        obj_has (chainName ++ ":" ++ dt_address d) (tokenDatabase (cfg st)) = true).
Proof.
  cbv zeta. unfold getAllTokensForWallet.
  destruct (obj_get chainName (chains config)) as [chainConfig|];
    [|cbn [cfg researched]; split; [auto|]; split; [intros ? [] | discriminate]].
  set (known := match obj_get chainName (knownTokens config) with
                | Some l => l | None => [] end).
  destruct (known_fold_inv w known (mkScan [] config [])) as [Hdb Hres].
  cbn [cfg researched] in Hdb, Hres.
  set (st1 := fold_left (known_step w) known (mkScan [] config [])) in *.
  destruct (enabled (discovery config)) eqn:En.
  - set (found := discoverTokens config chainConfig (explorer w)).
    destruct (discovered_fold_registry chainName known found st1) as [P [I _]].
    split; [intros k m Hk; apply P; now rewrite Hdb|]. split.
    + intros a Ha.
      apply (discovered_fold_inv w chainName known found st1 (tokenDatabase config)) in Ha;
        [|intros k Hk; now rewrite Hdb].
      destruct Ha as [Ha|[d [Hd [<- [Hk _]]]]]; [rewrite Hres in Ha; destruct Ha|].
      now apply I.
    + intros c d [= <-] _ Hd Hk. now apply I.
  - split; [intros k m Hk; now rewrite Hdb|]. split.
    + intros a Ha. rewrite Hres in Ha. destruct Ha.
    + discriminate.
Qed.

(** X22. The registry only grows during a wallet scan, without any
    entry being overwritten; every address the scan researched has an
    entry afterwards; and a second scan of the same wallet and chain, in
    the same world, researches nothing. *)
Theorem X22_second_scan_researches_nothing
        (config : CryptoConfigV2) (chainName : string) :
  let st := getAllTokensForWallet w config chainName in
  (forall k m, obj_get k (tokenDatabase config) = Some m ->
               obj_get k (tokenDatabase (cfg st)) = Some m)
  /\ (forall a, In a (researched st) ->
                obj_has (chainName ++ ":" ++ a) (tokenDatabase (cfg st)) = true)
  /\ researched (getAllTokensForWallet w (cfg st) chainName) = [].
Proof.
  cbv zeta.
  destruct (scan_registry config chainName) as [P [Q I]].
  destruct (scan_is_ok config chainName) as [[D [C K]] _].
  set (st := getAllTokensForWallet w config chainName) in *.
  split; [exact P|]. split; [exact Q|].
  unfold getAllTokensForWallet. rewrite C, K, D.
  destruct (obj_get chainName (chains config)) as [chainConfig|]; [|reflexivity].
  set (known := match obj_get chainName (knownTokens config) with
                | Some l => l | None => [] end) in *.
  destruct (known_fold_inv w known (mkScan [] (cfg st) [])) as [Hdb Hres].
  cbn [cfg researched] in Hdb, Hres.
  destruct (enabled (discovery config)) eqn:En; [|exact Hres].
  assert (Efound : discoverTokens (cfg st) chainConfig (explorer w)
                   = discoverTokens config chainConfig (explorer w)).
  { unfold discoverTokens. now rewrite D. }
  rewrite Efound.
  destruct (discovered_fold_registry chainName known
              (discoverTokens config chainConfig (explorer w))
              (fold_left (known_step w) known (mkScan [] (cfg st) []))) as [_ [_ R]].
  rewrite R; [exact Hres|].
  intros d Hd Hk. rewrite Hdb. now apply (I chainConfig).
Qed.

End ScanMore.

(** ** Wallets and positions *)

Section WalletFacts.
Import JS Crypto Wallets CryptoSamples.

Lemma fold_value_sum {A} (f : A -> Q) (l : list A) (acc : Q) :
  fold_left (fun sum x => sum + f x) l acc = fold_left Qplus (map f l) acc.
Proof. revert acc. induction l as [|a l IH]; intros acc; simpl; [reflexivity | apply IH]. Qed.

Lemma fetchWalletData_settings (w : World) (nativeBalance : option Q)
      (native : NativeCurrency) (config : CryptoConfigV2) (address chainName : string) :
  same_settings config
    (snd (fetchWalletData w nativeBalance native config address chainName)).
Proof.
  unfold fetchWalletData.
  destruct (obj_get chainName (chains config)); [|apply same_settings_refl].
  destruct nativeBalance as [b|]; [|apply same_settings_refl].
  pose proof (getTokenPrice_settings config (clock w)
                (priceReply w (priceKey (nc_symbol native) None))
                (clock w) (nc_symbol native) None) as S.
  destruct (getTokenPrice _ _ _ _ _ _) as [p c1]. cbn [snd] in *.
  eapply same_settings_trans; [exact S|].
  exact (proj1 (scan_is_ok w c1 chainName)).
Qed.

(** Without DeFi positions, the positions made from a wallet are token
    positions of that wallet and chain, each worth more than nothing. *)
Lemma convert_tokens_only (now : string) (walletData : WalletData) :
  defiPositions walletData = [] ->
  Forall (fun p => 0 < cp_marketValue p
                   /\ cp_type p = "token"
                   /\ cp_wallet p = wd_address walletData
                   /\ cp_chain p = wd_chain walletData)
         (convertToPositions now walletData).
Proof.
  intros Hd. unfold convertToPositions. rewrite Hd. cbn [flat_map].
  rewrite app_nil_r. apply Forall_forall. intros pos Hp.
  apply in_flat_map in Hp as [token [_ Hp]].
  destruct (gtb (valueUsd token) 0) eqn:G; [|destruct Hp].
  destruct Hp as [<-|[]]. cbn. apply gtb_spec in G. repeat split. exact G.
Qed.

Lemma fetchWalletData_shape (w : World) (nativeBalance : option Q)
      (native : NativeCurrency) (config : CryptoConfigV2) (address chainName : string)
      (walletData : WalletData) :
  fst (fetchWalletData w nativeBalance native config address chainName) = Some walletData ->
  wd_address walletData = address /\ wd_chain walletData = chainName
  /\ defiPositions walletData = [].
Proof.
  unfold fetchWalletData.
  destruct (obj_get chainName (chains config)); [|discriminate].
  destruct nativeBalance; [|discriminate].
  destruct (getTokenPrice _ _ _ _ _ _) as [p c1]. cbn [fst].
  intros [= <-]. repeat split.
Qed.

(** X23. [fetchWalletData] fails exactly when the chain is not configured
    or the native balance cannot be read, and then leaves the
    configuration alone.  Otherwise the wallet lists the native token
    first, its total is the sum of the token values, and the positions
    made from it are token positions of that wallet and chain with a
    strictly positive market value, so a token worth nothing gives no
    position. *)
Theorem X23_wallet_data_and_its_positions
        (w : World) (nativeBalance : option Q) (native : NativeCurrency)
        (config : CryptoConfigV2) (address chainName now : string) :
  let r := fetchWalletData w nativeBalance native config address chainName in
  (fst r = None <-> obj_get chainName (chains config) = None \/ nativeBalance = None)
  /\ (fst r = None -> snd r = config)
  /\ (forall walletData,
        fst r = Some walletData ->
        (exists first rest,
            wd_tokens walletData = first :: rest
            /\ tb_symbol first = nc_symbol native
            /\ Some (tb_balance first) = nativeBalance
            /\ tb_contractAddress first = None)
        /\ totalValue walletData == sum (map valueUsd (wd_tokens walletData))
        /\ Forall (fun p => 0 < cp_marketValue p
                            /\ cp_type p = "token"
                            /\ cp_wallet p = address
                            /\ cp_chain p = chainName)
                  (convertToPositions now walletData)).
Proof.
  cbv zeta. unfold fetchWalletData.
  destruct (obj_get chainName (chains config)) as [chainConfig|];
    [|cbn [fst snd]; split; [split; auto|]; split; [auto | discriminate]].
  destruct nativeBalance as [b|];
    [|cbn [fst snd]; split; [split; auto|]; split; [auto | discriminate]].
  destruct (getTokenPrice _ _ _ _ _ _) as [p c1]. cbn [fst snd].
  split; [split; [discriminate | intros [H|H]; discriminate H]|].
  split; [discriminate|].
  intros walletData [= <-]. cbn [wd_tokens totalValue]. split; [|split].
  - eexists. eexists. split; [reflexivity|]. repeat split.
  - change (fold_left (fun sum pos => sum + dp_totalValue pos) (@nil DeFiPosition) 0)
      with 0.
    rewrite (fold_value_sum valueUsd). unfold sum. apply Qplus_0_r.
  - match goal with
    | |- Forall _ (convertToPositions _ ?wd) =>
        exact (convert_tokens_only now wd eq_refl)
    end.
Qed.

Lemma X23_wallet_data_and_its_positions_witness :
  exists walletData,
    fst (fetchWalletData world (Some 2) (mkNative "Ether" "ETH" 18) config
                         "0x1111" "ethereum")
    = Some walletData
    /\ totalValue walletData == sum (map valueUsd (wd_tokens walletData)).
Proof.
  eexists. split; [reflexivity|].
  apply (proj2 (proj2 (X23_wallet_data_and_its_positions
                         world (Some 2) (mkNative "Ether" "ETH" 18) config
                         "0x1111" "ethereum" "now")) _ eq_refl).
Defined.

(** *** [CRYPTO_WALLETS] *)

Lemma trimEnd_ink (s : string) : truthy_str (trimEnd s) = has_ink s.
Proof.
  induction s as [|c r IH]; [reflexivity|].
  cbn [trimEnd has_ink]. destruct (trimEnd r) as [|c' r'].
  - cbn in IH. rewrite <- IH, orb_false_r. now destruct (is_space c).
  - cbn in IH. rewrite <- IH. now rewrite orb_true_r.
Qed.

Lemma trimStart_ink (s : string) : has_ink (trimStart s) = has_ink s.
Proof.
  induction s as [|c r IH]; [reflexivity|].
  cbn [trimStart]. destruct (is_space c) eqn:E; [|reflexivity].
  cbn [has_ink]. now rewrite E, IH.
Qed.

Lemma trim_ink (s : string) : truthy_str (trim s) = has_ink s.
Proof. unfold trim. now rewrite trimEnd_ink, trimStart_ink. Qed.

Lemma split_cons (sep : ascii) (s : string) : exists h t, split sep s = h :: t.
Proof.
  induction s as [|c r [h [t IH]]]; [now exists EmptyString, []|].
  cbn [split]. destruct (Ascii.eqb c sep); [now eexists; eexists|].
  rewrite IH. now eexists; eexists.
Qed.

Lemma split_ink (s : string) :
  existsb has_ink (split "," s) = names_a_wallet s.
Proof.
  induction s as [|c r IH]; [reflexivity|].
  cbn [split names_a_wallet]. destruct (Ascii.eqb c ",") eqn:E.
  - cbn [existsb has_ink negb andb orb]. rewrite IH. now rewrite andb_false_r.
  - destruct (split_cons "," r) as [h [t Hs]]. rewrite Hs in *.
    cbn [existsb has_ink negb] in *. rewrite <- IH, andb_true_r. now rewrite orb_assoc.
Qed.

Lemma filter_nonempty {A} (p : A -> bool) (l : list A) :
  Nat.ltb 0 (List.length (filter p l)) = existsb p l.
Proof.
  induction l as [|a l IH]; [reflexivity|].
  cbn [filter existsb]. destruct (p a); [reflexivity | exact IH].
Qed.

(** X24. Crypto counts as configured exactly when [CRYPTO_WALLETS] is
    set and holds at least one character that is neither white space nor
    a comma; an unset, empty or blank variable, or one made of commas and
    blanks only, does not. *)
Theorem X24_crypto_is_configured_when_a_wallet_is_named (CRYPTO_WALLETS : option string) :
  isCryptoConfigured CRYPTO_WALLETS
  = match CRYPTO_WALLETS with
    | Some s => names_a_wallet s
    | None => false
    end.
Proof.
  unfold isCryptoConfigured. destruct CRYPTO_WALLETS as [s|]; [|reflexivity].
  rewrite filter_nonempty, <- split_ink.
  induction (split "," s) as [|h t IH]; [reflexivity|].
  cbn [existsb]. now rewrite trim_ink, IH.
Qed.

(** *** [fetchAllPositions] *)

Lemma chain_step_collected (worlds : Worlds) (wallets : list string)
      (config : CryptoConfigV2) (walletAddress chainName : string)
      (st : list CryptoPosition * CryptoConfigV2) :
  In walletAddress wallets ->
  In chainName (obj_keys (chains config)) ->
  same_settings config (snd st) ->
  Forall (collected wallets config) (fst st) ->
  same_settings config (snd (chain_step worlds walletAddress st chainName))
  /\ Forall (collected wallets config) (fst (chain_step worlds walletAddress st chainName)).
Proof.
  intros Hw Hc S F. unfold chain_step. destruct st as [allPositions c]. cbn [fst snd] in *.
  destruct (worlds walletAddress chainName) as [[w nb] native].
  pose proof (fetchWalletData_settings w nb native c walletAddress chainName) as S'.
  pose proof (fetchWalletData_shape w nb native c walletAddress chainName) as X.
  destruct (fetchWalletData w nb native c walletAddress chainName) as [[walletData|] c'];
    cbn [fst snd] in *.
  - split; [exact (same_settings_trans _ _ _ S S')|].
    apply Forall_app. split; [exact F|].
    destruct (X walletData eq_refl) as [Xa [Xc Xd]].
    eapply Forall_impl; [|exact (convert_tokens_only (clockIso w) walletData Xd)].
    intros p [P1 [P2 [P3 P4]]].
    repeat split; try assumption; congruence.
  - split; [exact (same_settings_trans _ _ _ S S') | exact F].
Qed.

End WalletFacts.

Section AllPositions.
Import JS Crypto Wallets CryptoSamples.
Variable worlds : Worlds.

Lemma chains_fold_collected (wallets : list string) (config : CryptoConfigV2)
      (walletAddress : string) (cs : list string)
      (st : list CryptoPosition * CryptoConfigV2) :
  In walletAddress wallets ->
  (forall c, In c cs -> In c (obj_keys (chains config))) ->
  same_settings config (snd st) ->
  Forall (collected wallets config) (fst st) ->
  same_settings config (snd (fold_left (chain_step worlds walletAddress) cs st))
  /\ Forall (collected wallets config)
            (fst (fold_left (chain_step worlds walletAddress) cs st)).
Proof.
  intros Hw. revert st. induction cs as [|c cs IH]; intros st Hc S F; [now split|].
  cbn [fold_left].
  destruct (chain_step_collected worlds wallets config walletAddress c st Hw
              (Hc c (or_introl eq_refl)) S F) as [S' F'].
  apply IH; [intros; apply Hc; now right | exact S' | exact F'].
Qed.

Lemma wallets_fold_collected (wallets : list string) (config : CryptoConfigV2)
      (ws : list string) (st : list CryptoPosition * CryptoConfigV2) :
  (forall a, In a ws -> In a wallets) ->
  same_settings config (snd st) ->
  Forall (collected wallets config) (fst st) ->
  same_settings config (snd (fold_left (wallet_step worlds) ws st))
  /\ Forall (collected wallets config) (fst (fold_left (wallet_step worlds) ws st)).
Proof.
  revert st. induction ws as [|a ws IH]; intros st Hw S F; [now split|].
  cbn [fold_left].
  assert (G : same_settings config (snd (wallet_step worlds st a))
              /\ Forall (collected wallets config) (fst (wallet_step worlds st a))).
  { unfold wallet_step. apply chains_fold_collected; try assumption.
    - apply Hw. now left.
    - destruct S as [_ [C _]]. rewrite C. auto. }
  destruct G as [S' F'].
  apply IH; [intros; apply Hw; now right | exact S' | exact F'].
Qed.

(** X25. Every position [fetchAllPositions] returns is a token position
    worth more than nothing and at least the minimum position value, held
    by one of the wallets named in [CRYPTO_WALLETS] (trimmed) on a
    configured chain; with the variable unset it returns nothing and
    leaves the configuration alone; in every case the discovery settings,
    chains and known tokens are unchanged. *)
Theorem X25_all_positions_are_valued_tokens
        (config : CryptoConfigV2) (CRYPTO_WALLETS : option string) (minPositionValue : Q) :
  let wallets := match CRYPTO_WALLETS with
                 | Some s => map trim (split "," s)
                 | None => []
                 end in
  let r := fetchAllPositions worlds config CRYPTO_WALLETS minPositionValue in
  Forall (fun p => minPositionValue <= cp_marketValue p
                   /\ 0 < cp_marketValue p
                   /\ cp_type p = "token"
                   /\ In (cp_wallet p) wallets
                   /\ In (cp_chain p) (obj_keys (chains config)))
         (fst r)
  /\ same_settings config (snd r)
  /\ (CRYPTO_WALLETS = None -> r = ([], config)).
Proof.
  cbv zeta. unfold fetchAllPositions.
  set (wallets := match CRYPTO_WALLETS with
                  | Some s => map trim (split "," s)
                  | None => []
                  end).
  assert (N : CRYPTO_WALLETS = None -> wallets = []) by (intros ->; reflexivity).
  destruct (wallets_fold_collected wallets config wallets ([], config))
    as [S F]; [auto | apply same_settings_refl | constructor|].
  destruct wallets as [|a ws] eqn:E.
  - split; [constructor|]. split; [apply same_settings_refl | reflexivity].
  - rewrite <- E in *.
    destruct (fold_left (wallet_step worlds) wallets ([], config)) as [allPositions c'].
    cbn [fst snd] in *. split; [|split; [exact S|]].
    + apply Forall_forall. intros p Hp. apply filter_In in Hp as [Hp G].
      apply geb_spec in G. rewrite Forall_forall in F.
      destruct (F p Hp) as [P1 [P2 [P3 P4]]]. repeat split; assumption.
    + intros H. apply N in H. rewrite H in E. discriminate E.
Qed.

End AllPositions.

(** ** Consolidated fields and the per-symbol budget of the diff *)

Section MergeFields.
Import JS Differ Normalizer Cycle Samples.

Lemma append_assoc (a b c : string) : (a ++ b) ++ c = a ++ b ++ c.
Proof. induction a as [|x a IH]; simpl; [reflexivity | now rewrite IH]. Qed.

Lemma concat_fold (l : list string) (x : string) :
  String.concat "," (x :: l) = fold_left (fun acc r => acc ++ "," ++ r) l x.
Proof.
  revert x. induction l as [|y l IH]; intros x; [reflexivity|].
  cbn [fold_left]. rewrite <- IH.
  change (String.concat "," (x :: y :: l)) with (x ++ "," ++ String.concat "," (y :: l)).
  destruct l as [|z l]; cbn [String.concat]; [reflexivity|].
  now rewrite !append_assoc.
Qed.

Lemma merge_fold_account (l : list Position) (e : Position) :
  account (fold_left merge l e)
  = fold_left (fun acc r => acc ++ "," ++ r) (map account l) (account e).
Proof. revert e. induction l as [|r l IH]; intros e; simpl; [reflexivity | apply IH]. Qed.

Lemma merge_fold_kept (l : list Position) (e : Position) :
  let p := fold_left merge l e in
  p_symbol p = p_symbol e /\ p_name p = p_name e /\ isin p = isin e
  /\ lastUpdated p = lastUpdated e /\ sector p = sector e /\ currency p = currency e.
Proof.
  cbv zeta. revert e. induction l as [|r l IH]; intros e; simpl; [repeat split|].
  destruct (IH (merge e r)) as [H1 [H2 [H3 [H4 [H5 H6]]]]].
  rewrite H1, H2, H3, H4, H5, H6. repeat split.
Qed.

Lemma merge_fold_gain (l : list Position) (e r : Position) :
  let p := fold_left merge (r :: l) e in
  unrealizedGainLoss p = marketValue p - costBasis p.
Proof.
  revert e r. induction l as [|r' l IH]; intros e r; [reflexivity|].
  exact (IH (merge e r) r').
Qed.

(** X26. A position consolidated from two or more rows keeps the symbol,
    name, ISIN, date, sector and currency of the first row, lists the
    accounts of all its rows joined by commas in row order, and has its
    unrealized gain recomputed as market value minus cost basis, whatever
    gains the rows reported. *)
Theorem X26_consolidated_position_fields
        (accountsData : list Account) (investmentsData : PowensInvestmentData)
        (s : string) (r1 r2 : Position) (rest : list Position) :
  rows_of s (surviving accountsData investmentsData) = r1 :: r2 :: rest ->
  exists p,
    obj_get s (consolidatedOf accountsData investmentsData) = Some p
    /\ p_symbol p = p_symbol r1 /\ p_name p = p_name r1 /\ isin p = isin r1
    /\ lastUpdated p = lastUpdated r1 /\ sector p = sector r1 /\ currency p = currency r1
    /\ account p = String.concat "," (map account (r1 :: r2 :: rest))
    /\ unrealizedGainLoss p = marketValue p - costBasis p.
Proof.
  intros Hrows. exists (fold_left merge (r2 :: rest) r1).
  split.
  { unfold consolidatedOf, consolidatedPositions.
    rewrite consolidated_get, Hrows. cbn [obj_get fold_left].
    exact (merge_chain rest (merge r1 r2)). }
  destruct (merge_fold_kept (r2 :: rest) r1) as [H1 [H2 [H3 [H4 [H5 H6]]]]].
  repeat (split; [assumption|]). split.
  - rewrite merge_fold_account. cbn [map]. now rewrite concat_fold.
  - apply merge_fold_gain.
Qed.

Lemma X26_consolidated_position_fields_witness :
  let accs := [bank_account 1 "FR01"; bank_account 2 "FR02"] in
  let data := mkInvestmentData [row "VTI" 5 500 100 1; row "VTI" 3 300 100 2] 800 in
  rows_of "VTI" (surviving accs data)
  = [Normalizer.toPosition (row "VTI" 5 500 100 1);
     Normalizer.toPosition (row "VTI" 3 300 100 2)]
  /\ exists p, obj_get "VTI" (consolidatedOf accs data) = Some p /\ account p = "1,2".
Proof.
  intros accs data.
  assert (H : rows_of "VTI" (surviving accs data)
              = [Normalizer.toPosition (row "VTI" 5 500 100 1);
                 Normalizer.toPosition (row "VTI" 3 300 100 2)]) by reflexivity.
  split; [exact H|].
  destruct (X26_consolidated_position_fields accs data "VTI" _ _ _ H)
    as [p [Hg [_ [_ [_ [_ [_ [_ [Ha _]]]]]]]]].
  exists p. split; [exact Hg|]. rewrite Ha. reflexivity.
Defined.

(** *** The differ on a snapshot of the normaliser *)

Lemma toPosition_plain (inv : PowensInvestment) : plain (toPosition inv).
Proof.
  unfold plain, symbol_of, toPosition. cbn [p_symbol isin].
  destruct (truthy_ostr (stock_symbol inv)) eqn:E.
  - destruct (stock_symbol inv) as [t|]; [|discriminate]. cbn in *. congruence.
  - intros H. rewrite H. cbn [truthy_ostr tmpl]. rewrite H. reflexivity.
Qed.

Lemma consolidated_plain (rows : list Position) (m : Obj Position) :
  Forall plain rows ->
  (forall k v, In (k, v) m -> plain v) ->
  forall k v, In (k, v) (fold_left consolidate_step rows m) -> plain v.
Proof.
  revert m. induction rows as [|r rows IH]; intros m Hr Hm k v H; simpl in H.
  - now apply (Hm k v).
  - inversion Hr as [|? ? Pr Hr']; subst.
    apply (IH (consolidate_step m r) Hr') in H; [exact H|].
    intros k' v' H'. unfold consolidate_step in H'.
    destruct (obj_get (p_symbol r) m) as [e|] eqn:E;
      apply obj_set_In in H' as [H'|[_ ->]]; try (now apply (Hm k' v')); [|exact Pr].
    apply obj_get_In in E. apply Hm in E. unfold plain, symbol_of in *. exact E.
Qed.

Lemma find_last_unique (l : list Position) (p : Position) :
  NoDup (map p_symbol l) -> Forall plain l -> In p l ->
  truthy_str (p_symbol p) = true ->
  find (fun q => String.eqb (symbol_of q) (p_symbol p)) (rev l) = Some p.
Proof.
  intros ND Pl Hin Ht.
  assert (U : forall q, In q l -> symbol_of q = p_symbol p -> q = p).
  { intros q Hq Es.
    assert (Eq : p_symbol q = p_symbol p).
    { unfold symbol_of in Es. destruct (truthy_str (p_symbol q)) eqn:Tq; [exact Es|].
      rewrite Forall_forall in Pl. pose proof (Pl q Hq Tq) as Z.
      unfold symbol_of in Z. rewrite Tq in Z. rewrite Z in Es.
      rewrite <- Es in Ht. discriminate. }
    clear Es. revert ND Hin Hq Eq. clear. induction l as [|x l IH]; [intros _ []|].
    cbn [map]. intros ND Hin Hq Eq. inversion ND as [|? ? NI ND']; subst.
    destruct Hin as [->|Hin], Hq as [->|Hq]; try reflexivity.
    - exfalso. apply NI. rewrite <- Eq. now apply in_map.
    - exfalso. apply NI. rewrite Eq. now apply in_map.
    - now apply IH. }
  assert (Sp : symbol_of p = p_symbol p) by (unfold symbol_of; now rewrite Ht).
  apply (in_rev l) in Hin.
  assert (U' : forall q, In q (rev l) -> symbol_of q = p_symbol p -> q = p)
    by (intros q Hq; apply U; now apply in_rev).
  revert Hin U'. generalize (rev l) as r. induction r as [|x r IH]; [intros []|].
  intros Hin U'. cbn [find]. destruct (String.eqb (symbol_of x) (p_symbol p)) eqn:E.
  - apply String.eqb_eq in E. f_equal. apply U'; [now left | exact E].
  - destruct Hin as [->|Hin]; [rewrite Sp, String.eqb_refl in E; discriminate|].
    apply IH; [exact Hin|]. intros q Hq. apply U'. now right.
Qed.

End MergeFields.

Section SnapshotIndex.
Import JS Differ Normalizer Cycle Samples.

Lemma changed_for_share_count (env : Thresholds) (n : Obj Position) (s : string)
      (po : Position) :
  (count_of share_change s (changed_for env n s po)
   <= if obj_has s n then 1 else 0)%nat.
Proof.
  unfold changed_for, obj_has. destruct (obj_get s n) as [pn|]; [|cbn; lia].
  rewrite count_of_app.
  destruct (neqb (marketValue po) (marketValue pn) && gtb (marketValue po) 0)%bool;
    [destruct (isSignificantChange env _)|];
    destruct (neqb (shares po) (shares pn));
    unfold count_of; cbn; try rewrite String.eqb_refl; cbn; lia.
Qed.

(** X27. The differ finds every position of a snapshot of the normaliser
    under its symbol, provided the symbol is not empty, and finds nothing
    else: the symbol-keyed map of such a snapshot holds exactly its
    positions. *)
Theorem X27_differ_indexes_a_normaliser_snapshot
        (timestamp : string) (patterns : CategorizationPatterns)
        (accountsData : list Account) (investmentsData : PowensInvestmentData) :
  let snapshot := transformToInternalFormat timestamp patterns accountsData investmentsData in
  (forall p, In p (all_positions (positions snapshot)) ->
             truthy_str (p_symbol p) = true ->
             obj_get (p_symbol p) (flatten (positions snapshot)) = Some p)
  /\ (forall s p, obj_get s (flatten (positions snapshot)) = Some p ->
                  In p (all_positions (positions snapshot)) /\ symbol_of p = s).
Proof.
  cbv zeta.
  set (snap := transformToInternalFormat timestamp patterns accountsData investmentsData).
  pose proof (snapshot_perm timestamp patterns accountsData investmentsData) as P.
  fold snap in P.
  assert (L : all_positions (positions snap) = List.concat (categories (positions snap))).
  { unfold snap, transformToInternalFormat. cbn [positions]. unfold categorize.
    destruct (categorize_fold_perm patterns
                (obj_values (consolidatedOf accountsData investmentsData)) emptyPositions)
      as [_ [B [C _]]].
    unfold all_positions, categories. rewrite B, C. cbn [bonds cash emptyPositions].
    cbn [List.concat app]. now rewrite app_nil_r. }
  split.
  - intros p Hp Ht. rewrite flatten_lookup, Ht, <- L.
    apply find_last_unique; [| |exact Hp | exact Ht].
    + eapply Permutation_NoDup; [symmetry; apply Permutation_map; exact P|].
      unfold consolidatedOf. rewrite consolidated_symbols.
      apply consolidated_NoDup. constructor.
    + apply Forall_forall. intros q Hq.
      apply (Permutation_in _ P) in Hq. unfold obj_values in Hq.
      apply in_map_iff in Hq as [[k v] [<- Hin]]. cbn [snd].
      unfold consolidatedOf, consolidatedPositions in Hin.
      eapply consolidated_plain; [| |exact Hin]; [|intros ? ? []].
      apply Forall_forall. intros r Hr. unfold surviving in Hr.
      apply uniqueInvestments_incl in Hr.
      apply allInvestments_In in Hr as [inv [_ [_ [_ ->]]]]. apply toPosition_plain.
  - intros s p H. rewrite flatten_lookup in H.
    destruct (truthy_str s); [|discriminate].
    apply find_some in H as [Hin E]. apply String.eqb_eq in E.
    split; [|exact E]. rewrite L. now apply in_rev.
Qed.

(** X28. Per symbol a diff holds at most one change among opened, closed
    and value change, and at most one share change; a symbol that is
    opened or closed gets no share change. *)
Theorem X28_per_symbol_change_budget
        (env : Thresholds) (oldData newData : PortfolioData) (s : string) :
  let changes := detectChanges env oldData newData in
  (count_of new s changes + count_of closed s changes
   + count_of value_change s changes <= 1)%nat
  /\ (count_of share_change s changes <= 1)%nat
  /\ (count_of new s changes + count_of closed s changes = 1 ->
      count_of share_change s changes = 0)%nat.
Proof.
  cbv zeta.
  pose proof (detect_loggedCount env oldData newData s) as B. unfold loggedCount in B.
  split; [exact B|].
  unfold detectChanges in *. rewrite !count_of_app in *.
  rewrite !count_new_changes, !count_closed_changes in * by apply flatten_NoDup.
  rewrite !count_changed_changes in * by apply flatten_NoDup.
  cbn [ChangeType_eqb andb] in *.
  set (o := flatten (positions oldData)) in *. set (n := flatten (positions newData)) in *.
  pose proof (fun po => changed_for_share_count env n s po) as V.
  assert (Z1 : forall po, count_of new s (changed_for env n s po) = 0%nat).
  { intros po. apply count_of_none. intros c Hc. left.
    apply changed_for_type in Hc. destruct Hc; congruence. }
  assert (Z2 : forall po, count_of closed s (changed_for env n s po) = 0%nat).
  { intros po. apply count_of_none. intros c Hc. left.
    apply changed_for_type in Hc. destruct Hc; congruence. }
  unfold obj_has in *. destruct (obj_get s o) as [po|].
  - specialize (V po). rewrite Z1, Z2.
    destruct (obj_get s n); cbn in *; split; lia.
  - destruct (obj_get s n); cbn; split; lia.
Qed.

End SnapshotIndex.
